(** * mcp-database-server: schema tools and schema resources

    A shallow embedding of [src/tools/schemaTools.ts] (createTable,
    alterTable, dropTable, listTables, describeTable) and of the resource
    handlers (handleListResources, handleReadResource), with the properties
    the specification states about them.

    Layout: JavaScript strings and values; the effect monad of the handlers
    (exceptions and a trace of the calls made to the database layer); the
    URL class of the platform, after the URL Standard; the two source files;
    the vocabulary of the statements and the test doubles; the properties the
    specification states, then further properties of the code. *)

From Stdlib Require Import Bool List NArith ZArith Lia Ascii String.
From Stdlib Require Import DecimalString DecimalN Zify.
Import ListNotations.
Open Scope string_scope.

(** ** JavaScript strings

    A JavaScript string is a sequence of UTF-16 code units.  A [string] here
    is a sequence of code units below 256 (Basic Latin and Latin-1
    Supplement): the character [c] stands for the code unit [code c]. *)

Definition code (c : ascii) : N := N_of_ascii c.

Definition between (lo hi : N) (c : ascii) : bool :=
  ((lo <=? code c) && (code c <=? hi))%N.

Definition is_char (d c : ascii) : bool := Ascii.eqb d c.

Fixpoint str_all (p : ascii -> bool) (s : string) : bool :=
  match s with
  | EmptyString => true
  | String c r => p c && str_all p r
  end.

Definition str_any (p : ascii -> bool) (s : string) : bool :=
  negb (str_all (fun c => negb (p c)) s).

Fixpoint str_filter (p : ascii -> bool) (s : string) : string :=
  match s with
  | EmptyString => EmptyString
  | String c r => if p c then String c (str_filter p r) else str_filter p r
  end.

Fixpoint str_flat_map (f : ascii -> string) (s : string) : string :=
  match s with
  | EmptyString => EmptyString
  | String c r => f c ++ str_flat_map f r
  end.

(** Removes the longest prefix of characters satisfying [p]. *)
Fixpoint dropStart (p : ascii -> bool) (s : string) : string :=
  match s with
  | EmptyString => EmptyString
  | String c r => if p c then dropStart p r else s
  end.

(** Removes the longest suffix of characters satisfying [p]. *)
Fixpoint dropEnd (p : ascii -> bool) (s : string) : string :=
  match s with
  | EmptyString => EmptyString
  | String c r =>
      match dropEnd p r with
      | EmptyString => if p c then EmptyString else String c EmptyString
      | r' => String c r'
      end
  end.

(** [break_at p s] cuts [s] in front of its first character satisfying [p]. *)
Fixpoint break_at (p : ascii -> bool) (s : string) : string * string :=
  match s with
  | EmptyString => (EmptyString, EmptyString)
  | String c r =>
      if p c then (EmptyString, s)
      else let (a, b) := break_at p r in (String c a, b)
  end.

(** WhiteSpace and LineTerminator code units (ECMA-262, 12.2 and 12.3) below
    256: TAB, LF, VT, FF, CR, SP and NBSP. *)
Definition isWhiteSpace (c : ascii) : bool :=
  between 9 13 c || is_char " " c || (code c =? 160)%N.

(** The double quote, code unit 34. *)
Definition dquote : string := String (ascii_of_N 34) EmptyString.

(** [String.prototype.trim]. *)
Definition trim (s : string) : string := dropEnd isWhiteSpace (dropStart isWhiteSpace s).

Definition isUpper (c : ascii) : bool :=
  between 65 90 c || between 192 214 c || between 216 222 c.

Definition lowerChar (c : ascii) : ascii :=
  if isUpper c then ascii_of_N (code c + 32) else c.

(** [String.prototype.toLowerCase]: on code units below 256 the letters with
    a lower case form are A-Z, U+00C0-U+00D6 and U+00D8-U+00DE, each 32 below
    its lower case form. *)
Fixpoint toLowerCase (s : string) : string :=
  match s with
  | EmptyString => EmptyString
  | String c r => String (lowerChar c) (toLowerCase r)
  end.

(** [s.startsWith(p)]. *)
Definition startsWith (s p : string) : bool := prefix p s.

(** [s.split(sep)] for a one-character separator: never the empty array. *)
Fixpoint split (sep : ascii) (s : string) : list string :=
  match s with
  | EmptyString => [EmptyString]
  | String c r =>
      if is_char sep c then EmptyString :: split sep r
      else match split sep r with
           | h :: t => String c h :: t
           | [] => [String c EmptyString]
           end
  end.

(** [Array.prototype.pop]: the last element, or [undefined] ([None]) on the
    empty array, and the array that is left. *)
Definition pop {A : Type} (l : list A) : option A * list A :=
  match rev l with
  | [] => (None, [])
  | x :: r => (Some x, rev r)
  end.

(** [Array.prototype.includes] on an array of strings. *)
Definition includes (l : list string) (x : string) : bool :=
  existsb (String.eqb x) l.

(** ** JavaScript values in rows *)

Inductive JsValue : Type :=
| JsUndefined
| JsNull
| JsBoolean (b : bool)
| JsNumber (n : Z)
| JsString (s : string).

(** [!!v]. *)
Definition truthy (v : JsValue) : bool :=
  match v with
  | JsUndefined | JsNull => false
  | JsBoolean b => b
  | JsNumber n => negb (n =? 0)%Z
  | JsString s => negb (s =? EmptyString)
  end.

(** [!!s] for a string and for an optional string field. *)
Definition nonEmpty (s : string) : bool := negb (s =? EmptyString).

Definition present (s : option string) : bool :=
  match s with
  | Some s => nonEmpty s
  | None => false
  end.

Definition text_of (s : option string) : string :=
  match s with
  | Some s => s
  | None => "undefined"
  end.

(** ** Errors and outcomes *)

Record JsError : Type := Error { message : string }.

Inductive outcome (A : Type) : Type :=
| Returned (a : A)
| Thrown (e : JsError).
Arguments Returned {A} a.
Arguments Thrown {A} e.

(** [Array.prototype.map] with a callback that may throw. *)
Fixpoint map_throwing {A B : Type} (f : A -> outcome B) (l : list A) : outcome (list B) :=
  match l with
  | [] => Returned []
  | x :: r =>
      match f x with
      | Thrown e => Thrown e
      | Returned y =>
          match map_throwing f r with
          | Thrown e => Thrown e
          | Returned ys => Returned (y :: ys)
          end
      end
  end.

(** ** The database layer and the effect monad

    The handlers import [getDatabaseMetadata], [getListTablesQuery],
    [getDescribeTableQuery], [dbAll] and [dbExec] from [db/index.js] and
    [formatSuccessResponse] from [utils/formatUtils.js].  They are parameters
    of the development: a [DbLayer] acts on a state [W] of the database
    connections, and each of its functions returns or throws. *)

Record DbInfo : Type := {
  db_type : string;
  db_path : option string;
  db_server : option string;
  db_database : option string
}.

(** A row of [dbAll]: the fields the handlers read.  The table listing reads
    [name]; the table description reads all five. *)
Record Row : Type := {
  row_name : string;
  row_type : string;
  row_notnull : JsValue;
  row_dflt_value : JsValue;
  row_pk : JsValue
}.

Record DbLayer (W : Type) : Type := {
  ext_getDatabaseMetadata : string -> W -> outcome DbInfo * W;
  ext_getListTablesQuery : string -> W -> outcome string * W;
  (** the table name is [None] when the handler passes [undefined] *)
  ext_getDescribeTableQuery : string -> option string -> W -> outcome string * W;
  ext_dbAll : string -> string -> W -> outcome (list Row) * W;
  ext_dbExec : string -> string -> W -> outcome unit * W
}.
Arguments ext_getDatabaseMetadata {W}.
Arguments ext_getListTablesQuery {W}.
Arguments ext_getDescribeTableQuery {W}.
Arguments ext_dbAll {W}.
Arguments ext_dbExec {W}.

(** The calls a handler makes to the database layer, in order, each with the
    error it threw, if any. *)
Inductive Call : Type :=
| GetDatabaseMetadata (dbId : string)
| GetListTablesQuery (dbId : string)
| GetDescribeTableQuery (dbId : string) (tableName : option string)
| DbAll (dbId query : string)
| DbExec (dbId query : string).

Record Event : Type := { ev_call : Call; ev_thrown : option JsError }.

Record Env (W : Type) : Type := { world : W; trace : list Event }.
Arguments world {W}.
Arguments trace {W}.

Definition M (W A : Type) : Type := Env W -> outcome A * Env W.

Definition ret {W A : Type} (a : A) : M W A := fun env => (Returned a, env).

Definition throw {W A : Type} (e : JsError) : M W A := fun env => (Thrown e, env).

Definition bind {W A B : Type} (m : M W A) (f : A -> M W B) : M W B :=
  fun env =>
    match m env with
    | (Returned a, env') => f a env'
    | (Thrown e, env') => (Thrown e, env')
    end.

(** [try { body } catch (error) { handler }]. *)
Definition try_catch {W A : Type} (body : M W A) (handler : JsError -> M W A) : M W A :=
  fun env =>
    match body env with
    | (Returned a, env') => (Returned a, env')
    | (Thrown e, env') => handler e env'
    end.

(** A value computed by the platform, which returns or throws. *)
Definition lift {W A : Type} (o : outcome A) : M W A := fun env => (o, env).

Definition thrown_of {A : Type} (o : outcome A) : option JsError :=
  match o with
  | Returned _ => None
  | Thrown e => Some e
  end.

(** A call to the database layer: runs it on the current state and records it. *)
Definition perform {W A : Type} (c : Call) (f : W -> outcome A * W) : M W A :=
  fun env =>
    let (o, w) := f (world env) in
    (o, {| world := w; trace := trace env ++ [ {| ev_call := c; ev_thrown := thrown_of o |} ] |}).

(** [if (cond) { throw new Error(msg); }]. *)
Definition throw_if {W : Type} (cond : bool) (msg : string) : M W unit :=
  if cond then throw (Error msg) else ret tt.

Declare Scope js_scope.
Delimit Scope js_scope with js.
Notation "x <- m ;; k" := (bind m (fun x => k))
  (at level 61, m at next level, right associativity) : js_scope.
Notation "m ;; k" := (bind m (fun _ => k))
  (at level 61, right associativity) : js_scope.

(** A call that returned. *)
Definition event (c : Call) : Event := {| ev_call := c; ev_thrown := None |}.

(** The handler starts with no call made. *)
Definition run {W A : Type} (m : M W A) (w : W) : outcome A * Env W :=
  m {| world := w; trace := [] |}.

Definition result_of {W A : Type} (r : outcome A * Env W) : outcome A := fst r.
Definition calls_of {W A : Type} (r : outcome A * Env W) : list Call :=
  map ev_call (trace (snd r)).
Definition events_of {W A : Type} (r : outcome A * Env W) : list Event := trace (snd r).

(** The imports from [db/index.js], as calls recorded in the trace. *)
Section DbCalls.
Context {W : Type}.
Variable db : DbLayer W.

Definition getDatabaseMetadata (dbId : string) : M W DbInfo :=
  perform (GetDatabaseMetadata dbId) (ext_getDatabaseMetadata db dbId).

Definition getListTablesQuery (dbId : string) : M W string :=
  perform (GetListTablesQuery dbId) (ext_getListTablesQuery db dbId).

Definition getDescribeTableQuery (dbId : string) (tableName : option string) : M W string :=
  perform (GetDescribeTableQuery dbId tableName) (ext_getDescribeTableQuery db dbId tableName).

Definition dbAll (dbId query : string) : M W (list Row) :=
  perform (DbAll dbId query) (ext_dbAll db dbId query).

Definition dbExec (dbId query : string) : M W unit :=
  perform (DbExec dbId query) (ext_dbExec db dbId query).
End DbCalls.

(** ** The URL class

    [new URL(input)], [new URL(input, base)], [href] and [pathname] follow the
    URL Standard (url.spec.whatwg.org): the basic URL parser without a state
    override and with UTF-8 as encoding, and the URL serializer.  The parser
    is written out for the schemes that are not special, which are the ones
    the handlers build ([sqlite], [sqlserver], [db]); the special schemes
    ([http], [file] and the like) are left to the platform, see
    [UrlPlatform]. *)

Inductive UrlPath : Type :=
| OpaquePath (text : string)
| ListPath (segments : list string).

Record URL : Type := {
  url_scheme : string;
  url_username : string;
  url_password : string;
  url_host : option string;      (* serialized; None is the null host *)
  url_port : option N;
  url_path : UrlPath;
  url_query : option string;
  url_fragment : option string
}.

Record UrlPlatform : Type := {
  (** the basic URL parser on an input that has a special scheme, or that has
      no scheme and a base with a special scheme; the input comes with
      leading and trailing C0 controls and spaces, tabs and newlines removed *)
  special : string -> option URL -> option URL
}.

Definition has_code (codes : list N) (c : ascii) : bool :=
  existsb (N.eqb (code c)) codes.

Definition isAlpha (c : ascii) : bool := between 65 90 c || between 97 122 c.
Definition isDigit (c : ascii) : bool := between 48 57 c.

Definition asciiLower (c : ascii) : ascii :=
  if between 65 90 c then ascii_of_N (code c + 32) else c.

Fixpoint asciiLowercase (s : string) : string :=
  match s with
  | EmptyString => EmptyString
  | String c r => String (asciiLower c) (asciiLowercase r)
  end.

(** *** Percent-encode sets *)

Definition c0_control_set (c : ascii) : bool := (code c <=? 31)%N || (126 <? code c)%N.

(** space, double quote, [<], [>] and the backquote *)
Definition fragment_set (c : ascii) : bool := c0_control_set c || has_code [32; 34; 60; 62; 96]%N c.

(** space, double quote, [#], [<] and [>] *)
Definition query_set (c : ascii) : bool := c0_control_set c || has_code [32; 34; 35; 60; 62]%N c.

(** the query set and [?], [^], the backquote, [{] and [}] *)
Definition path_set (c : ascii) : bool := query_set c || has_code [63; 94; 96; 123; 125]%N c.

(** the path set and [/], [:], [;], [=], [@], [[], [\], []] and [|] *)
Definition userinfo_set (c : ascii) : bool :=
  path_set c || has_code [47; 58; 59; 61; 64; 91; 92; 93; 124]%N c.

Definition hexDigit (n : N) : ascii :=
  match String.get (N.to_nat n) "0123456789ABCDEF" with
  | Some c => c
  | None => "0"%char
  end.

Definition percent_encode_byte (b : N) : string :=
  String "%" (String (hexDigit (b / 16)) (String (hexDigit (b mod 16)) EmptyString)).

(** UTF-8 percent-encode of a code point below 256: one byte below 128, two
    bytes from 128 on. *)
Definition utf8_percent_encode (set : ascii -> bool) (c : ascii) : string :=
  if set c then
    if (code c <? 128)%N then percent_encode_byte (code c)
    else percent_encode_byte (192 + code c / 64) ++ percent_encode_byte (128 + code c mod 64)
  else String c EmptyString.

Definition percent_encode (set : ascii -> bool) (s : string) : string :=
  str_flat_map (utf8_percent_encode set) s.

(** *** Serializer *)

Definition serialize_port (n : N) : string := NilZero.string_of_uint (N.to_uint n).

Fixpoint serialize_segments (l : list string) : string :=
  match l with
  | [] => EmptyString
  | seg :: r => "/" ++ seg ++ serialize_segments r
  end.

Definition serialize_path (p : UrlPath) : string :=
  match p with
  | OpaquePath text => text
  | ListPath segments => serialize_segments segments
  end.

Definition includes_credentials (username password : string) : bool :=
  nonEmpty username || nonEmpty password.

Definition serialize_authority (username password host : string) (port : option N) : string :=
  (if includes_credentials username password then
     username ++ (if nonEmpty password then ":" ++ password else EmptyString) ++ "@"
   else EmptyString) ++
  host ++
  match port with
  | Some n => ":" ++ serialize_port n
  | None => EmptyString
  end.

(** The [href] getter: the URL serializer. *)
Definition href (u : URL) : string :=
  url_scheme u ++ ":" ++
  match url_host u with
  | Some host =>
      "//" ++ serialize_authority (url_username u) (url_password u) host (url_port u)
  | None =>
      match url_path u with
      | ListPath (EmptyString :: _ :: _) => "/."
      | _ => EmptyString
      end
  end ++
  serialize_path (url_path u) ++
  match url_query u with Some q => "?" ++ q | None => EmptyString end ++
  match url_fragment u with Some f => "#" ++ f | None => EmptyString end.

(** The [pathname] getter. *)
Definition pathname (u : URL) : string := serialize_path (url_path u).

(** *** Parser *)

Definition with_path (u : URL) (p : UrlPath) : URL :=
  {| url_scheme := url_scheme u; url_username := url_username u;
     url_password := url_password u; url_host := url_host u; url_port := url_port u;
     url_path := p; url_query := url_query u; url_fragment := url_fragment u |}.

Definition with_query (u : URL) (q : option string) : URL :=
  {| url_scheme := url_scheme u; url_username := url_username u;
     url_password := url_password u; url_host := url_host u; url_port := url_port u;
     url_path := url_path u; url_query := q; url_fragment := url_fragment u |}.

Definition with_fragment (u : URL) (f : option string) : URL :=
  {| url_scheme := url_scheme u; url_username := url_username u;
     url_password := url_password u; url_host := url_host u; url_port := url_port u;
     url_path := url_path u; url_query := url_query u; url_fragment := f |}.

(** A URL with the given scheme and path, and nothing else. *)
Definition blank_url (scheme : string) (p : UrlPath) : URL :=
  {| url_scheme := scheme; url_username := EmptyString; url_password := EmptyString;
     url_host := None; url_port := None; url_path := p;
     url_query := None; url_fragment := None |}.

Definition isC0ControlOrSpace (c : ascii) : bool := (code c <=? 32)%N.

Definition isTabOrNewline (c : ascii) : bool := has_code [9; 10; 13]%N c.

(** Leading and trailing C0 controls and spaces are removed, then every tab
    and newline. *)
Definition preprocess (input : string) : string :=
  str_filter (fun c => negb (isTabOrNewline c))
    (dropEnd isC0ControlOrSpace (dropStart isC0ControlOrSpace input)).

Definition isSpecialScheme (scheme : string) : bool :=
  existsb (String.eqb scheme) ["ftp"; "file"; "http"; "https"; "ws"; "wss"].

(** Scheme state: the scheme, lower-cased, and what follows its colon;
    [None] sends the parser to the no scheme state. *)
Fixpoint scheme_state (s buffer : string) : option (string * string) :=
  match s with
  | EmptyString => None
  | String c r =>
      if isAlpha c || isDigit c || is_char "+" c || is_char "-" c || is_char "." c
      then scheme_state r (buffer ++ String (asciiLower c) EmptyString)
      else if is_char ":" c then Some (buffer, r)
      else None
  end.

Definition scheme_start_state (s : string) : option (string * string) :=
  match s with
  | String c r => if isAlpha c then scheme_state r (String (asciiLower c) EmptyString) else None
  | EmptyString => None
  end.

Definition isSingleDot (buffer : string) : bool :=
  existsb (String.eqb (asciiLowercase buffer)) ["."; "%2e"].

Definition isDoubleDot (buffer : string) : bool :=
  existsb (String.eqb (asciiLowercase buffer)) [".."; ".%2e"; "%2e."; "%2e%2e"].

(** Shorten a path (the scheme is not [file]). *)
Definition shorten (path : list string) : list string := removelast path.

(** What the path state does with its buffer at a [/] ([slash] is true) and
    at [?], [#] or the end of the input ([slash] is false). *)
Definition push_segment (path : list string) (buffer : string) (slash : bool) : list string :=
  if isDoubleDot buffer then
    if slash then shorten path else shorten path ++ [EmptyString]
  else if isSingleDot buffer then
    if slash then path else path ++ [EmptyString]
  else path ++ [buffer].

(** Path state: the path, and the input left at [?], [#] or the end. *)
Fixpoint path_state (s buffer : string) (path : list string) : list string * string :=
  match s with
  | EmptyString => (push_segment path buffer false, EmptyString)
  | String c r =>
      if is_char "/" c then path_state r EmptyString (push_segment path buffer true)
      else if is_char "?" c || is_char "#" c then (push_segment path buffer false, s)
      else path_state r (buffer ++ utf8_percent_encode path_set c) path
  end.

Definition fragment_state (u : URL) (s : string) : URL :=
  with_fragment u (Some (percent_encode fragment_set s)).

(** Query state, on the input after [?]. *)
Definition query_state (u : URL) (s : string) : URL :=
  let (buffer, rest) := break_at (is_char "#") s in
  let u := with_query u (Some (percent_encode query_set buffer)) in
  match rest with
  | String _ f => fragment_state u f
  | EmptyString => u
  end.

Definition query_or_fragment (u : URL) (rest : string) : URL :=
  match rest with
  | String c r =>
      if is_char "?" c then query_state u r
      else if is_char "#" c then fragment_state u r
      else u
  | EmptyString => u
  end.

(** The path state entered with the path [path], and the states after it. *)
Definition path_and_rest (u : URL) (path : list string) (s : string) : URL :=
  let (segments, rest) := path_state s EmptyString path in
  query_or_fragment (with_path u (ListPath segments)) rest.

(** Path start state, for a scheme that is not special. *)
Definition path_start_state (u : URL) (s : string) : URL :=
  match s with
  | EmptyString => u
  | String c r =>
      if is_char "?" c then query_state u r
      else if is_char "#" c then fragment_state u r
      else if is_char "/" c then path_and_rest u [] r
      else path_and_rest u [] s
  end.

(** Opaque path state: the path, and the input left at [?], [#] or the end. *)
Fixpoint opaque_path_state (s path : string) : string * string :=
  match s with
  | EmptyString => (path, EmptyString)
  | String c r =>
      if is_char "?" c || is_char "#" c then (path, s)
      else if is_char " " c then
        match r with
        | String d _ =>
            if is_char "?" d || is_char "#" d
            then opaque_path_state r (path ++ "%20")
            else opaque_path_state r (path ++ " ")
        | EmptyString => opaque_path_state r (path ++ " ")
        end
      else opaque_path_state r (path ++ utf8_percent_encode c0_control_set c)
  end.

(** NULL, TAB, LF, CR, space, [#], [/], [:], [<], [>], [?], [@], [[], [\],
    []], [^] and [|]. *)
Definition isForbiddenHost (c : ascii) : bool :=
  has_code [0; 9; 10; 13; 32; 35; 47; 58; 60; 62; 63; 64; 91; 92; 93; 94; 124]%N c.

Definition opaque_host_parser (input : string) : option string :=
  if str_any isForbiddenHost input then None
  else Some (percent_encode c0_control_set input).

(** The string without its last character, and that character. *)
Fixpoint unsnoc (s : string) : option (string * ascii) :=
  match s with
  | EmptyString => None
  | String c r =>
      match unsnoc r with
      | None => Some (EmptyString, c)
      | Some (i, l) => Some (String c i, l)
      end
  end.

(** [split_last d s] cuts [s] at its last [d]. *)
Fixpoint split_last (d : ascii) (s : string) : option (string * string) :=
  match s with
  | EmptyString => None
  | String c r =>
      match split_last d r with
      | Some (a, b) => Some (String c a, b)
      | None => if is_char d c then Some (EmptyString, r) else None
      end
  end.

(** Host state: the host text, and the port text when a [:] outside of
    brackets ends the host. *)
Fixpoint host_state (s : string) (insideBrackets : bool) (buffer : string) : string * option string :=
  match s with
  | EmptyString => (buffer, None)
  | String c r =>
      if is_char ":" c && negb insideBrackets then (buffer, Some r)
      else
        let inside :=
          if is_char "[" c then true
          else if is_char "]" c then false
          else insideBrackets in
        host_state r inside (buffer ++ String c EmptyString)
  end.

Fixpoint decimal_value (s : string) (acc : N) : N :=
  match s with
  | EmptyString => acc
  | String c r => decimal_value r (10 * acc + (code c - 48))
  end.

(** Port state on the text between the [:] and the end of the authority:
    [Some None] is the null port.  No scheme that is not special has a
    default port. *)
Definition port_state (buffer : string) : option (option N) :=
  if str_all isDigit buffer then
    match buffer with
    | EmptyString => Some None
    | _ =>
        let port := decimal_value buffer 0 in
        if (65535 <? port)%N then None else Some (Some port)
    end
  else None.

Definition isAuthorityEnd (c : ascii) : bool :=
  is_char "/" c || is_char "?" c || is_char "#" c.

(** *** IPv6 addresses

    The IPv6 parser and the IPv6 serializer of the URL Standard.  An address
    is a list of eight pieces, each a 16-bit unsigned integer; [set_piece]
    stores a piece modulo 2^16. *)

Definition isHexDigit (c : ascii) : bool := isDigit c || between 65 70 c || between 97 102 c.

(** The value of a hexadecimal digit. *)
Definition hexValue (c : ascii) : N :=
  if isDigit c then code c - 48 else if between 65 70 c then code c - 55 else code c - 87.

Definition get_piece (address : list N) (i : nat) : N := nth i address 0%N.

Fixpoint set_piece (address : list N) (i : nat) (v : N) : list N :=
  match address, i with
  | [], _ => []
  | _ :: r, O => (v mod 65536)%N :: r
  | x :: r, S i' => x :: set_piece r i' v
  end.

(** One number of an IPv4 address at the end of an IPv6 address: its value
    and the input left; no leading zero, at most 255. *)
Fixpoint ipv4_piece (s : string) (ipv4Piece : option N) : option (N * string) :=
  match s with
  | String c r =>
      if isDigit c then
        let number := (code c - 48)%N in
        match ipv4Piece with
        | None => ipv4_piece r (Some number)
        | Some 0%N => None
        | Some p =>
            if (255 <? p * 10 + number)%N then None
            else ipv4_piece r (Some (p * 10 + number)%N)
        end
      else match ipv4Piece with Some p => Some (p, s) | None => None end
  | EmptyString => match ipv4Piece with Some p => Some (p, s) | None => None end
  end.

(** The four numbers of an IPv4 address, two to a piece.  [fuel] bounds the
    number of turns of the loop, which five turns always end. *)
Fixpoint ipv4_in_ipv6 (fuel : nat) (s : string) (numbersSeen : nat) (address : list N)
  (pieceIndex : nat) : option (list N * nat) :=
  match s with
  | EmptyString => if (numbersSeen =? 4)%nat then Some (address, pieceIndex) else None
  | String c r =>
      match fuel with
      | O => None
      | S fuel' =>
          let after_dot :=
            if (0 <? numbersSeen)%nat then
              if is_char "." c && (numbersSeen <? 4)%nat then Some r else None
            else Some s in
          match after_dot with
          | None => None
          | Some s' =>
              match ipv4_piece s' None with
              | None => None
              | Some (piece, rest) =>
                  let address' :=
                    set_piece address pieceIndex (get_piece address pieceIndex * 256 + piece) in
                  let pieceIndex' :=
                    if (S numbersSeen =? 2)%nat || (S numbersSeen =? 4)%nat then S pieceIndex
                    else pieceIndex in
                  ipv4_in_ipv6 fuel' rest (S numbersSeen) address' pieceIndex'
              end
          end
      end
  end.

(** The main loop of the IPv6 parser, one character at a time: at the start
    of a piece, or in a piece, with the value and the number of the digits
    read and the input from where the piece starts. *)
Inductive Ipv6State : Type :=
| PieceStart
| InPiece (value : N) (length : nat) (start : string).

Fixpoint ipv6_loop (s : string) (state : Ipv6State) (address : list N) (pieceIndex : nat)
  (compress : option nat) : option (list N * nat * option nat) :=
  match state with
  | PieceStart =>
      match s with
      | EmptyString => Some (address, pieceIndex, compress)
      | String c r =>
          if (pieceIndex =? 8)%nat then None
          else if is_char ":" c then
            match compress with
            | Some _ => None
            | None => ipv6_loop r PieceStart address (S pieceIndex) (Some (S pieceIndex))
            end
          else if isHexDigit c then ipv6_loop r (InPiece (hexValue c) 1 s) address pieceIndex compress
          else None
      end
  | InPiece value length start =>
      match s with
      | EmptyString => Some (set_piece address pieceIndex value, S pieceIndex, compress)
      | String c r =>
          if (length <? 4)%nat && isHexDigit c then
            ipv6_loop r (InPiece (value * 16 + hexValue c) (S length) start)
              address pieceIndex compress
          else if is_char "." c then
            if (6 <? pieceIndex)%nat then None
            else
              match ipv4_in_ipv6 5 start 0 address pieceIndex with
              | Some (address', pieceIndex') => Some (address', pieceIndex', compress)
              | None => None
              end
          else if is_char ":" c then
            match r with
            | EmptyString => None
            | _ => ipv6_loop r PieceStart (set_piece address pieceIndex value) (S pieceIndex) compress
            end
          else None
      end
  end.

(** The pieces read after the compression are moved to the end. *)
Definition swap (address : list N) (i j : nat) : list N :=
  set_piece (set_piece address i (get_piece address j)) j (get_piece address i).

Fixpoint swap_pieces (swaps pieceIndex compress : nat) (address : list N) : list N :=
  match swaps with
  | O => address
  | S swaps' =>
      if (pieceIndex =? 0)%nat then address
      else swap_pieces swaps' (pieceIndex - 1) compress
             (swap address pieceIndex (compress + swaps - 1))
  end.

(** After the loop: with a compression the pieces after it are moved, without
    one there must be eight pieces. *)
Definition ipv6_finish (result : option (list N * nat * option nat)) : option (list N) :=
  match result with
  | None => None
  | Some (address, pieceIndex, Some compress) =>
      Some (swap_pieces (pieceIndex - compress) 7 compress address)
  | Some (address, pieceIndex, None) => if (pieceIndex =? 8)%nat then Some address else None
  end.

Definition ipv6_parser (input : string) : option (list N) :=
  let start :=
    match input with
    | String c r =>
        if is_char ":" c then
          match r with
          | String c' r' => if is_char ":" c' then Some (r', 1, Some 1) else None
          | EmptyString => None
          end
        else Some (input, 0, None)
    | EmptyString => Some (input, 0, None)
    end in
  match start with
  | None => None
  | Some (s, pieceIndex, compress) =>
      ipv6_finish (ipv6_loop s PieceStart [0; 0; 0; 0; 0; 0; 0; 0]%N pieceIndex compress)
  end.

(** The index of the first longest run of two or more pieces that are 0. *)
Fixpoint find_compressed (address : list N) (pieceIndex : nat) (longestIndex : option nat)
  (longestSize : nat) (foundIndex : option nat) (foundSize : nat) : option nat :=
  match address with
  | [] => if (longestSize <? foundSize)%nat then foundIndex else longestIndex
  | piece :: r =>
      if (piece =? 0)%N then
        find_compressed r (S pieceIndex) longestIndex longestSize
          (match foundIndex with None => Some pieceIndex | Some i => Some i end) (S foundSize)
      else if (longestSize <? foundSize)%nat then
        find_compressed r (S pieceIndex) foundIndex foundSize None 0
      else find_compressed r (S pieceIndex) longestIndex longestSize None 0
  end.

Definition hexLower (n : N) : ascii :=
  match String.get (N.to_nat n) "0123456789abcdef" with
  | Some c => c
  | None => "0"%char
  end.

(** A piece as the shortest lower-case hexadecimal number. *)
Definition hex_piece (v : N) : string :=
  let d (i : N) := String (hexLower ((v / 16 ^ i) mod 16)) EmptyString in
  if (v <? 16)%N then d 0%N
  else if (v <? 256)%N then d 1%N ++ d 0%N
  else if (v <? 4096)%N then d 2%N ++ d 1%N ++ d 0%N
  else d 3%N ++ d 2%N ++ d 1%N ++ d 0%N.

Fixpoint serialize_pieces (address : list N) (pieceIndex : nat) (compress : option nat)
  (ignore0 : bool) : string :=
  match address with
  | [] => EmptyString
  | piece :: r =>
      if ignore0 && (piece =? 0)%N then serialize_pieces r (S pieceIndex) compress true
      else if match compress with Some i => (i =? pieceIndex)%nat | None => false end then
        (if (pieceIndex =? 0)%nat then "::" else ":") ++ serialize_pieces r (S pieceIndex) compress true
      else
        hex_piece piece ++ (if (pieceIndex =? 7)%nat then EmptyString else ":") ++
        serialize_pieces r (S pieceIndex) compress false
  end.

Definition ipv6_serializer (address : list N) : string :=
  serialize_pieces address 0 (find_compressed address 0 None 1 None 0) false.


(** Eight pieces of 16 bits. *)
Definition valid_address (address : list N) : Prop :=
  List.length address = 8 /\ Forall (fun v => (v < 65536)%N) address.

(** The hexadecimal digits [digits], most significant first, as text. *)
Definition render (digits : list N) : string :=
  fold_right (fun x s => String (hexLower x) s) EmptyString digits.

(** The host parser with [isOpaque] true. *)
Definition host_parser (input : string) : option string :=
  match input with
  | String c r =>
      if is_char "[" c then
        match unsnoc r with
        | Some (inner, last) =>
            if is_char "]" last then
              match ipv6_parser inner with
              | Some address => Some ("[" ++ ipv6_serializer address ++ "]")
              | None => None
              end
            else None
        | None => None
        end
      else opaque_host_parser input
  | EmptyString => opaque_host_parser input
  end.

(** Host state and port state, on the authority after its last [@]. *)
Definition host_and_port (hostport : string) : option (string * option N) :=
  match host_state hostport false EmptyString with
  | (hostText, Some portText) =>
      if hostText =? EmptyString then None
      else
        match host_parser hostText, port_state portText with
        | Some host, Some port => Some (host, port)
        | _, _ => None
        end
  | (hostText, None) =>
      match host_parser hostText with
      | Some host => Some (host, None)
      | None => None
      end
  end.

(** Authority state, host state and port state on the authority, the text
    between [//] and the next [/], [?] or [#]: user name, password, host and
    port.  The credentials are what is in front of the last [@], the
    password what follows their first [:]. *)
Definition authority_parts (buffer : string) : option (string * string * string * option N) :=
  let '(atSignSeen, userinfo, hostport) :=
    match split_last "@" buffer with
    | Some (userinfo, hostport) => (true, userinfo, hostport)
    | None => (false, EmptyString, buffer)
    end in
  if atSignSeen && (hostport =? EmptyString) then None
  else
    let (user, colon_password) := break_at (is_char ":") userinfo in
    let pass := match colon_password with String _ p => p | EmptyString => EmptyString end in
    match host_and_port hostport with
    | Some (host, port) =>
        Some (percent_encode userinfo_set user, percent_encode userinfo_set pass, host, port)
    | None => None
    end.

Definition authority_state (scheme s : string) : option URL :=
  let (buffer, remaining) := break_at isAuthorityEnd s in
  match authority_parts buffer with
  | Some (username, password, host, port) =>
      Some (path_start_state
              {| url_scheme := scheme; url_username := username; url_password := password;
                 url_host := Some host; url_port := port; url_path := ListPath [];
                 url_query := None; url_fragment := None |}
              remaining)
  | None => None
  end.

Section UrlParser.
Variable platform : UrlPlatform.

(** Relative state and relative slash state, for a base that has a list path
    and a scheme that is not special. *)
Definition relative_state (base : URL) (segments : list string) (s : string) : option URL :=
  let copy := with_fragment base None in
  let authority_of_base := with_query (with_path copy (ListPath [])) None in
  match s with
  | EmptyString => Some copy
  | String c r =>
      if is_char "/" c then
        match r with
        | String c' r' =>
            if is_char "/" c' then authority_state (url_scheme base) r'
            else Some (path_and_rest authority_of_base [] r)
        | EmptyString => Some (path_and_rest authority_of_base [] r)
        end
      else if is_char "?" c then Some (query_state copy r)
      else if is_char "#" c then Some (fragment_state copy r)
      else Some (path_and_rest (with_query copy None) (shorten segments) s)
  end.

Definition no_scheme_state (input : string) (base : option URL) : option URL :=
  match base with
  | None => None
  | Some b =>
      match url_path b with
      | OpaquePath text =>
          match input with
          | String c r =>
              if is_char "#" c
              then Some (fragment_state
                           (with_query (blank_url (url_scheme b) (OpaquePath text)) (url_query b)) r)
              else None
          | EmptyString => None
          end
      | ListPath segments =>
          if isSpecialScheme (url_scheme b) then special platform input base
          else relative_state b segments input
      end
  end.

(** The basic URL parser; [None] is failure. *)
Definition basic_url_parser (input : string) (base : option URL) : option URL :=
  let input := preprocess input in
  match scheme_start_state input with
  | Some (scheme, remaining) =>
      if isSpecialScheme scheme then special platform input base
      else
        match remaining with
        | String c r =>
            if is_char "/" c then
              match r with
              | String c' r' =>
                  if is_char "/" c' then authority_state scheme r'
                  else Some (path_and_rest (blank_url scheme (ListPath [])) [] r)
              | EmptyString => Some (path_and_rest (blank_url scheme (ListPath [])) [] r)
              end
            else
              let (text, rest) := opaque_path_state remaining EmptyString in
              Some (query_or_fragment (blank_url scheme (OpaquePath text)) rest)
        | EmptyString => Some (blank_url scheme (OpaquePath EmptyString))
        end
  | None => no_scheme_state input base
  end.

(** [new URL(input)] and [new URL(input, base)]: a base is given as a string
    (a URL object given as base is converted to its [href]) and parsed first;
    a failure throws a [TypeError]. *)
Definition URL_new (input : string) (base : option string) : outcome URL :=
  let parse input parsedBase :=
    match basic_url_parser input parsedBase with
    | Some u => Returned u
    | None => Thrown (Error "Invalid URL")
    end in
  match base with
  | None => parse input None
  | Some b =>
      match basic_url_parser b None with
      | Some parsedBase => parse input (Some parsedBase)
      | None => Thrown (Error "Invalid URL")
      end
  end.

End UrlParser.

Arguments URL_new : simpl never.
Arguments basic_url_parser : simpl never.

(** ** src/tools/schemaTools.ts *)

Module SchemaTools.

(** What the tools hand to [formatSuccessResponse]. *)
Record ColumnInfo : Type := {
  name : string;
  type : string;
  notnull : bool;
  default_value : JsValue;
  primary_key : bool
}.

Inductive Payload : Type :=
| Status (success : bool) (message : string)
| TableNames (names : list string)
| Columns (columns : list ColumnInfo).

Section Tools.
Context {W Response : Type}.
Variable db : DbLayer W.
Variable formatSuccessResponse : Payload -> Response.

Open Scope js_scope.

Definition createTable (dbId query : string) : M W Response :=
  try_catch
    (throw_if (negb (startsWith (toLowerCase (trim query)) "create table"))
       "Only CREATE TABLE statements are allowed" ;;
     dbExec db dbId query ;;
     ret (formatSuccessResponse (Status true "Table created successfully")))
    (fun error => throw (Error ("SQL Error: " ++ message error))).

Definition alterTable (dbId query : string) : M W Response :=
  try_catch
    (throw_if (negb (startsWith (toLowerCase (trim query)) "alter table"))
       "Only ALTER TABLE statements are allowed" ;;
     dbExec db dbId query ;;
     ret (formatSuccessResponse (Status true "Table altered successfully")))
    (fun error => throw (Error ("SQL Error: " ++ message error))).

Definition dropTable (dbId tableName : string) (confirm : bool) : M W Response :=
  try_catch
    (throw_if (negb (nonEmpty tableName)) "Table name is required" ;;
     if negb confirm then
       ret (formatSuccessResponse
              (Status false
                 "Safety confirmation required. Set confirm=true to proceed with dropping the table."))
     else
       query <- getListTablesQuery db dbId ;;
       tables <- dbAll db dbId query ;;
       let tableNames := map row_name tables in
       throw_if (negb (includes tableNames tableName))
         ("Table '" ++ tableName ++ "' does not exist") ;;
       dbExec db dbId ("DROP TABLE " ++ dquote ++ tableName ++ dquote) ;;
       ret (formatSuccessResponse
              (Status true ("Table '" ++ tableName ++ "' dropped successfully"))))
    (fun error => throw (Error ("Error dropping table: " ++ message error))).

Definition listTables (dbId : string) : M W Response :=
  try_catch
    (query <- getListTablesQuery db dbId ;;
     tables <- dbAll db dbId query ;;
     ret (formatSuccessResponse (TableNames (map row_name tables))))
    (fun error => throw (Error ("Error listing tables: " ++ message error))).

Definition describeColumn (col : Row) : ColumnInfo :=
  {| name := row_name col;
     type := row_type col;
     notnull := truthy (row_notnull col);
     default_value := row_dflt_value col;
     primary_key := truthy (row_pk col) |}.

Definition describeTable (dbId tableName : string) : M W Response :=
  try_catch
    (throw_if (negb (nonEmpty tableName)) "Table name is required" ;;
     query <- getListTablesQuery db dbId ;;
     tables <- dbAll db dbId query ;;
     let tableNames := map row_name tables in
     throw_if (negb (includes tableNames tableName))
       ("Table '" ++ tableName ++ "' does not exist") ;;
     descQuery <- getDescribeTableQuery db dbId (Some tableName) ;;
     columns <- dbAll db dbId descQuery ;;
     ret (formatSuccessResponse (Columns (map describeColumn columns))))
    (fun error => throw (Error ("Error describing table: " ++ message error))).

End Tools.

End SchemaTools.



(** ** The resource handlers (handleListResources, handleReadResource) *)

Module Resources.

Record Resource : Type := {
  uri : string;
  mimeType : string;
  name : string
}.

Record ListResult : Type := { resources : list Resource }.

Record ColumnSummary : Type := {
  column_name : string;
  data_type : string
}.

Record Content : Type := {
  content_uri : string;
  content_mimeType : string;
  text : string
}.

Record ReadResult : Type := { contents : list Content }.

Section Handlers.
Context {W : Type}.
Variable db : DbLayer W.
Variable platform : UrlPlatform.
(** [JSON.stringify(value, null, 2)] on the array of column summaries. *)
Variable JSON_stringify : list ColumnSummary -> string.

Open Scope js_scope.

(** The text handed to [new URL] for [resourceBaseUrl]. *)
Definition resourceBaseUrlText (dbInfo : DbInfo) : string :=
  if (db_type dbInfo =? "sqlite") && present (db_path dbInfo) then
    "sqlite:///" ++ text_of (db_path dbInfo)
  else if (db_type dbInfo =? "sqlserver") && present (db_server dbInfo)
          && present (db_database dbInfo) then
    "sqlserver://" ++ text_of (db_server dbInfo) ++ "/" ++ text_of (db_database dbInfo)
  else
    "db:///database".

(** The callback of [result.map] in [handleListResources]. *)
Definition resourceOfRow (SCHEMA_PATH : string) (resourceBaseUrl : URL) (row : Row) : outcome Resource :=
  match URL_new platform (row_name row ++ "/" ++ SCHEMA_PATH) (Some (href resourceBaseUrl)) with
  | Thrown e => Thrown e
  | Returned u =>
      Returned {| uri := href u;
                  mimeType := "application/json";
                  name := dquote ++ row_name row ++ dquote ++ " database schema" |}
  end.

Definition handleListResources (dbId : string) : M W ListResult :=
  try_catch
    (dbInfo <- getDatabaseMetadata db dbId ;;
     resourceBaseUrl <- lift (URL_new platform (resourceBaseUrlText dbInfo) None) ;;
     let SCHEMA_PATH := "schema" in
     query <- getListTablesQuery db dbId ;;
     result <- dbAll db dbId query ;;
     mapped <- lift (map_throwing (resourceOfRow SCHEMA_PATH resourceBaseUrl) result) ;;
     ret {| resources := mapped |})
    (fun error => throw (Error ("Error listing resources: " ++ message error))).

(** [schema !== SCHEMA_PATH], where [schema] is [undefined] or a string. *)
Definition differs (schema : option string) (SCHEMA_PATH : string) : bool :=
  match schema with
  | Some s => negb (s =? SCHEMA_PATH)
  | None => true
  end.

Definition summary (column : Row) : ColumnSummary :=
  {| column_name := row_name column; data_type := row_type column |}.

Definition handleReadResource (dbId uri : string) : M W ReadResult :=
  try_catch
    (resourceUrl <- lift (URL_new platform uri None) ;;
     let SCHEMA_PATH := "schema" in
     let pathComponents := split "/" (pathname resourceUrl) in
     let (schema, pathComponents) := pop pathComponents in
     let (tableName, pathComponents) := pop pathComponents in
     throw_if (differs schema SCHEMA_PATH) "Invalid resource URI" ;;
     query <- getDescribeTableQuery db dbId tableName ;;
     result <- dbAll db dbId query ;;
     ret {| contents :=
              [ {| content_uri := uri;
                   content_mimeType := "application/json";
                   text := JSON_stringify (map summary result) |} ] |})
    (fun error => throw (Error ("Error reading resource: " ++ message error))).

End Handlers.

End Resources.

(** ** Error wrapping

    [wraps pre m]: whenever a call that [m] made to the database layer threw,
    [m] throws an error whose message is [pre] followed by the message of
    the error of that call. *)
Definition wraps {W A : Type} (pre : string) (m : M W A) : Prop :=
  forall (w : W) (ev : Event) (e : JsError),
    In ev (events_of (run m w)) -> ev_thrown ev = Some e ->
    result_of (run m w) = Thrown (Error (pre ++ message e)).

(** [relays m], for the body of a [try]: [m] only adds to the trace, and
    when a call it made threw, it throws the error of that call. *)
Definition relays {W A : Type} (m : M W A) : Prop :=
  forall env : Env W,
    exists new : list Event,
      trace (snd (m env)) = (trace env ++ new)%list
      /\ forall ev e, In ev new -> ev_thrown ev = Some e -> fst (m env) = Thrown e.

(** ** Plain names

    Letters, digits, [_], [-] and [.]: characters the URL parser leaves as
    they are, wherever they stand.  A plain segment is a plain string that
    is not a dot segment. *)
Definition plain_char (c : ascii) : bool :=
  isAlpha c || isDigit c || is_char "_" c || is_char "-" c || is_char "." c.

Definition plain (s : string) : bool := str_all plain_char s.

Definition plain_segment (s : string) : bool :=
  plain s && negb (isSingleDot s) && negb (isDoubleDot s).

(** A URL with an authority that is only a host. *)
Definition host_url (scheme host : string) (segments : list string) : URL :=
  {| url_scheme := scheme; url_username := EmptyString; url_password := EmptyString;
     url_host := Some host; url_port := None; url_path := ListPath segments;
     url_query := None; url_fragment := None |}.

(** Classes of characters of a parsed URL: [path_char] in a path segment,
    [authority_char] in an authority, [userinfo_char] in a user name and a
    password, [host_char] in a host that is not an IPv6 literal, [ipv6_char]
    in an IPv6 address. *)
Definition path_char (c : ascii) : bool :=
  negb (isC0ControlOrSpace c) && negb (is_char "?" c) && negb (is_char "#" c).

Definition authority_char (c : ascii) : bool :=
  path_char c && negb (is_char "/" c).

Definition userinfo_char (c : ascii) : bool :=
  authority_char c && negb (is_char "@" c) && negb (is_char ":" c).

Definition host_char (c : ascii) : bool :=
  authority_char c && negb (isForbiddenHost c).

Definition ipv6_char (c : ascii) : bool :=
  isDigit c || between 97 102 c || is_char ":" c.

(** The hosts of a parsed URL whose scheme is not special. *)
Definition host_form (host : string) : Prop :=
  str_all host_char host = true
  \/ exists address,
       host = "[" ++ address ++ "]"
       /\ str_all ipv6_char address = true /\ ipv6_parser address <> None.

(** What the parser leaves in a URL with one of the three schemes: an
    authority without [/], [?] and [#] that the parser accepts again, and
    path segments without [?] and [#]. *)
Definition well_formed (u : URL) : Prop :=
  exists host segments,
    url_host u = Some host /\ url_path u = ListPath segments
    /\ str_all authority_char
         (serialize_authority (url_username u) (url_password u) host (url_port u)) = true
    /\ authority_parts
         (serialize_authority (url_username u) (url_password u) host (url_port u)) <> None
    /\ Forall (fun s => str_all path_char s = true) segments.

(** The URL of a table against a base: the path of the base with its last
    segment replaced, no query and no fragment. *)
Definition table_url (base : URL) (segments : list string) (table : string) : URL :=
  with_path (with_query (with_fragment base None) None)
    (ListPath (shorten segments ++ [table; "schema"])).

(** The schemes [handleListResources] builds. *)
Definition known_scheme (scheme : string) : Prop :=
  scheme = "sqlite" \/ scheme = "sqlserver" \/ scheme = "db".

(** What the preprocessing leaves of the end of an input whose beginning it
    leaves alone. *)
Definition clean_tail (s : string) : string :=
  str_filter (fun c => negb (isTabOrNewline c)) (dropEnd isC0ControlOrSpace s).

(** ** The shapes of the metadata

    The file-based shape is type ["sqlite"] with a path that is not empty, the
    client-server shape type ["sqlserver"] with a server and a database that
    are not empty: the two tests of [handleListResources]. *)
Definition fileBased (info : DbInfo) : bool :=
  (db_type info =? "sqlite") && present (db_path info).

Definition clientServer (info : DbInfo) : bool :=
  (db_type info =? "sqlserver") && present (db_server info) && present (db_database info).

(** [resource_root info root dirs]: with metadata [info] the URI of the
    schema of a table is [root], the segments [dirs], the table and "schema".
    The path of a SQLite database and the name of a SQL Server database are
    plain segments joined by [/], of which the last is replaced. *)
Inductive resource_root : DbInfo -> string -> list string -> Prop :=
| root_sqlite (info : DbInfo) (dirs : list string) (file : string) :
    db_type info = "sqlite" ->
    db_path info = Some (concat "/" (dirs ++ [file])) ->
    concat "/" (dirs ++ [file]) <> EmptyString ->
    Forall (fun s => plain_segment s = true) (dirs ++ [file]) ->
    resource_root info "sqlite:///" dirs
| root_sqlserver (info : DbInfo) (server : string) (dirs : list string) (database : string) :
    db_type info = "sqlserver" ->
    db_server info = Some server -> server <> EmptyString -> plain server = true ->
    db_database info = Some (concat "/" (dirs ++ [database])) ->
    concat "/" (dirs ++ [database]) <> EmptyString ->
    Forall (fun s => plain_segment s = true) (dirs ++ [database]) ->
    resource_root info ("sqlserver://" ++ server ++ "/") dirs
| root_generic (info : DbInfo) :
    fileBased info = false -> clientServer info = false ->
    resource_root info "db:///" [].

Definition schema_resource (root : string) (dirs : list string) (table : string)
  : Resources.Resource :=
  {| Resources.uri := root ++ concat "/" (dirs ++ [table; "schema"]);
     Resources.mimeType := "application/json";
     Resources.name := dquote ++ table ++ dquote ++ " database schema" |}.

(** The URL of ["db:///database"]. *)
Definition generic_base : URL :=
  {| url_scheme := "db"; url_username := EmptyString; url_password := EmptyString;
     url_host := Some EmptyString; url_port := None; url_path := ListPath ["database"];
     url_query := None; url_fragment := None |}.


(** ** Test doubles

    A database layer for concrete runs: a database with the given metadata,
    tables and columns.  Its state is the list of the statements executed;
    [dbExec] throws [exec_error] when one is given. *)

Definition list_tables_query : string := "SELECT name FROM sqlite_master WHERE type='table'".

Definition double (info : DbInfo) (tables columns : list Row) (exec_error : option JsError)
  : DbLayer (list string) :=
  {| ext_getDatabaseMetadata := fun _ w => (Returned info, w);
     ext_getListTablesQuery := fun _ w => (Returned list_tables_query, w);
     ext_getDescribeTableQuery := fun _ tableName w =>
       (Returned ("PRAGMA table_info(" ++ text_of tableName ++ ")"), w);
     ext_dbAll := fun _ query w =>
       (Returned (if query =? list_tables_query then tables else columns), w);
     ext_dbExec := fun _ query w =>
       match exec_error with
       | Some e => (Thrown e, w)
       | None => (Returned tt, (w ++ [query])%list)
       end |}.

Definition table_row (table : string) : Row :=
  {| row_name := table; row_type := "table"; row_notnull := JsUndefined;
     row_dflt_value := JsUndefined; row_pk := JsUndefined |}.

Definition id_column : Row :=
  {| row_name := "id"; row_type := "INTEGER"; row_notnull := JsNumber 1;
     row_dflt_value := JsNull; row_pk := JsNumber 1 |}.

Definition email_column : Row :=
  {| row_name := "email"; row_type := "TEXT"; row_notnull := JsNumber 0;
     row_dflt_value := JsString "none"; row_pk := JsNumber 0 |}.

Definition sqlite_info (path : string) : DbInfo :=
  {| db_type := "sqlite"; db_path := Some path; db_server := None; db_database := None |}.

Definition sqlserver_info (server database : string) : DbInfo :=
  {| db_type := "sqlserver"; db_path := None;
     db_server := Some server; db_database := Some database |}.

Definition shop_db : DbLayer (list string) :=
  double (sqlite_info "shop.db") [table_row "users"; table_row "orders"]
    [id_column; email_column] None.

Definition locked_db : DbLayer (list string) :=
  double (sqlite_info "shop.db") [table_row "users"; table_row "orders"]
    [id_column; email_column] (Some (Error "database is locked")).

(** A SQL Server database reached at the loopback address, with credentials
    and a port in the server name. *)
Definition loopback_db : DbLayer (list string) :=
  double (sqlserver_info "sa:secret@[::1]:1433" "shop")
    [table_row "orders"; table_row "users"] [id_column; email_column] None.

(** A URL platform for concrete runs that accepts no special scheme. *)
Definition plain_platform : UrlPlatform :=
  {| special := fun _ _ => None |}.

(** ** Vocabulary of the further properties *)

(** The calls that execute a statement. *)
Definition is_exec (c : Call) : bool :=
  match c with
  | DbExec _ _ => true
  | _ => false
  end.

(** [only_calls P m]: [m] only adds to the trace, and only calls that
    satisfy [P]. *)
Definition only_calls {W A : Type} (P : Call -> Prop) (m : M W A) : Prop :=
  forall env : Env W,
    exists new : list Event,
      trace (snd (m env)) = (trace env ++ new)%list
      /\ Forall (fun ev => P (ev_call ev)) new.

(** The calls of [events] all returned. *)
Definition quiet (events : list Event) : Prop :=
  Forall (fun ev => ev_thrown ev = None) events.

(** [stops m]: of the calls [m] adds to the trace only the last one may have
    thrown, and none has when [m] returns. *)
Definition stops {W A : Type} (m : M W A) : Prop :=
  forall env : Env W,
    exists new : list Event,
      trace (snd (m env)) = (trace env ++ new)%list
      /\ quiet (removelast new)
      /\ (forall a, fst (m env) = Returned a -> quiet new).

(** [fail_fast m]: after a call that threw, [m] makes no other call. *)
Definition fail_fast {W A : Type} (m : M W A) : Prop :=
  forall w : W, quiet (removelast (events_of (run m w))).

(** The database a call addresses. *)
Definition call_db (c : Call) : string :=
  match c with
  | GetDatabaseMetadata dbId => dbId
  | GetListTablesQuery dbId => dbId
  | GetDescribeTableQuery dbId _ => dbId
  | DbAll dbId _ => dbId
  | DbExec dbId _ => dbId
  end.

(** A character the path state puts into the segment it is reading,
    percent-encoded or not. *)
Definition segment_char (c : ascii) : bool :=
  negb (is_char "/" c) && negb (is_char "?" c) && negb (is_char "#" c).

(** A character the path state copies as it is into a segment. *)
Definition stable_char (c : ascii) : bool :=
  negb (path_set c) && negb (is_char "/" c).

(** [prefixed pre m]: every error [m] throws has a message that starts with
    [pre]. *)
Definition prefixed {W A : Type} (pre : string) (m : M W A) : Prop :=
  forall (w : W) (e : JsError),
    result_of (run m w) = Thrown e -> startsWith (message e) pre = true.

(** A character of a table name that leaves [<name>/schema] a relative
    path: no [/], [?], [#] and [:], no tab and no newline. *)
Definition name_char (c : ascii) : bool :=
  negb (is_char "/" c) && negb (is_char "?" c) && negb (is_char "#" c)
  && negb (is_char ":" c) && negb (isTabOrNewline c).

(** A table name that [handleListResources] turns into one path segment:
    not empty, made of [name_char]s, not starting with a C0 control or a
    space, and not a dot segment once percent-encoded. *)
Definition listable (table : string) : Prop :=
  str_all name_char table = true
  /\ (exists c r, table = String c r /\ isC0ControlOrSpace c = false)
  /\ isSingleDot (percent_encode path_set table) = false
  /\ isDoubleDot (percent_encode path_set table) = false.

(** Characters between which the URL parser finds no end of the host and
    that no host may have: NUL, the space, [<], [>], the backslash, [^] and
    [|]. *)
Definition unusable_in_host (c : ascii) : bool :=
  has_code [0; 32; 60; 62; 92; 94; 124]%N c.



(** A text without the caret.  The URL Standard has the caret in the path
    percent-encode set; platforms that follow an earlier text of it leave it
    as it is. *)
Definition caret_free (s : string) : bool :=
  str_all (fun c => negb (is_char "^" c)) s.

(** A database whose tables include one with a space in its name. *)
Definition notes_db : DbLayer (list string) :=
  double (sqlite_info "notes.db") [table_row "users"; table_row "meeting notes"]
    [id_column; email_column] None.

(** * Properties *)

(** ** Strings *)

Lemma nonEmpty_true (s : string) : s <> EmptyString -> nonEmpty s = true.
Proof.
  intros H. unfold nonEmpty. destruct (String.eqb_spec s EmptyString); simpl; congruence.
Qed.

Lemma includes_In (l : list string) (x : string) : includes l x = true <-> In x l.
Proof.
  unfold includes. rewrite existsb_exists. split.
  - intros [y [Hy E]]. apply String.eqb_eq in E. now subst.
  - intros H. exists x. split; [assumption | apply String.eqb_refl].
Qed.

Lemma includes_not_In (l : list string) (x : string) : ~ In x l -> includes l x = false.
Proof.
  intros H. destruct (includes l x) eqn:E; [| reflexivity].
  apply includes_In in E. contradiction.
Qed.

Lemma dropStart_app (p : ascii -> bool) (ws s : string) :
  str_all p ws = true -> dropStart p (ws ++ s) = dropStart p s.
Proof.
  induction ws as [| c ws IH]; simpl; intros H; [reflexivity |].
  apply andb_prop in H. destruct H as [Hc Hws]. rewrite Hc. auto.
Qed.

Lemma dropEnd_all (p : ascii -> bool) (ws : string) :
  str_all p ws = true -> dropEnd p ws = EmptyString.
Proof.
  induction ws as [| c ws IH]; simpl; intros H; [reflexivity |].
  apply andb_prop in H. destruct H as [Hc Hws]. rewrite (IH Hws), Hc. reflexivity.
Qed.

Lemma dropEnd_app (p : ascii -> bool) (s ws : string) :
  str_all p ws = true -> dropEnd p (s ++ ws) = dropEnd p s.
Proof.
  intros H. induction s as [| c s IH]; simpl.
  - now apply dropEnd_all.
  - now rewrite IH.
Qed.

Lemma trim_padding (ws1 ws2 s : string) :
  str_all isWhiteSpace ws1 = true -> str_all isWhiteSpace ws2 = true ->
  trim (ws1 ++ s ++ ws2) = trim s.
Proof.
  intros H1 H2. unfold trim. rewrite (dropStart_app _ _ _ H1).
  induction s as [| c s IH]; simpl.
  - rewrite dropEnd_all; [reflexivity |].
    clear H1. induction ws2 as [| d ws2 IH2]; simpl in *; [reflexivity |].
    apply andb_prop in H2. destruct H2 as [Hd Hws]. rewrite Hd. auto.
  - destruct (isWhiteSpace c); [exact IH |].
    now rewrite <- (dropEnd_app isWhiteSpace (String c s) ws2 H2).
Qed.

Lemma isWhiteSpace_lowerChar (c : ascii) : isWhiteSpace (lowerChar c) = isWhiteSpace c.
Proof.
  destruct c as [[] [] [] [] [] [] [] []]; reflexivity.
Qed.

Lemma toLowerCase_dropStart (s : string) :
  toLowerCase (dropStart isWhiteSpace s) = dropStart isWhiteSpace (toLowerCase s).
Proof.
  induction s as [| c s IH]; simpl; [reflexivity |].
  rewrite isWhiteSpace_lowerChar. destruct (isWhiteSpace c); [exact IH | reflexivity].
Qed.

Lemma toLowerCase_dropEnd (s : string) :
  toLowerCase (dropEnd isWhiteSpace s) = dropEnd isWhiteSpace (toLowerCase s).
Proof.
  induction s as [| c s IH]; simpl; [reflexivity |].
  rewrite <- IH, isWhiteSpace_lowerChar.
  destruct (dropEnd isWhiteSpace s); simpl; [destruct (isWhiteSpace c) |]; reflexivity.
Qed.

Lemma toLowerCase_trim (s : string) : toLowerCase (trim s) = trim (toLowerCase s).
Proof.
  unfold trim. now rewrite toLowerCase_dropEnd, toLowerCase_dropStart.
Qed.

(** ** The schema tools *)

Ltac js_unfold :=
  unfold run, result_of, calls_of, events_of,
    SchemaTools.createTable, SchemaTools.alterTable, SchemaTools.dropTable,
    SchemaTools.listTables, SchemaTools.describeTable,
    getDatabaseMetadata, getListTablesQuery, getDescribeTableQuery, dbAll, dbExec,
    try_catch, bind, throw_if, perform, throw, ret, lift; simpl.

Section ToolProperties.
Context {W Response : Type}.
Variable db : DbLayer W.
Variable formatSuccessResponse : SchemaTools.Payload -> Response.


(** What createTable and alterTable do, by the prefix test. *)
Lemma guarded_statement_run (pre refusal done : string) (dbId query : string) (w : W) :
  let body : M W Response :=
    try_catch
      (bind (throw_if (negb (startsWith (toLowerCase (trim query)) pre)) refusal)
         (fun _ => bind (dbExec db dbId query)
                     (fun _ => ret (formatSuccessResponse (SchemaTools.Status true done)))))
      (fun error => throw (Error ("SQL Error: " ++ message error))) in
  (startsWith (toLowerCase (trim query)) pre = false ->
     run body w = (Thrown (Error ("SQL Error: " ++ refusal)), {| world := w; trace := [] |}))
  /\ (startsWith (toLowerCase (trim query)) pre = true ->
        calls_of (run body w) = [DbExec dbId query]
        /\ (forall w', ext_dbExec db dbId query w = (Returned tt, w') ->
              result_of (run body w)
              = Returned (formatSuccessResponse (SchemaTools.Status true done)))).
Proof.
  intros body. subst body. split; intros H; js_unfold; rewrite H; simpl.
  - reflexivity.
  - split.
    + destruct (ext_dbExec db dbId query w) as [[[] | e] w']; reflexivity.
    + intros w' E. rewrite E. reflexivity.
Qed.

Lemma accepts_padding (pre ws1 ws2 query : string) :
  str_all isWhiteSpace ws1 = true -> str_all isWhiteSpace ws2 = true ->
  startsWith (toLowerCase (trim (ws1 ++ query ++ ws2))) pre
  = startsWith (toLowerCase (trim query)) pre.
Proof.
  intros H1 H2. now rewrite trim_padding.
Qed.

Lemma accepts_case (pre query query' : string) :
  toLowerCase query' = toLowerCase query ->
  startsWith (toLowerCase (trim query')) pre = startsWith (toLowerCase (trim query)) pre.
Proof.
  intros H. now rewrite !toLowerCase_trim, H.
Qed.

(** C3. createTable (alterTable) on a query whose trimmed, lower-cased text
    does not start with "create table" ("alter table") throws the validation
    message, wrapped as an SQL error, and calls nothing; on a query whose
    trimmed, lower-cased text starts with the prefix it calls dbExec once,
    with the query as given, and returns the success envelope when dbExec
    returns.  White space around the query and the case of its letters do
    not change whether it is accepted. *)
Theorem createTable_alterTable_guard (dbId query : string) (w : W) :
  (startsWith (toLowerCase (trim query)) "create table" = false ->
     run (SchemaTools.createTable db formatSuccessResponse dbId query) w
     = (Thrown (Error "SQL Error: Only CREATE TABLE statements are allowed"),
        {| world := w; trace := [] |}))
  /\ (startsWith (toLowerCase (trim query)) "create table" = true ->
        calls_of (run (SchemaTools.createTable db formatSuccessResponse dbId query) w) = [DbExec dbId query]
        /\ (forall w', ext_dbExec db dbId query w = (Returned tt, w') ->
              result_of (run (SchemaTools.createTable db formatSuccessResponse dbId query) w)
              = Returned (formatSuccessResponse
                            (SchemaTools.Status true "Table created successfully"))))
  /\ (startsWith (toLowerCase (trim query)) "alter table" = false ->
        run (SchemaTools.alterTable db formatSuccessResponse dbId query) w
        = (Thrown (Error "SQL Error: Only ALTER TABLE statements are allowed"),
           {| world := w; trace := [] |}))
  /\ (startsWith (toLowerCase (trim query)) "alter table" = true ->
        calls_of (run (SchemaTools.alterTable db formatSuccessResponse dbId query) w) = [DbExec dbId query]
        /\ (forall w', ext_dbExec db dbId query w = (Returned tt, w') ->
              result_of (run (SchemaTools.alterTable db formatSuccessResponse dbId query) w)
              = Returned (formatSuccessResponse
                            (SchemaTools.Status true "Table altered successfully"))))
  /\ (forall pre ws1 ws2,
        str_all isWhiteSpace ws1 = true -> str_all isWhiteSpace ws2 = true ->
        startsWith (toLowerCase (trim (ws1 ++ query ++ ws2))) pre
        = startsWith (toLowerCase (trim query)) pre)
  /\ (forall pre query',
        toLowerCase query' = toLowerCase query ->
        startsWith (toLowerCase (trim query')) pre
        = startsWith (toLowerCase (trim query)) pre).
Proof.
  pose proof (guarded_statement_run "create table"
                "Only CREATE TABLE statements are allowed" "Table created successfully"
                dbId query w) as [C1 C2].
  pose proof (guarded_statement_run "alter table"
                "Only ALTER TABLE statements are allowed" "Table altered successfully"
                dbId query w) as [A1 A2].
  repeat split; try assumption.
  - now apply C2.
  - now apply C2.
  - now apply A2.
  - now apply A2.
  - intros pre ws1 ws2. apply accepts_padding.
  - intros pre query'. apply accepts_case.
Qed.

(** C4. dropTable on a table name that is not empty, with confirm false,
    returns the envelope with success false and the safety confirmation
    message; it does not throw, and it makes no call to the database layer:
    the trace is empty and the state of the database is the one it started
    from. *)
Theorem dropTable_unconfirmed (dbId tableName : string) (w : W) :
  tableName <> EmptyString ->
  run (SchemaTools.dropTable db formatSuccessResponse dbId tableName false) w
  = (Returned (formatSuccessResponse
                 (SchemaTools.Status false
                    "Safety confirmation required. Set confirm=true to proceed with dropping the table.")),
     {| world := w; trace := [] |}).
Proof.
  intros H. js_unfold. rewrite (nonEmpty_true _ H). reflexivity.
Qed.

(** C10. dropTable on the empty table name throws "Error dropping table:
    Table name is required" whatever confirm is, also when it is false: the
    test of the table name comes before the safety gate, so it does not
    return the safety confirmation envelope; and it makes no call to the
    database layer. *)
Theorem dropTable_empty_name (dbId : string) (confirm : bool) (w : W) :
  run (SchemaTools.dropTable db formatSuccessResponse dbId EmptyString confirm) w
  = (Thrown (Error "Error dropping table: Table name is required"),
     {| world := w; trace := [] |})
  /\ forall envelope,
       result_of (run (SchemaTools.dropTable db formatSuccessResponse dbId EmptyString false) w)
       <> Returned envelope.
Proof.
  split.
  - js_unfold. reflexivity.
  - intros envelope. js_unfold. discriminate.
Qed.

(** C5. When the table name is not empty and is not among the names the
    table listing returns, dropTable with confirm true and describeTable
    throw an error whose message contains the table name, after the two
    calls of the listing and nothing else: no dbExec and no
    getDescribeTableQuery. *)
Theorem missing_table_rejected (dbId tableName query : string) (tables : list Row) (w w1 w2 : W) :
  tableName <> EmptyString ->
  ext_getListTablesQuery db dbId w = (Returned query, w1) ->
  ext_dbAll db dbId query w1 = (Returned tables, w2) ->
  ~ In tableName (map row_name tables) ->
  run (SchemaTools.dropTable db formatSuccessResponse dbId tableName true) w
  = (Thrown (Error ("Error dropping table: " ++ "Table '" ++ tableName ++ "' does not exist")),
     {| world := w2;
        trace := [event (GetListTablesQuery dbId); event (DbAll dbId query)] |})
  /\ run (SchemaTools.describeTable db formatSuccessResponse dbId tableName) w
     = (Thrown (Error ("Error describing table: " ++ "Table '" ++ tableName ++ "' does not exist")),
        {| world := w2;
           trace := [event (GetListTablesQuery dbId); event (DbAll dbId query)] |}).
Proof.
  intros Hn Hq Ht Hin. apply includes_not_In in Hin.
  split; js_unfold; rewrite (nonEmpty_true _ Hn); simpl; rewrite Hq; simpl;
    rewrite Ht; simpl; rewrite Hin; reflexivity.
Qed.

(** C7. describeTable on an existing table returns, for the rows the
    describe query yields, the records with the same name and type, notnull
    and primary_key the truthiness of the flags notnull and pk, and
    default_value the value of dflt_value, in the order of the rows. *)
Theorem describeTable_columns
  (dbId tableName query descQuery : string) (tables columns : list Row) (w w1 w2 w3 w4 : W) :
  tableName <> EmptyString ->
  ext_getListTablesQuery db dbId w = (Returned query, w1) ->
  ext_dbAll db dbId query w1 = (Returned tables, w2) ->
  In tableName (map row_name tables) ->
  ext_getDescribeTableQuery db dbId (Some tableName) w2 = (Returned descQuery, w3) ->
  ext_dbAll db dbId descQuery w3 = (Returned columns, w4) ->
  result_of (run (SchemaTools.describeTable db formatSuccessResponse dbId tableName) w)
  = Returned (formatSuccessResponse (SchemaTools.Columns (map SchemaTools.describeColumn columns)))
  /\ (forall i col,
        nth_error columns i = Some col ->
        nth_error (map SchemaTools.describeColumn columns) i
        = Some {| SchemaTools.name := row_name col;
                  SchemaTools.type := row_type col;
                  SchemaTools.notnull := truthy (row_notnull col);
                  SchemaTools.default_value := row_dflt_value col;
                  SchemaTools.primary_key := truthy (row_pk col) |})
  /\ SchemaTools.describeColumn
       {| row_name := "id"; row_type := "INTEGER"; row_notnull := JsNumber 1;
          row_dflt_value := JsNull; row_pk := JsNumber 1 |}
     = {| SchemaTools.name := "id"; SchemaTools.type := "INTEGER";
          SchemaTools.notnull := true; SchemaTools.default_value := JsNull;
          SchemaTools.primary_key := true |}
  /\ truthy (JsNumber 0) = false /\ truthy (JsNumber 1) = true.
Proof.
  intros Hn Hq Ht Hin Hd Hc. apply includes_In in Hin.
  repeat split.
  - js_unfold. rewrite (nonEmpty_true _ Hn). simpl. rewrite Hq. simpl.
    rewrite Ht. simpl. rewrite Hin. simpl. rewrite Hd. simpl. rewrite Hc. reflexivity.
  - intros i col Hi. rewrite nth_error_map, Hi. reflexivity.
Qed.

End ToolProperties.

Lemma createTable_alterTable_guard_witness :
  calls_of (run (SchemaTools.createTable shop_db (fun p => p) "shop"
                   "  Create Table t (id INTEGER) ") [])
  = [DbExec "shop" "  Create Table t (id INTEGER) "]
  /\ result_of (run (SchemaTools.alterTable shop_db (fun p => p) "shop" "DROP TABLE users") [])
     = Thrown (Error "SQL Error: Only ALTER TABLE statements are allowed").
Proof.
  split.
  - apply (createTable_alterTable_guard shop_db (fun p => p) "shop"
             "  Create Table t (id INTEGER) " []).
    reflexivity.
  - pose proof (createTable_alterTable_guard shop_db (fun p => p) "shop"
                  "DROP TABLE users" []) as (_ & _ & H & _).
    rewrite H; reflexivity.
Defined.

Lemma dropTable_unconfirmed_witness :
  run (SchemaTools.dropTable shop_db (fun p => p) "shop" "users" false) []
  = (Returned (SchemaTools.Status false
                 "Safety confirmation required. Set confirm=true to proceed with dropping the table."),
     {| world := []; trace := [] |}).
Proof.
  apply (dropTable_unconfirmed shop_db (fun p => p) "shop" "users" []). discriminate.
Defined.

Lemma missing_table_rejected_witness :
  run (SchemaTools.dropTable shop_db (fun p => p) "shop" "invoices" true) []
  = (Thrown (Error "Error dropping table: Table 'invoices' does not exist"),
     {| world := [];
        trace := [event (GetListTablesQuery "shop"); event (DbAll "shop" list_tables_query)] |}).
Proof.
  apply (missing_table_rejected shop_db (fun p => p) "shop" "invoices" list_tables_query
           [table_row "users"; table_row "orders"] [] [] []).
  - discriminate.
  - reflexivity.
  - reflexivity.
  - simpl. intros [H | [H | []]]; discriminate.
Defined.

Lemma describeTable_columns_witness :
  result_of (run (SchemaTools.describeTable shop_db (fun p => p) "shop" "users") [])
  = Returned (SchemaTools.Columns
                [ {| SchemaTools.name := "id"; SchemaTools.type := "INTEGER";
                     SchemaTools.notnull := true; SchemaTools.default_value := JsNull;
                     SchemaTools.primary_key := true |};
                  {| SchemaTools.name := "email"; SchemaTools.type := "TEXT";
                     SchemaTools.notnull := false;
                     SchemaTools.default_value := JsString "none";
                     SchemaTools.primary_key := false |} ]).
Proof.
  apply (describeTable_columns shop_db (fun p => p) "shop" "users" list_tables_query
           "PRAGMA table_info(users)" [table_row "users"; table_row "orders"]
           [id_column; email_column] [] [] [] [] []).
  - discriminate.
  - reflexivity.
  - reflexivity.
  - simpl. left. reflexivity.
  - reflexivity.
  - reflexivity.
Defined.

(** ** Error wrapping *)

Section Relays.
Context {W : Type}.

Lemma relays_ret {A : Type} (a : A) : relays (@ret W A a).
Proof.
  intros env. exists []. simpl. rewrite app_nil_r. split; [reflexivity | intros ev e []].
Qed.

Lemma relays_throw {A : Type} (e : JsError) : relays (@throw W A e).
Proof.
  intros env. exists []. simpl. rewrite app_nil_r. split; [reflexivity | intros ev e' []].
Qed.

Lemma relays_lift {A : Type} (o : outcome A) : relays (@lift W A o).
Proof.
  intros env. exists []. simpl. rewrite app_nil_r. split; [reflexivity | intros ev e' []].
Qed.

Lemma relays_throw_if (cond : bool) (msg : string) : relays (@throw_if W cond msg).
Proof.
  destruct cond; [apply relays_throw | apply relays_ret].
Qed.

Lemma relays_perform {A : Type} (c : Call) (f : W -> outcome A * W) : relays (perform c f).
Proof.
  intros env. unfold perform. destruct (f (world env)) as [o w] eqn:E.
  exists [ {| ev_call := c; ev_thrown := thrown_of o |} ]. simpl. split; [reflexivity |].
  intros ev e [<- | []]. simpl. destruct o; simpl; congruence.
Qed.

Lemma relays_bind {A B : Type} (m : M W A) (f : A -> M W B) :
  relays m -> (forall a, relays (f a)) -> relays (bind m f).
Proof.
  intros Hm Hf env. unfold bind.
  destruct (Hm env) as [new1 [T1 F1]].
  destruct (m env) as [[a | e0] env1]; simpl in *.
  - destruct (Hf a env1) as [new2 [T2 F2]].
    exists (new1 ++ new2)%list. split.
    + rewrite T2, T1. now rewrite app_assoc.
    + intros ev e Hin He. apply in_app_or in Hin. destruct Hin as [Hin | Hin].
      * specialize (F1 ev e Hin He). discriminate.
      * now apply (F2 ev e).
  - exists new1. split; [exact T1 |].
    intros ev e Hin He. specialize (F1 ev e Hin He). now inversion F1.
Qed.

Lemma relays_if {A : Type} (cond : bool) (m1 m2 : M W A) :
  relays m1 -> relays m2 -> relays (if cond then m1 else m2).
Proof.
  destruct cond; auto.
Qed.

Lemma wraps_try_catch {A : Type} (pre : string) (body : M W A) :
  relays body ->
  wraps pre (try_catch body (fun error => throw (Error (pre ++ message error)))).
Proof.
  intros Hb w ev e Hin He.
  unfold events_of, result_of, run, try_catch in *.
  destruct (Hb {| world := w; trace := [] |}) as [new [T F]].
  destruct (body {| world := w; trace := [] |}) as [[a | e0] env1]; simpl in *.
  - rewrite T in Hin. specialize (F ev e Hin He). discriminate.
  - rewrite T in Hin. specialize (F ev e Hin He). now inversion F.
Qed.

End Relays.

Create HintDb relays.
#[export] Hint Resolve relays_ret relays_throw relays_lift relays_throw_if
  relays_perform relays_bind relays_if : relays.

Ltac relays_body :=
  apply wraps_try_catch;
  unfold getDatabaseMetadata, getListTablesQuery, getDescribeTableQuery, dbAll, dbExec;
  repeat (first [ apply relays_bind; [| intros ? ] | apply relays_if
                | match goal with |- relays (let (_, _) := ?p in _) => destruct p end
                | solve [ auto with relays ] ]).

(** C8. Each of the five tools and the two resource handlers, when a call it
    made to the database layer threw, throws an error whose message is its
    own prefix followed by the message of the error of that call. *)
Theorem failures_wrapped {W Response : Type} (db : DbLayer W)
  (formatSuccessResponse : SchemaTools.Payload -> Response)
  (platform : UrlPlatform) (JSON_stringify : list Resources.ColumnSummary -> string)
  (dbId query tableName uri : string) (confirm : bool) :
  wraps "SQL Error: " (SchemaTools.createTable db formatSuccessResponse dbId query)
  /\ wraps "SQL Error: " (SchemaTools.alterTable db formatSuccessResponse dbId query)
  /\ wraps "Error dropping table: "
       (SchemaTools.dropTable db formatSuccessResponse dbId tableName confirm)
  /\ wraps "Error listing tables: " (SchemaTools.listTables db formatSuccessResponse dbId)
  /\ wraps "Error describing table: "
       (SchemaTools.describeTable db formatSuccessResponse dbId tableName)
  /\ wraps "Error listing resources: " (Resources.handleListResources db platform dbId)
  /\ wraps "Error reading resource: "
       (Resources.handleReadResource db platform JSON_stringify dbId uri).
Proof.
  repeat split.
  - relays_body.
  - relays_body.
  - relays_body.
  - relays_body.
  - relays_body.
  - relays_body.
  - relays_body.
Qed.

Lemma failures_wrapped_witness :
  result_of (run (SchemaTools.createTable locked_db (fun p => p) "shop" "CREATE TABLE t (a)") [])
  = Thrown (Error "SQL Error: database is locked").
Proof.
  pose proof (failures_wrapped locked_db (fun p => p) plain_platform (fun _ => EmptyString)
                "shop" "CREATE TABLE t (a)" "t" "db:///t/schema" true) as [H _].
  apply (H [] {| ev_call := DbExec "shop" "CREATE TABLE t (a)";
                 ev_thrown := Some (Error "database is locked") |}
           (Error "database is locked")).
  - simpl. left. reflexivity.
  - reflexivity.
Defined.

(** ** The resource handlers *)

Ltac res_unfold :=
  unfold run, result_of, calls_of, events_of,
    Resources.handleListResources, Resources.handleReadResource,
    getDatabaseMetadata, getListTablesQuery, getDescribeTableQuery, dbAll, dbExec,
    try_catch, bind, throw_if, perform, throw, ret, lift; simpl.

Section ReadResource.
Context {W : Type}.
Variable db : DbLayer W.
Variable platform : UrlPlatform.
Variable JSON_stringify : list Resources.ColumnSummary -> string.

(** handleReadResource on a URI that parses: when the last segment of the
    path is not "schema" it throws "Invalid resource URI", wrapped, before any
    call; when it is, the first call is getDescribeTableQuery with what the
    second pop returned. *)
Lemma handleReadResource_guard (dbId uri : string) (u : URL) (w : W) :
  URL_new platform uri None = Returned u ->
  let schema := fst (pop (split "/" (pathname u))) in
  let tableName := fst (pop (snd (pop (split "/" (pathname u))))) in
  (Resources.differs schema "schema" = true ->
     run (Resources.handleReadResource db platform JSON_stringify dbId uri) w
     = (Thrown (Error "Error reading resource: Invalid resource URI"),
        {| world := w; trace := [] |}))
  /\ (Resources.differs schema "schema" = false ->
        hd_error (calls_of (run (Resources.handleReadResource db platform JSON_stringify dbId uri) w))
        = Some (GetDescribeTableQuery dbId tableName)).
Proof.
  intros Hu schema tableName. subst schema tableName.
  split; intros Hd; res_unfold; rewrite Hu; simpl;
    destruct (pop (split "/" (pathname u))) as [schema rest]; simpl in *;
    destruct (pop rest) as [tableName rest']; simpl in *; rewrite Hd; simpl.
  - reflexivity.
  - destruct (ext_getDescribeTableQuery db dbId tableName w) as [[q | e] w1]; simpl;
      [| reflexivity].
    destruct (ext_dbAll db dbId q w1) as [[rows | e] w2]; reflexivity.
Qed.

(** C1, at the URI "db:schema", whose path is the single segment "schema":
    handleReadResource does not reject it; it goes on to ask for the describe
    query, with [undefined] as table name. *)
Theorem handleReadResource_schema_without_table (dbId : string) (w : W) :
  hd_error (calls_of (run (Resources.handleReadResource db platform JSON_stringify dbId
                             "db:schema") w))
  = Some (GetDescribeTableQuery dbId None).
Proof.
  exact (proj2 (handleReadResource_guard dbId "db:schema"
                  (blank_url "db" (OpaquePath "schema")) w eq_refl) eq_refl).
Qed.

(** The same at "db:///schema", whose path is "/schema": the table name is
    the empty string. *)
Lemma handleReadResource_schema_with_empty_table (dbId : string) (w : W) :
  hd_error (calls_of (run (Resources.handleReadResource db platform JSON_stringify dbId
                             "db:///schema") w))
  = Some (GetDescribeTableQuery dbId (Some EmptyString)).
Proof.
  res_unfold. change (URL_new platform "db:///schema" None)
    with (Returned (with_path generic_base (ListPath ["schema"]))). simpl.
  destruct (ext_getDescribeTableQuery db dbId (Some EmptyString) w) as [[q | e] w1]; simpl;
    [| reflexivity].
  destruct (ext_dbAll db dbId q w1) as [[rows | e] w2]; reflexivity.
Qed.

End ReadResource.

Lemma map_throwing_Forall2 {A B : Type} (f : A -> outcome B) (l : list A) (l' : list B) :
  map_throwing f l = Returned l' -> Forall2 (fun x y => f x = Returned y) l l'.
Proof.
  revert l'. induction l as [| x l IH]; simpl; intros l' H.
  - inversion H. constructor.
  - destruct (f x) as [y | e] eqn:E; [| discriminate].
    destruct (map_throwing f l) as [ys | e]; [| discriminate].
    inversion H. subst. constructor; auto.
Qed.

Section ListResources.
Context {W : Type}.
Variable db : DbLayer W.
Variable platform : UrlPlatform.

Lemma resourceOfRow_fields (base : URL) (row : Row) (r : Resources.Resource) :
  Resources.resourceOfRow platform "schema" base row = Returned r ->
  Resources.mimeType r = "application/json"
  /\ Resources.name r = dquote ++ row_name row ++ dquote ++ " database schema".
Proof.
  unfold Resources.resourceOfRow.
  destruct (URL_new platform (row_name row ++ "/" ++ "schema") (Some (href base))) as [u | e];
    [| discriminate].
  intros H. inversion H. split; reflexivity.
Qed.

End ListResources.

(** ** The URL parser on plain names *)

Lemma str_all_app (p : ascii -> bool) (a b : string) :
  str_all p (a ++ b) = str_all p a && str_all p b.
Proof.
  induction a as [| c a IH]; simpl; [reflexivity |]. now rewrite IH, andb_assoc.
Qed.

Lemma str_all_impl (p q : ascii -> bool) (s : string) :
  (forall c, p c = true -> q c = true) -> str_all p s = true -> str_all q s = true.
Proof.
  intros Hpq. induction s as [| c s IH]; simpl; [reflexivity |].
  intros H. apply andb_prop in H. destruct H as [Hc Hs]. now rewrite (Hpq c Hc), IH.
Qed.

Lemma str_all_flat_map (p q : ascii -> bool) (f : ascii -> string) (s : string) :
  (forall c, q c = true -> str_all p (f c) = true) ->
  str_all q s = true -> str_all p (str_flat_map f s) = true.
Proof.
  intros Hf. induction s as [| c s IH]; simpl; [reflexivity |].
  intros H. apply andb_prop in H. destruct H as [Hc Hs].
  now rewrite str_all_app, (Hf c Hc), IH.
Qed.

Lemma append_nil_r (s : string) : s ++ EmptyString = s.
Proof.
  induction s as [| c s IH]; simpl; [reflexivity | now rewrite IH].
Qed.

Lemma append_assoc (a b c : string) : (a ++ b) ++ c = a ++ b ++ c.
Proof.
  induction a as [| x a IH]; simpl; [reflexivity | now rewrite IH].
Qed.

Lemma dropStart_not (p : ascii -> bool) (c : ascii) (s : string) :
  p c = false -> dropStart p (String c s) = String c s.
Proof.
  intros H. simpl. now rewrite H.
Qed.

Lemma dropEnd_cons (p : ascii -> bool) (c : ascii) (s : string) :
  p c = false -> dropEnd p (String c s) = String c (dropEnd p s).
Proof.
  intros H. simpl. rewrite H. now destruct (dropEnd p s).
Qed.

Lemma dropEnd_none (p : ascii -> bool) (s : string) :
  str_all (fun c => negb (p c)) s = true -> dropEnd p s = s.
Proof.
  induction s as [| c s IH]; [reflexivity |].
  simpl str_all. intros H. apply andb_prop in H. destruct H as [Hc Hs].
  apply negb_true_iff in Hc. now rewrite (dropEnd_cons p c s Hc), IH.
Qed.

Lemma str_filter_all (p : ascii -> bool) (s : string) :
  str_all p s = true -> str_filter p s = s.
Proof.
  induction s as [| c s IH]; simpl; [reflexivity |].
  intros H. apply andb_prop in H. destruct H as [Hc Hs]. now rewrite Hc, IH.
Qed.

Lemma not_tab_newline (c : ascii) :
  negb (isC0ControlOrSpace c) = true -> negb (isTabOrNewline c) = true.
Proof.
  destruct c as [[] [] [] [] [] [] [] []]; intros H; try reflexivity; discriminate H.
Qed.

(** The parser leaves alone an input without C0 controls and spaces. *)
Lemma preprocess_clean (s : string) :
  str_all (fun c => negb (isC0ControlOrSpace c)) s = true -> preprocess s = s.
Proof.
  intros H. unfold preprocess.
  assert (D : dropStart isC0ControlOrSpace s = s).
  { destruct s as [| c s]; [reflexivity |]. simpl in H. apply andb_prop in H.
    destruct H as [Hc _]. apply negb_true_iff in Hc. now apply dropStart_not. }
  rewrite D, (dropEnd_none _ _ H). apply str_filter_all.
  revert H. apply str_all_impl. exact not_tab_newline.
Qed.

Lemma plain_char_facts (c : ascii) :
  plain_char c = true ->
  utf8_percent_encode path_set c = String c EmptyString
  /\ utf8_percent_encode c0_control_set c = String c EmptyString
  /\ isForbiddenHost c = false
  /\ path_char c = true
  /\ authority_char c = true
  /\ is_char "/" c = false /\ is_char ":" c = false /\ is_char "@" c = false
  /\ is_char "[" c = false /\ is_char "]" c = false.
Proof.
  destruct c as [[] [] [] [] [] [] [] []]; intros H; try discriminate H;
    repeat split; reflexivity.
Qed.

Lemma plain_clean (s : string) :
  plain s = true -> str_all (fun c => negb (isC0ControlOrSpace c)) s = true.
Proof.
  apply str_all_impl. intros c H.
  destruct (plain_char_facts c H) as (_ & _ & _ & P & _).
  unfold path_char in P. apply andb_prop in P. destruct P as [P _].
  apply andb_prop in P. now destruct P.
Qed.

Lemma percent_encode_plain (set : ascii -> bool) (s : string) :
  (forall c, plain_char c = true -> utf8_percent_encode set c = String c EmptyString) ->
  plain s = true -> percent_encode set s = s.
Proof.
  intros Hset. unfold plain, percent_encode.
  induction s as [| c s IH]; simpl; [reflexivity |].
  intros H. apply andb_prop in H. destruct H as [Hc Hs]. now rewrite (Hset c Hc), IH.
Qed.

Lemma scheme_state_plain (t r buffer : string) :
  plain t = true -> scheme_state (t ++ String "/" r) buffer = None.
Proof.
  revert buffer. induction t as [| c t IH]; intros buffer H; [reflexivity |].
  simpl in H. apply andb_prop in H. destruct H as [Hc Ht].
  cbn [append scheme_state]. destruct (plain_char_facts c Hc) as (_ & _ & _ & _ & _ & _ & C & _).
  rewrite C. destruct (isAlpha c || isDigit c || is_char "+" c || is_char "-" c || is_char "." c);
    [now apply IH | reflexivity].
Qed.

Lemma scheme_start_state_plain (t r : string) :
  plain t = true -> scheme_start_state (t ++ String "/" r) = None.
Proof.
  destruct t as [| c t]; intros H; [reflexivity |].
  simpl in H. apply andb_prop in H. destruct H as [Hc Ht].
  cbn [append scheme_start_state].
  destruct (isAlpha c); [now apply scheme_state_plain | reflexivity].
Qed.

Lemma path_state_plain_slash (t r buffer : string) (path : list string) :
  plain t = true ->
  path_state (t ++ String "/" r) buffer path
  = path_state r EmptyString (push_segment path (buffer ++ t) true).
Proof.
  revert buffer. induction t as [| c t IH]; intros buffer H.
  - simpl. now rewrite append_nil_r.
  - simpl in H. apply andb_prop in H. destruct H as [Hc Ht].
    destruct (plain_char_facts c Hc) as (E & _ & _ & P & _ & S & _).
    unfold path_char in P. apply andb_prop in P. destruct P as [P Hh].
    apply andb_prop in P. destruct P as [_ Hq].
    apply negb_true_iff in Hh, Hq.
    cbn [append path_state]. rewrite S, Hq, Hh, E. cbn [orb]. rewrite (IH _ Ht).
    now rewrite append_assoc.
Qed.

Lemma path_state_plain_end (t buffer : string) (path : list string) :
  plain t = true ->
  path_state t buffer path = (push_segment path (buffer ++ t) false, EmptyString).
Proof.
  revert buffer. induction t as [| c t IH]; intros buffer H.
  - simpl. now rewrite append_nil_r.
  - simpl in H. apply andb_prop in H. destruct H as [Hc Ht].
    destruct (plain_char_facts c Hc) as (E & _ & _ & P & _ & S & _).
    unfold path_char in P. apply andb_prop in P. destruct P as [P Hh].
    apply andb_prop in P. destruct P as [_ Hq].
    apply negb_true_iff in Hh, Hq.
    cbn [append path_state]. rewrite S, Hq, Hh, E. cbn [orb]. rewrite (IH _ Ht).
    now rewrite append_assoc.
Qed.

Lemma push_plain_segment (path : list string) (s : string) (slash : bool) :
  plain_segment s = true -> push_segment path s slash = (path ++ [s])%list.
Proof.
  unfold plain_segment, push_segment. intros H.
  apply andb_prop in H. destruct H as [H D2]. apply andb_prop in H. destruct H as [_ D1].
  apply negb_true_iff in D1, D2. now rewrite D1, D2.
Qed.

(** The path state on plain segments joined by [/]. *)
Lemma path_state_segments (l : list string) (path : list string) :
  l <> [] -> Forall (fun s => plain_segment s = true) l ->
  path_state (concat "/" l) EmptyString path = ((path ++ l)%list, EmptyString).
Proof.
  revert path. induction l as [| s l IH]; intros path Hne Hl; [congruence |].
  inversion Hl as [| ? ? Hs Hl']. subst.
  assert (Ps : plain s = true).
  { unfold plain_segment in Hs. apply andb_prop in Hs. destruct Hs as [Hs _].
    apply andb_prop in Hs. now destruct Hs. }
  destruct l as [| s' l].
  - simpl. rewrite (path_state_plain_end s EmptyString path Ps). simpl.
    now rewrite (push_plain_segment path s false Hs).
  - change (concat "/" (s :: s' :: l)) with (s ++ String "/" (concat "/" (s' :: l))).
    rewrite (path_state_plain_slash s _ EmptyString path Ps). simpl append.
    rewrite (push_plain_segment path s true Hs).
    rewrite IH; [| discriminate | assumption].
    now rewrite <- app_assoc.
Qed.

Lemma serialize_segments_concat (l : list string) :
  l <> [] -> serialize_segments l = String "/" (concat "/" l).
Proof.
  induction l as [| s l IH]; intros H; [congruence |].
  destruct l as [| s' l].
  - simpl. now rewrite append_nil_r.
  - change (serialize_segments (s :: s' :: l))
      with (String "/" (s ++ serialize_segments (s' :: l))).
    rewrite IH by discriminate. reflexivity.
Qed.

Lemma known_scheme_facts (scheme : string) :
  known_scheme scheme ->
  (forall r, scheme_start_state (scheme ++ String ":" r) = Some (scheme, r))
  /\ isSpecialScheme scheme = false
  /\ (exists c s, scheme = String c s /\ isC0ControlOrSpace c = false)
  /\ str_all (fun c => negb (isC0ControlOrSpace c)) scheme = true.
Proof.
  intros [-> | [-> | ->]]; repeat split; try reflexivity; eexists _, _; split; reflexivity.
Qed.

Lemma dropEnd_prefix (p : ascii -> bool) (a s : string) :
  str_all (fun c => negb (p c)) a = true -> dropEnd p (a ++ s) = a ++ dropEnd p s.
Proof.
  induction a as [| c a IH]; [reflexivity |].
  simpl str_all. intros H. apply andb_prop in H. destruct H as [Hc Ha].
  apply negb_true_iff in Hc. cbn [append]. now rewrite (dropEnd_cons p c _ Hc), IH.
Qed.

Lemma str_filter_app (p : ascii -> bool) (a b : string) :
  str_filter p (a ++ b) = str_filter p a ++ str_filter p b.
Proof.
  induction a as [| c a IH]; simpl; [reflexivity |].
  rewrite IH. now destruct (p c).
Qed.

Lemma clean_tail_clean (s : string) :
  str_all (fun c => negb (isC0ControlOrSpace c)) s = true -> clean_tail s = s.
Proof.
  intros H. unfold clean_tail. rewrite (dropEnd_none _ _ H). apply str_filter_all.
  revert H. apply str_all_impl. exact not_tab_newline.
Qed.

Section UrlOnPlainNames.
Variable platform : UrlPlatform.

Lemma preprocess_prefix (pre s : string) :
  pre <> EmptyString -> str_all (fun c => negb (isC0ControlOrSpace c)) pre = true ->
  preprocess (pre ++ s) = pre ++ clean_tail s.
Proof.
  intros Hne Hcl. unfold preprocess, clean_tail.
  destruct pre as [| c r]; [congruence |].
  assert (Hc : isC0ControlOrSpace c = false).
  { simpl in Hcl. apply andb_prop in Hcl. destruct Hcl as [Hc _]. now apply negb_true_iff. }
  cbn [append]. rewrite (dropStart_not _ c _ Hc).
  change (String c (r ++ s)) with (String c r ++ s).
  rewrite (dropEnd_prefix _ _ _ Hcl), str_filter_app.
  rewrite (str_filter_all _ (String c r)); [reflexivity |].
  revert Hcl. apply str_all_impl. exact not_tab_newline.
Qed.

(** An input that begins with one of the three schemes and [//] goes to the
    authority state. *)
Lemma parse_known_scheme (scheme s : string) :
  known_scheme scheme ->
  basic_url_parser platform (scheme ++ "://" ++ s) None
  = authority_state scheme (clean_tail s).
Proof.
  intros K. destruct (known_scheme_facts scheme K) as (Hs & Hsp & (c & r & E & Hc) & Hcl).
  unfold basic_url_parser.
  rewrite <- (append_assoc scheme "://" s).
  rewrite preprocess_prefix.
  - rewrite append_assoc.
    change (scheme ++ "://" ++ clean_tail s)
      with (scheme ++ String ":" ("//" ++ clean_tail s)).
    rewrite Hs, Hsp. reflexivity.
  - rewrite E. discriminate.
  - rewrite str_all_app, Hcl. reflexivity.
Qed.

Lemma break_at_app (p : ascii -> bool) (a : string) (c : ascii) (r : string) :
  str_all (fun c => negb (p c)) a = true -> p c = true ->
  break_at p (a ++ String c r) = (a, String c r).
Proof.
  intros Ha Hc. induction a as [| x a IH].
  - simpl. now rewrite Hc.
  - simpl in Ha. apply andb_prop in Ha. destruct Ha as [Hx Ha].
    apply negb_true_iff in Hx. simpl. now rewrite Hx, (IH Ha).
Qed.

Lemma split_last_none (d : ascii) (s : string) :
  str_all (fun c => negb (is_char d c)) s = true -> split_last d s = None.
Proof.
  induction s as [| c s IH]; [reflexivity |].
  cbn [str_all split_last]. intros H. apply andb_prop in H. destruct H as [Hc Hs].
  apply negb_true_iff in Hc. now rewrite (IH Hs), Hc.
Qed.

Lemma host_state_no_colon (h : string) (inside : bool) (buffer : string) :
  str_all (fun c => negb (is_char ":" c) && negb (is_char "[" c) && negb (is_char "]" c)) h = true ->
  host_state h inside buffer = (buffer ++ h, None).
Proof.
  revert buffer. induction h as [| c h IH]; intros buffer H.
  - simpl. now rewrite append_nil_r.
  - cbn [str_all] in H. apply andb_prop in H. destruct H as [Hc Hh].
    apply andb_prop in Hc. destruct Hc as [Hc C3]. apply andb_prop in Hc.
    destruct Hc as [C1 C2]. apply negb_true_iff in C1, C2, C3.
    cbn [host_state]. rewrite C1, C2, C3. cbn [andb]. rewrite (IH _ Hh).
    now rewrite append_assoc.
Qed.

Lemma plain_all (q : ascii -> bool) (s : string) :
  (forall c, plain_char c = true -> q c = true) -> plain s = true -> str_all q s = true.
Proof.
  intros H. now apply str_all_impl.
Qed.

Lemma str_any_false (p : ascii -> bool) (s : string) :
  str_all (fun c => negb (p c)) s = true -> str_any p s = false.
Proof.
  intros H. unfold str_any. now rewrite H.
Qed.

Lemma host_parser_plain (host : string) :
  plain host = true -> host_parser host = Some host.
Proof.
  intros H.
  assert (O : opaque_host_parser host = Some host).
  { unfold opaque_host_parser. rewrite str_any_false.
    - rewrite percent_encode_plain; [reflexivity | | assumption].
      intros c Hc. now destruct (plain_char_facts c Hc) as (_ & E & _).
    - revert H. apply plain_all. intros c Hc.
      destruct (plain_char_facts c Hc) as (_ & _ & F & _). now rewrite F. }
  destruct host as [| c r]; [exact O |].
  simpl in H. apply andb_prop in H. destruct H as [Hc _].
  destruct (plain_char_facts c Hc) as (_ & _ & _ & _ & _ & _ & _ & _ & B & _).
  unfold host_parser. now rewrite B.
Qed.

Lemma authority_parts_plain (host : string) :
  plain host = true ->
  authority_parts host = Some (EmptyString, EmptyString, host, None).
Proof.
  intros H. unfold authority_parts.
  rewrite split_last_none.
  - cbn [andb break_at percent_encode str_flat_map]. unfold host_and_port.
    rewrite host_state_no_colon.
    + cbn [append]. now rewrite (host_parser_plain host H).
    + revert H. apply plain_all. intros c Hc.
      destruct (plain_char_facts c Hc) as (_ & _ & _ & _ & _ & _ & C1 & _ & C2 & C3).
      now rewrite C1, C2, C3.
  - revert H. apply plain_all. intros c Hc.
    destruct (plain_char_facts c Hc) as (_ & _ & _ & _ & _ & _ & _ & C & _).
    now rewrite C.
Qed.

(** The parser on a scheme, a plain host and plain segments. *)
Lemma parse_host_url (scheme host : string) (l : list string) :
  known_scheme scheme -> plain host = true ->
  l <> [] -> Forall (fun s => plain_segment s = true) l ->
  basic_url_parser platform (scheme ++ "://" ++ host ++ String "/" (concat "/" l)) None
  = Some (host_url scheme host l).
Proof.
  intros K Hh Hne Hl.
  assert (Pl : str_all (fun c => negb (isC0ControlOrSpace c)) (concat "/" l) = true).
  { clear Hne. induction Hl as [| s l Hs _ IH]; [reflexivity |].
    assert (Ps : plain s = true).
    { unfold plain_segment in Hs. apply andb_prop in Hs. destruct Hs as [Hs _].
      apply andb_prop in Hs. now destruct Hs. }
    destruct l as [| s' l]; [exact (plain_clean s Ps) |].
    change (concat "/" (s :: s' :: l)) with (s ++ String "/" (concat "/" (s' :: l))).
    rewrite str_all_app, (plain_clean s Ps). cbn [str_all andb]. exact IH. }
  rewrite parse_known_scheme by assumption.
  rewrite clean_tail_clean.
  2:{ rewrite str_all_app, (plain_clean host Hh). cbn [str_all]. now rewrite Pl. }
  unfold authority_state. rewrite break_at_app.
  - rewrite (authority_parts_plain host Hh). cbn [path_start_state].
    change (is_char "?" "/") with false. change (is_char "#" "/") with false.
    change (is_char "/" "/") with true. cbn iota.
    unfold path_and_rest. rewrite (path_state_segments l [] Hne Hl). reflexivity.
  - revert Hh. apply plain_all. intros c Hc.
    destruct (plain_char_facts c Hc) as (_ & _ & _ & _ & A & _).
    unfold authority_char, path_char in A. unfold isAuthorityEnd.
    destruct (is_char "/" c), (is_char "?" c), (is_char "#" c); try reflexivity;
      rewrite ?andb_false_r in A; discriminate A.
  - reflexivity.
Qed.

Lemma href_host_url (scheme host : string) (l : list string) :
  l <> [] ->
  href (host_url scheme host l) = scheme ++ "://" ++ host ++ String "/" (concat "/" l).
Proof.
  intros Hne. unfold href, host_url, serialize_authority, includes_credentials. simpl.
  rewrite (serialize_segments_concat l Hne), !append_nil_r. reflexivity.
Qed.

(** A plain table name and "schema" against a base: the last segment of the
    base path is replaced. *)
Lemma parse_relative_table (table : string) (base : URL) (segments : list string) :
  plain_segment table = true -> table <> EmptyString ->
  url_path base = ListPath segments -> isSpecialScheme (url_scheme base) = false ->
  basic_url_parser platform (table ++ "/" ++ "schema") (Some base)
  = Some (table_url base segments table).
Proof.
  intros Ht Hne Hp Hs.
  assert (Pt : plain table = true).
  { unfold plain_segment in Ht. apply andb_prop in Ht. destruct Ht as [Ht _].
    apply andb_prop in Ht. now destruct Ht. }
  unfold basic_url_parser. rewrite preprocess_clean.
  2:{ rewrite str_all_app, (plain_clean _ Pt). reflexivity. }
  change (table ++ "/" ++ "schema") with (table ++ String "/" "schema").
  rewrite (scheme_start_state_plain table "schema" Pt).
  unfold no_scheme_state. rewrite Hp, Hs. unfold relative_state.
  destruct table as [| c t]; [congruence |].
  assert (Hc : plain_char c = true) by (simpl in Pt; apply andb_prop in Pt; tauto).
  destruct (plain_char_facts c Hc) as (_ & _ & _ & P & _ & S & _).
  unfold path_char in P. apply andb_prop in P. destruct P as [P Hh].
  apply andb_prop in P. destruct P as [_ Hq]. apply negb_true_iff in Hh, Hq.
  cbn [append]. rewrite S, Hq, Hh. unfold path_and_rest.
  change (String c (t ++ String "/" "schema")) with (String c t ++ String "/" "schema").
  rewrite (path_state_plain_slash (String c t) "schema" EmptyString _ Pt).
  cbn [append]. rewrite (push_plain_segment _ _ true Ht).
  rewrite (path_state_plain_end "schema" EmptyString _ eq_refl).
  cbn [append]. rewrite (push_plain_segment _ "schema" false eq_refl).
  rewrite <- app_assoc. reflexivity.
Qed.

End UrlOnPlainNames.

Lemma map_throwing_map {A B : Type} (f : A -> outcome B) (g : A -> B) (l : list A) :
  Forall (fun x => f x = Returned (g x)) l -> map_throwing f l = Returned (map g l).
Proof.
  induction 1 as [| x l Hx _ IH]; simpl; [reflexivity |]. now rewrite Hx, IH.
Qed.

Lemma root_base (info : DbInfo) (root : string) (dirs : list string) :
  resource_root info root dirs ->
  exists scheme host file,
    known_scheme scheme /\ plain host = true
    /\ Forall (fun s => plain_segment s = true) (dirs ++ [file])
    /\ Resources.resourceBaseUrlText info
       = scheme ++ "://" ++ host ++ String "/" (concat "/" (dirs ++ [file]))
    /\ root = scheme ++ "://" ++ host ++ "/".
Proof.
  intros [info' dirs' file T P N F | info' server dirs' database T S NS PS D N F | info' F C].
  - exists "sqlite", EmptyString, file. unfold known_scheme, Resources.resourceBaseUrlText.
    rewrite T, P. simpl. rewrite (nonEmpty_true _ N). auto 6.
  - exists "sqlserver", server, database.
    unfold known_scheme, Resources.resourceBaseUrlText.
    rewrite T, S, D. simpl. rewrite (nonEmpty_true _ NS), (nonEmpty_true _ N). auto 7.
  - exists "db", EmptyString, "database".
    unfold known_scheme, fileBased, clientServer, Resources.resourceBaseUrlText in *.
    rewrite F, C. repeat split; auto. repeat constructor.
Qed.

Section ListedUris.
Context {W : Type}.
Variable db : DbLayer W.
Variable platform : UrlPlatform.

Lemma resourceOfRow_plain (scheme host file : string) (dirs : list string) (row : Row) :
  known_scheme scheme -> plain host = true ->
  Forall (fun s => plain_segment s = true) (dirs ++ [file]) ->
  plain_segment (row_name row) = true -> row_name row <> EmptyString ->
  Resources.resourceOfRow platform "schema" (host_url scheme host (dirs ++ [file])) row
  = Returned (schema_resource (scheme ++ "://" ++ host ++ "/") dirs (row_name row)).
Proof.
  intros K Hh Hl Ht Hne.
  assert (N : forall x : string, (dirs ++ [x])%list <> []) by (intros x; destruct dirs; discriminate).
  unfold Resources.resourceOfRow, URL_new.
  rewrite (href_host_url _ _ _ (N file)), (parse_host_url platform _ _ _ K Hh (N file) Hl).
  rewrite (parse_relative_table platform (row_name row)
             (host_url scheme host (dirs ++ [file])) (dirs ++ [file]) Ht Hne eq_refl).
  2:{ now destruct (known_scheme_facts scheme K) as (_ & S & _). }
  unfold table_url, shorten. rewrite removelast_last.
  change (with_path (with_query (with_fragment (host_url scheme host (dirs ++ [file])) None) None)
            (ListPath (dirs ++ [row_name row; "schema"])))
    with (host_url scheme host (dirs ++ [row_name row; "schema"])).
  rewrite href_host_url by (destruct dirs; discriminate).
  unfold schema_resource. do 2 f_equal.
  rewrite !append_assoc. reflexivity.
Qed.

(** C9, as amended.  The table path replaces the last segment of the base
    path and keeps the ones before it: for a SQLite path (a SQL Server
    database name) made of the plain segments [dirs] and a last one, joined
    by [/], the URI of a table with a plain name is "sqlite:///"
    ("sqlserver://", the server and "/"), the segments [dirs], the table and
    "schema"; with no segment before the last one that is
    sqlite:///<table>/schema and sqlserver://<server>/<table>/schema.  The
    generic base gives db:///<table>/schema. *)
Theorem listResources_uris
  (dbId query : string) (info : DbInfo) (rows : list Row) (w w1 w2 w3 : W)
  (root : string) (dirs : list string) :
  ext_getDatabaseMetadata db dbId w = (Returned info, w1) ->
  ext_getListTablesQuery db dbId w1 = (Returned query, w2) ->
  ext_dbAll db dbId query w2 = (Returned rows, w3) ->
  resource_root info root dirs ->
  Forall (fun row => plain_segment (row_name row) = true /\ row_name row <> EmptyString) rows ->
  result_of (run (Resources.handleListResources db platform dbId) w)
  = Returned {| Resources.resources :=
                  map (fun row => schema_resource root dirs (row_name row)) rows |}.
Proof.
  intros Hm Hq Hr Hroot Hrows.
  destruct (root_base info root dirs Hroot) as (scheme & host & file & K & Hh & Hl & Ht & ->).
  assert (N : (dirs ++ [file])%list <> []) by (destruct dirs; discriminate).
  res_unfold. rewrite Hm. simpl. unfold URL_new at 1.
  rewrite Ht, (parse_host_url platform _ _ _ K Hh N Hl). simpl.
  rewrite Hq. simpl. rewrite Hr. simpl.
  rewrite (map_throwing_map _ (fun row => schema_resource (scheme ++ "://" ++ host ++ "/") dirs
                                            (row_name row))).
  - reflexivity.
  - revert Hrows. apply Forall_impl. intros row [P Ne].
    now apply resourceOfRow_plain.
Qed.

End ListedUris.

Lemma listResources_uris_witness :
  result_of (run (Resources.handleListResources
                    (double (sqlite_info "data/shop.db") [table_row "users"; table_row "orders"]
                       [] None)
                    plain_platform "shop") [])
  = Returned {| Resources.resources :=
                  [ schema_resource "sqlite:///" ["data"] "users";
                    schema_resource "sqlite:///" ["data"] "orders" ] |}.
Proof.
  apply (listResources_uris
           (double (sqlite_info "data/shop.db") [table_row "users"; table_row "orders"] [] None)
           plain_platform "shop" list_tables_query (sqlite_info "data/shop.db")
           [table_row "users"; table_row "orders"] [] [] [] [] "sqlite:///" ["data"]).
  - reflexivity.
  - reflexivity.
  - reflexivity.
  - apply (root_sqlite (sqlite_info "data/shop.db") ["data"] "shop.db").
    + reflexivity.
    + reflexivity.
    + discriminate.
    + repeat constructor.
  - repeat constructor; discriminate.
Defined.

(** C9 as it is stated fails for a SQLite path with a directory: the path
    "/var/data/shop.db" and the table "users" give
    "sqlite:////var/data/users/schema", not "sqlite:///users/schema". *)
Lemma listResources_keeps_directories :
  result_of (run (Resources.handleListResources
                    (double (sqlite_info "/var/data/shop.db") [table_row "users"] [] None)
                    plain_platform "shop") [])
  = Returned {| Resources.resources :=
                  [ {| Resources.uri := "sqlite:////var/data/users/schema";
                       Resources.mimeType := "application/json";
                       Resources.name := dquote ++ "users" ++ dquote ++ " database schema" |} ] |}
  /\ "sqlite:////var/data/users/schema" <> "sqlite:///" ++ "users" ++ "/schema".
Proof.
  split; [reflexivity | discriminate].
Qed.

(** ** What the parser leaves in a URL *)

Lemma encoded_path_chars (c : ascii) :
  str_all path_char (utf8_percent_encode path_set c) = true.
Proof.
  destruct c as [[] [] [] [] [] [] [] []]; reflexivity.
Qed.

Lemma encoded_userinfo_chars (c : ascii) :
  str_all userinfo_char (utf8_percent_encode userinfo_set c) = true.
Proof.
  destruct c as [[] [] [] [] [] [] [] []]; reflexivity.
Qed.

Lemma encoded_host_chars (c : ascii) :
  negb (isForbiddenHost c) = true ->
  str_all host_char (utf8_percent_encode c0_control_set c) = true.
Proof.
  destruct c as [[] [] [] [] [] [] [] []]; intros H; try reflexivity; discriminate H.
Qed.

Lemma encoded_not_empty (set : ascii -> bool) (c : ascii) (s : string) :
  utf8_percent_encode set c ++ s <> EmptyString.
Proof.
  unfold utf8_percent_encode, percent_encode_byte.
  destruct (set c); [destruct (code c <? 128)%N |]; discriminate.
Qed.

Lemma host_char_facts (c : ascii) :
  host_char c = true ->
  authority_char c = true /\ isForbiddenHost c = false
  /\ is_char ":" c = false /\ is_char "[" c = false /\ is_char "]" c = false
  /\ is_char "@" c = false.
Proof.
  destruct c as [[] [] [] [] [] [] [] []]; intros H; try discriminate H;
    repeat split; reflexivity.
Qed.

Lemma ipv6_char_facts (c : ascii) :
  ipv6_char c = true ->
  authority_char c = true /\ is_char "[" c = false /\ is_char "]" c = false
  /\ is_char "@" c = false.
Proof.
  destruct c as [[] [] [] [] [] [] [] []]; intros H; try discriminate H;
    repeat split; reflexivity.
Qed.

Lemma userinfo_char_facts (c : ascii) :
  userinfo_char c = true ->
  authority_char c = true /\ is_char "@" c = false /\ is_char ":" c = false.
Proof.
  destruct c as [[] [] [] [] [] [] [] []]; intros H; try discriminate H;
    repeat split; reflexivity.
Qed.

Lemma digit_facts (c : ascii) :
  isDigit c = true ->
  authority_char c = true /\ is_char "@" c = false.
Proof.
  destruct c as [[] [] [] [] [] [] [] []]; intros H; try discriminate H;
    repeat split; reflexivity.
Qed.

Lemma authority_char_facts (c : ascii) :
  authority_char c = true ->
  negb (isC0ControlOrSpace c) = true /\ negb (isAuthorityEnd c) = true
  /\ path_char c = true.
Proof.
  destruct c as [[] [] [] [] [] [] [] []]; intros H; try discriminate H;
    repeat split; reflexivity.
Qed.

Lemma path_char_facts (c : ascii) :
  path_char c = true ->
  negb (isC0ControlOrSpace c) = true
  /\ is_char "?" c = false /\ is_char "#" c = false.
Proof.
  destruct c as [[] [] [] [] [] [] [] []]; intros H; try discriminate H;
    repeat split; reflexivity.
Qed.

Lemma push_segment_chars (path : list string) (buffer : string) (slash : bool) :
  Forall (fun s => str_all path_char s = true) path ->
  str_all path_char buffer = true ->
  Forall (fun s => str_all path_char s = true) (push_segment path buffer slash).
Proof.
  intros Hp Hb. unfold push_segment, shorten.
  assert (R : Forall (fun s => str_all path_char s = true) (removelast path)).
  { apply Forall_forall. intros x Hx. rewrite Forall_forall in Hp.
    apply Hp. clear Hp. induction path as [| y path IH]; [contradiction |].
    destruct path as [| z path]; [contradiction |].
    simpl in Hx. destruct Hx as [-> | Hx]; [now left | right; now apply IH]. }
  destruct (isDoubleDot buffer); [destruct slash |
    destruct (isSingleDot buffer); [destruct slash |]];
    try assumption; apply Forall_app; split; try assumption; repeat constructor; assumption.
Qed.

(** The path state leaves no [?] and [#], no C0 control and no space in the
    segments. *)
Lemma path_state_chars (s buffer : string) (path : list string) :
  Forall (fun s => str_all path_char s = true) path ->
  str_all path_char buffer = true ->
  Forall (fun s => str_all path_char s = true) (fst (path_state s buffer path)).
Proof.
  revert buffer path. induction s as [| c s IH]; intros buffer path Hp Hb.
  - simpl. now apply push_segment_chars.
  - cbn [path_state]. destruct (is_char "/" c).
    + apply IH; [now apply push_segment_chars | reflexivity].
    + destruct (is_char "?" c || is_char "#" c).
      * simpl. now apply push_segment_chars.
      * apply IH; [assumption |]. now rewrite str_all_app, Hb, encoded_path_chars.
Qed.

Lemma split_not_nil (d : ascii) (s : string) : split d s <> [].
Proof.
  destruct s as [| c s]; simpl; [discriminate |].
  destruct (is_char d c); [discriminate |]. destruct (split d s); discriminate.
Qed.

(** [(a + d + b).split(d)] is [a.split(d)] followed by [b.split(d)]. *)
Lemma split_app (d : ascii) (a b : string) :
  split d (a ++ String d b) = (split d a ++ split d b)%list.
Proof.
  induction a as [| c a IH].
  - cbn [append split]. unfold is_char. now rewrite Ascii.eqb_refl.
  - cbn [append split]. destruct (is_char d c); [now rewrite IH |].
    rewrite IH. pose proof (split_not_nil d a) as N.
    destruct (split d a) as [| h t]; [congruence | reflexivity].
Qed.

Lemma pop_last {A : Type} (l : list A) (x : A) : pop (l ++ [x]) = (Some x, l).
Proof.
  unfold pop. rewrite rev_app_distr. simpl. now rewrite rev_involutive.
Qed.

Lemma serialize_segments_app (a b : list string) :
  serialize_segments (a ++ b) = serialize_segments a ++ serialize_segments b.
Proof.
  induction a as [| s a IH]; [reflexivity |].
  simpl. now rewrite IH, append_assoc.
Qed.

(** The two pops of handleReadResource on a path that ends in
    "/users/schema". *)
Lemma pops_users_schema (s : string) :
  exists rest rest',
    pop (split "/" (s ++ "/users/schema")) = (Some "schema", rest)
    /\ pop rest = (Some "users", rest').
Proof.
  exists (split "/" s ++ ["users"])%list, (split "/" s).
  change (s ++ "/users/schema") with (s ++ String "/" "users/schema").
  rewrite split_app.
  change (split "/" "users/schema") with (["users"] ++ ["schema"])%list.
  rewrite app_assoc. now rewrite !pop_last.
Qed.

(** *** Ports *)

Lemma string_of_uint_digits (d : Decimal.uint) :
  str_all isDigit (NilEmpty.string_of_uint d) = true.
Proof.
  induction d; simpl; auto.
Qed.

Lemma decimal_value_acc (d : Decimal.uint) (p : positive) :
  decimal_value (NilEmpty.string_of_uint d) (Npos p) = Npos (Pos.of_uint_acc d p).
Proof.
  revert p. induction d; intros p; [reflexivity | ..];
    cbn [NilEmpty.string_of_uint decimal_value Pos.of_uint_acc];
    rewrite <- IHd; f_equal; unfold code; simpl N_of_ascii; lia.
Qed.

Lemma decimal_value_of_uint (d : Decimal.uint) :
  decimal_value (NilEmpty.string_of_uint d) 0 = Pos.of_uint d.
Proof.
  induction d; [reflexivity | exact IHd | ..];
    cbn [NilEmpty.string_of_uint decimal_value Pos.of_uint]; apply decimal_value_acc.
Qed.

(** The port state reads back a serialized port. *)
Lemma port_state_again (n : N) :
  (n <= 65535)%N ->
  str_all isDigit (serialize_port n) = true
  /\ port_state (serialize_port n) = Some (Some n).
Proof.
  intros Hn. unfold serialize_port, NilZero.string_of_uint.
  assert (V : decimal_value (NilEmpty.string_of_uint (N.to_uint n)) 0 = n).
  { rewrite decimal_value_of_uint. exact (DecimalN.Unsigned.of_to n). }
  assert (D : str_all isDigit
                (match N.to_uint n with
                 | Decimal.Nil => "0"
                 | _ => NilEmpty.string_of_uint (N.to_uint n)
                 end) = true).
  { destruct (N.to_uint n); try reflexivity; apply string_of_uint_digits. }
  split; [exact D |]. unfold port_state. rewrite D.
  destruct (N.to_uint n) eqn:E; simpl in V |- *;
    try (rewrite V; apply N.ltb_ge in Hn; now rewrite Hn).
  now subst n.
Qed.

Lemma port_state_bound (s : string) (n : N) :
  port_state s = Some (Some n) -> (n <= 65535)%N.
Proof.
  unfold port_state. destruct (str_all isDigit s); [| discriminate].
  destruct s; [discriminate |].
  destruct (65535 <? decimal_value (String a s) 0)%N eqn:E; [discriminate |].
  intros H. inversion H. now apply N.ltb_ge.
Qed.

(** *** IPv6 addresses *)

(** **** Hexadecimal digits *)

Lemma hexLower_facts (x : N) :
  (x < 16)%N ->
  isHexDigit (hexLower x) = true /\ hexValue (hexLower x) = x
  /\ is_char ":" (hexLower x) = false /\ ipv6_char (hexLower x) = true.
Proof.
  intros H.
  assert (C : (x = 0 \/ x = 1 \/ x = 2 \/ x = 3 \/ x = 4 \/ x = 5 \/ x = 6 \/ x = 7
              \/ x = 8 \/ x = 9 \/ x = 10 \/ x = 11 \/ x = 12 \/ x = 13 \/ x = 14
              \/ x = 15)%N) by lia.
  repeat destruct C as [-> | C]; try subst x; repeat split; reflexivity.
Qed.

Ltac euclid := zify; Z.to_euclidean_division_equations; lia.

Lemma hex_piece_cases (v : N) :
  (v < 65536)%N ->
  exists digits,
    hex_piece v = fold_right (fun x s => String (hexLower x) s) EmptyString digits
    /\ digits <> [] /\ (List.length digits <= 4)%nat
    /\ Forall (fun x => (x < 16)%N) digits
    /\ fold_left (fun value x => (value * 16 + x)%N) digits 0%N = v.
Proof.
  intros H. unfold hex_piece.
  assert (D : forall i, ((v / 16 ^ i) mod 16 < 16)%N) by (intros i; now apply N.mod_lt).
  destruct (v <? 16)%N eqn:E1; [apply N.ltb_lt in E1 | apply N.ltb_ge in E1].
  { exists [(v / 16 ^ 0) mod 16]%N.
    split; [reflexivity |]. split; [discriminate |]. split; [simpl; lia |].
    split; [repeat constructor; apply D |]. cbn [fold_left].
    change (16 ^ 0)%N with 1%N. euclid. }
  destruct (v <? 256)%N eqn:E2; [apply N.ltb_lt in E2 | apply N.ltb_ge in E2].
  { exists [(v / 16 ^ 1) mod 16; (v / 16 ^ 0) mod 16]%N.
    split; [reflexivity |]. split; [discriminate |]. split; [simpl; lia |].
    split; [repeat constructor; apply D |]. cbn [fold_left].
    change (16 ^ 1)%N with 16%N. change (16 ^ 0)%N with 1%N. euclid. }
  destruct (v <? 4096)%N eqn:E3; [apply N.ltb_lt in E3 | apply N.ltb_ge in E3].
  { exists [(v / 16 ^ 2) mod 16; (v / 16 ^ 1) mod 16; (v / 16 ^ 0) mod 16]%N.
    split; [reflexivity |]. split; [discriminate |]. split; [simpl; lia |].
    split; [repeat constructor; apply D |]. cbn [fold_left].
    change (16 ^ 2)%N with 256%N. change (16 ^ 1)%N with 16%N.
    change (16 ^ 0)%N with 1%N. euclid. }
  exists [(v / 16 ^ 3) mod 16; (v / 16 ^ 2) mod 16; (v / 16 ^ 1) mod 16; (v / 16 ^ 0) mod 16]%N.
  split; [reflexivity |]. split; [discriminate |]. split; [simpl; lia |].
  split; [repeat constructor; apply D |]. cbn [fold_left].
  change (16 ^ 3)%N with 4096%N. change (16 ^ 2)%N with 256%N.
  change (16 ^ 1)%N with 16%N. change (16 ^ 0)%N with 1%N. euclid.
Qed.

Lemma in_piece_digits (digits : list N) (value : N) (length : nat) (start rest : string)
  (address : list N) (pieceIndex : nat) (compress : option nat) :
  Forall (fun x => (x < 16)%N) digits -> (length + List.length digits <= 4)%nat ->
  ipv6_loop (render digits ++ rest) (InPiece value length start) address pieceIndex compress
  = ipv6_loop rest
      (InPiece (fold_left (fun value x => (value * 16 + x)%N) digits value)
         (length + List.length digits) start)
      address pieceIndex compress.
Proof.
  intros H. revert value length. induction H as [| x digits Hx _ IH]; intros value length L.
  - simpl. now rewrite Nat.add_0_r.
  - destruct (hexLower_facts x Hx) as (A & B & _).
    simpl in L. cbn [render fold_right append ipv6_loop fold_left List.length].
    assert (E : (length <? 4)%nat = true) by (apply Nat.ltb_lt; lia).
    rewrite E, A, B. cbn [andb]. fold (render digits).
    rewrite IH by lia. now rewrite Nat.add_succ_r.
Qed.

Lemma piece_start_digits (v : N) (rest : string)
  (address : list N) (pieceIndex : nat) (compress : option nat) :
  (v < 65536)%N -> (pieceIndex < 8)%nat ->
  exists length start,
    ipv6_loop (hex_piece v ++ rest) PieceStart address pieceIndex compress
    = ipv6_loop rest (InPiece v length start) address pieceIndex compress.
Proof.
  intros Hv Hp. destruct (hex_piece_cases v Hv) as (digits & E & N & L & F & V).
  destruct digits as [| x digits]; [congruence |].
  inversion F as [| ? ? Hx F']. subst.
  destruct (hexLower_facts x Hx) as (A & B & C & _).
  rewrite E. cbn [fold_right append ipv6_loop].
  assert (P : (pieceIndex =? 8)%nat = false) by (apply Nat.eqb_neq; lia).
  rewrite P, C, A, B. fold (render digits).
  simpl in L. rewrite (in_piece_digits digits x 1) by (assumption || lia).
  cbn [fold_left]. rewrite N.mul_0_l, N.add_0_l. eauto.
Qed.

Lemma loop_piece_colon (v : N) (rest : string)
  (address : list N) (pieceIndex : nat) (compress : option nat) :
  (v < 65536)%N -> (pieceIndex < 8)%nat -> rest <> EmptyString ->
  ipv6_loop (hex_piece v ++ String ":" rest) PieceStart address pieceIndex compress
  = ipv6_loop rest PieceStart (set_piece address pieceIndex v) (S pieceIndex) compress.
Proof.
  intros Hv Hp Hr.
  destruct (piece_start_digits v (String ":" rest) address pieceIndex compress Hv Hp)
    as (length & start & E).
  rewrite E. cbn [ipv6_loop]. change (isHexDigit ":") with false.
  change (is_char "." ":") with false. change (is_char ":" ":") with true.
  rewrite andb_false_r. destruct rest; [congruence | reflexivity].
Qed.

Lemma loop_piece_end (v : N) (address : list N) (pieceIndex : nat) (compress : option nat) :
  (v < 65536)%N -> (pieceIndex < 8)%nat ->
  ipv6_loop (hex_piece v ++ EmptyString) PieceStart address pieceIndex compress
  = Some (set_piece address pieceIndex v, S pieceIndex, compress).
Proof.
  intros Hv Hp.
  destruct (piece_start_digits v EmptyString address pieceIndex compress Hv Hp)
    as (length & start & E).
  rewrite E. reflexivity.
Qed.

Lemma hex_piece_first (v : N) (rest : string) :
  (v < 65536)%N ->
  exists c r, hex_piece v ++ rest = String c r /\ is_char ":" c = false.
Proof.
  intros Hv. destruct (hex_piece_cases v Hv) as (digits & E & N & L & F & V).
  destruct digits as [| x digits]; [congruence |].
  inversion F as [| ? ? Hx F']. subst.
  destruct (hexLower_facts x Hx) as (_ & _ & C & _).
  rewrite E. cbn [fold_right append]. eauto.
Qed.

Lemma parser_piece_first (v : N) (rest : string) :
  (v < 65536)%N ->
  ipv6_parser (hex_piece v ++ rest)
  = ipv6_finish (ipv6_loop (hex_piece v ++ rest) PieceStart [0; 0; 0; 0; 0; 0; 0; 0]%N 0 None).
Proof.
  intros Hv. destruct (hex_piece_first v rest Hv) as (c & r & E & C).
  unfold ipv6_parser. rewrite E, C. reflexivity.
Qed.

Lemma hex_piece_not_empty (v : N) (rest : string) :
  (v < 65536)%N -> hex_piece v ++ rest <> EmptyString.
Proof.
  intros Hv. destruct (hex_piece_first v rest Hv) as (c & r & E & _). rewrite E. discriminate.
Qed.

Ltac ipv6_side :=
  solve [ assumption | lia | discriminate | apply hex_piece_not_empty; assumption ].

Ltac ipv6_steps :=
  repeat first
    [ rewrite loop_piece_colon by ipv6_side
    | rewrite loop_piece_end by ipv6_side
    | progress cbn [ipv6_loop Nat.eqb is_char Ascii.eqb Bool.eqb] ].

(** The parser accepts a serialized address. *)
Lemma ipv6_serializer_again (address : list N) :
  valid_address address -> ipv6_parser (ipv6_serializer address) <> None.
Proof.
  intros [L F].
  do 9 (destruct address as [| ? address]; try discriminate L). clear L.
  repeat match goal with H : Forall _ (_ :: _) |- _ => inversion H; clear H; subst end.
  repeat match goal with H : (?p < 65536)%N |- _ => is_var p; destruct p end;
    unfold ipv6_serializer; cbn -[hex_piece ipv6_parser];
    first [ rewrite parser_piece_first by ipv6_side
          | unfold ipv6_parser; cbn [is_char Ascii.eqb Bool.eqb] ];
    ipv6_steps; cbn [ipv6_finish Nat.eqb]; discriminate.
Qed.

(** **** The parser returns eight 16-bit pieces *)

Lemma set_piece_length (address : list N) (i : nat) (v : N) :
  List.length (set_piece address i v) = List.length address.
Proof.
  revert i. induction address as [| x address IH]; intros i; [reflexivity |].
  destruct i; simpl; [reflexivity | now rewrite IH].
Qed.

Lemma set_piece_valid (address : list N) (i : nat) (v : N) :
  valid_address address -> valid_address (set_piece address i v).
Proof.
  intros [L F]. split.
  - now rewrite set_piece_length.
  - clear L. revert i. induction F as [| x address Hx Ha IH]; intros i; [constructor |].
    destruct i; simpl; constructor; auto. now apply N.mod_lt.
Qed.

Lemma ipv4_in_ipv6_valid (fuel : nat) (s : string) (numbersSeen : nat) (address : list N)
  (pieceIndex : nat) (address' : list N) (pieceIndex' : nat) :
  valid_address address ->
  ipv4_in_ipv6 fuel s numbersSeen address pieceIndex = Some (address', pieceIndex') ->
  valid_address address'.
Proof.
  revert s numbersSeen address pieceIndex.
  induction fuel as [| fuel IH]; intros s numbersSeen address pieceIndex V H.
  - destruct s; simpl in H; [| discriminate].
    destruct (numbersSeen =? 4)%nat; inversion H. now subst.
  - destruct s as [| c r]; cbn [ipv4_in_ipv6] in H.
    + destruct (numbersSeen =? 4)%nat; inversion H. now subst.
    + destruct (0 <? numbersSeen)%nat;
        [destruct (is_char "." c && (numbersSeen <? 4)%nat); [| discriminate] |];
        (destruct (ipv4_piece _ None) as [[piece rest] |]; [| discriminate];
         apply IH in H; [assumption | now apply set_piece_valid]).
Qed.

Lemma ipv6_loop_valid (s : string) (state : Ipv6State) (address : list N) (pieceIndex : nat)
  (compress : option nat) (address' : list N) (pieceIndex' : nat) (compress' : option nat) :
  valid_address address ->
  ipv6_loop s state address pieceIndex compress = Some (address', pieceIndex', compress') ->
  valid_address address'.
Proof.
  revert state address pieceIndex compress.
  induction s as [| c r IH]; intros state address pieceIndex compress V H.
  - destruct state; simpl in H; inversion H; subst; [assumption | now apply set_piece_valid].
  - destruct state as [| value length start]; cbn [ipv6_loop] in H.
    + destruct (pieceIndex =? 8)%nat; [discriminate |].
      destruct (is_char ":" c).
      * destruct compress; [discriminate |]. now apply IH in H.
      * destruct (isHexDigit c); [| discriminate]. now apply IH in H.
    + destruct ((length <? 4)%nat && isHexDigit c); [now apply IH in H |].
      destruct (is_char "." c).
      * destruct (6 <? pieceIndex)%nat; [discriminate |].
        destruct (ipv4_in_ipv6 5 start 0 address pieceIndex) as [[a p] |] eqn:E;
          [| discriminate].
        inversion H. subst. now apply ipv4_in_ipv6_valid in E.
      * destruct (is_char ":" c); [| discriminate].
        destruct r; [discriminate |].
        apply IH in H; [assumption |]. now apply set_piece_valid.
Qed.

Lemma swap_pieces_valid (swaps pieceIndex compress : nat) (address : list N) :
  valid_address address -> valid_address (swap_pieces swaps pieceIndex compress address).
Proof.
  revert pieceIndex address. induction swaps as [| swaps IH]; intros pieceIndex address V;
    [assumption |].
  cbn [swap_pieces]. destruct (pieceIndex =? 0)%nat; [assumption |].
  apply IH. unfold swap. now do 2 apply set_piece_valid.
Qed.

Lemma ipv6_parser_valid (s : string) (address : list N) :
  ipv6_parser s = Some address -> valid_address address.
Proof.
  assert (Z : valid_address [0; 0; 0; 0; 0; 0; 0; 0]%N).
  { split; [reflexivity |]. repeat constructor. }
  unfold ipv6_parser.
  destruct (match s with
            | EmptyString => Some (s, 0, None)
            | String c r =>
                if is_char ":" c
                then match r with
                     | EmptyString => None
                     | String c' r' => if is_char ":" c' then Some (r', 1, Some 1) else None
                     end
                else Some (s, 0, None)
            end) as [[[s' pieceIndex] compress] |]; [| discriminate].
  destruct (ipv6_loop s' PieceStart [0; 0; 0; 0; 0; 0; 0; 0]%N pieceIndex compress)
    as [[[a p] c] |] eqn:E; [| discriminate].
  apply ipv6_loop_valid in E; [| exact Z].
  unfold ipv6_finish. destruct c as [c |].
  - intros H. inversion H. now apply swap_pieces_valid.
  - destruct (p =? 8)%nat; intros H; inversion H. now subst.
Qed.

(** **** The characters of a serialized address *)

Lemma hex_piece_chars (v : N) : (v < 65536)%N -> str_all ipv6_char (hex_piece v) = true.
Proof.
  intros Hv. destruct (hex_piece_cases v Hv) as (digits & E & _ & _ & F & _).
  rewrite E. clear E. induction F as [| x digits Hx _ IH]; [reflexivity |].
  destruct (hexLower_facts x Hx) as (_ & _ & _ & C). simpl. now rewrite C, IH.
Qed.

Lemma serialize_pieces_chars (address : list N) (pieceIndex : nat) (compress : option nat)
  (ignore0 : bool) :
  Forall (fun v => (v < 65536)%N) address ->
  str_all ipv6_char (serialize_pieces address pieceIndex compress ignore0) = true.
Proof.
  intros F. revert pieceIndex ignore0.
  induction F as [| v address Hv _ IH]; intros pieceIndex ignore0; [reflexivity |].
  cbn [serialize_pieces]. destruct (ignore0 && (v =? 0)%N); [apply IH |].
  destruct (match compress with Some i => (i =? pieceIndex)%nat | None => false end).
  - rewrite str_all_app, IH. now destruct (pieceIndex =? 0)%nat.
  - rewrite !str_all_app, (hex_piece_chars v Hv), IH. now destruct (pieceIndex =? 7)%nat.
Qed.

(** A parsed address, serialized, is made of digits, the letters a to f and
    colons, and is accepted when parsed again. *)
Lemma ipv6_again (s : string) (address : list N) :
  ipv6_parser s = Some address ->
  str_all ipv6_char (ipv6_serializer address) = true
  /\ ipv6_parser (ipv6_serializer address) <> None.
Proof.
  intros H. apply ipv6_parser_valid in H. split.
  - apply serialize_pieces_chars, H.
  - now apply ipv6_serializer_again.
Qed.

(** *** Hosts *)

Lemma percent_encode_chars (set q : ascii -> bool) (s : string) :
  (forall c, str_all q (utf8_percent_encode set c) = true) ->
  str_all q (percent_encode set s) = true.
Proof.
  intros H. unfold percent_encode. induction s as [| c s IH]; [reflexivity |].
  simpl. now rewrite str_all_app, H, IH.
Qed.

Lemma unsnoc_app (s : string) (c : ascii) : unsnoc (s ++ String c EmptyString) = Some (s, c).
Proof.
  induction s as [| x s IH]; [reflexivity |]. simpl. now rewrite IH.
Qed.

Lemma host_state_skip (h tail : string) (inside : bool) (buffer : string) :
  str_all (fun c => negb (is_char ":" c) && negb (is_char "[" c) && negb (is_char "]" c)) h = true ->
  host_state (h ++ tail) inside buffer = host_state tail inside (buffer ++ h).
Proof.
  revert buffer. induction h as [| c h IH]; intros buffer H.
  - simpl. now rewrite append_nil_r.
  - cbn [str_all] in H. apply andb_prop in H. destruct H as [Hc Hh].
    apply andb_prop in Hc. destruct Hc as [Hc C3]. apply andb_prop in Hc.
    destruct Hc as [C1 C2]. apply negb_true_iff in C1, C2, C3.
    cbn [append host_state]. rewrite C1, C2, C3. cbn [andb]. rewrite (IH _ Hh).
    now rewrite append_assoc.
Qed.

Lemma host_state_inside (a tail buffer : string) :
  str_all (fun c => negb (is_char "[" c) && negb (is_char "]" c)) a = true ->
  host_state (a ++ tail) true buffer = host_state tail true (buffer ++ a).
Proof.
  revert buffer. induction a as [| c a IH]; intros buffer H.
  - simpl. now rewrite append_nil_r.
  - cbn [str_all] in H. apply andb_prop in H. destruct H as [Hc Ha].
    apply andb_prop in Hc. destruct Hc as [C2 C3]. apply negb_true_iff in C2, C3.
    cbn [append host_state]. rewrite C2, C3. cbn [negb andb].
    rewrite andb_false_r. rewrite (IH _ Ha). now rewrite append_assoc.
Qed.

Lemma host_state_none (s : string) (inside : bool) (buffer hostText : string) :
  host_state s inside buffer = (hostText, None) -> hostText = buffer ++ s.
Proof.
  revert inside buffer. induction s as [| c s IH]; intros inside buffer H.
  - simpl in H. inversion H. now rewrite append_nil_r.
  - cbn [host_state] in H. destruct (is_char ":" c && negb inside); [discriminate |].
    apply IH in H. now rewrite H, append_assoc.
Qed.

Lemma host_parser_form (hostText host : string) :
  host_parser hostText = Some host ->
  host_form host /\ (hostText <> EmptyString -> host <> EmptyString).
Proof.
  assert (O : opaque_host_parser hostText = Some host ->
              host_form host /\ (hostText <> EmptyString -> host <> EmptyString)).
  { unfold opaque_host_parser, str_any.
    destruct (str_all (fun c => negb (isForbiddenHost c)) hostText) eqn:E; [| discriminate].
    simpl. intros H. inversion H. split.
    - left. unfold percent_encode. apply (str_all_flat_map _ _ _ _ encoded_host_chars E).
    - destruct hostText as [| c r]; [congruence |]. intros _.
      unfold percent_encode. simpl. apply encoded_not_empty. }
  destruct hostText as [| c r]; [exact O |].
  unfold host_parser. destruct (is_char "[" c); [| exact O].
  destruct (unsnoc r) as [[inner last] |]; [| discriminate].
  destruct (is_char "]" last); [| discriminate].
  destruct (ipv6_parser inner) as [address |] eqn:E; [| discriminate].
  intros H. inversion H. split; [| discriminate].
  right. exists (ipv6_serializer address). destruct (ipv6_again inner address E) as [C A]. auto.
Qed.

Lemma host_form_chars (host : string) :
  host_form host ->
  str_all authority_char host = true
  /\ str_all (fun c => negb (is_char "@" c)) host = true.
Proof.
  intros [H | (a & -> & C & _)].
  - split; revert H; apply str_all_impl; intros c Hc;
      destruct (host_char_facts c Hc) as (A & _ & _ & _ & _ & T); [exact A | now rewrite T].
  - cbn [append str_all]. rewrite !str_all_app. cbn [str_all]. split.
    + rewrite (str_all_impl _ _ _ (fun c Hc => proj1 (ipv6_char_facts c Hc)) C). reflexivity.
    + rewrite (str_all_impl ipv6_char (fun c => negb (is_char "@" c)) a); [reflexivity | | exact C].
      intros c Hc. destruct (ipv6_char_facts c Hc) as (_ & _ & _ & T). now rewrite T.
Qed.

Lemma host_parser_again (host : string) :
  host_form host -> host_parser host <> None.
Proof.
  intros [H | (a & -> & C & A)].
  - assert (O : opaque_host_parser host <> None).
    { unfold opaque_host_parser. rewrite str_any_false; [discriminate |].
      revert H. apply str_all_impl. intros c Hc.
      destruct (host_char_facts c Hc) as (_ & F & _). now rewrite F. }
    destruct host as [| c r]; [exact O |].
    cbn [str_all] in H. apply andb_prop in H. destruct H as [Hc _].
    destruct (host_char_facts c Hc) as (_ & _ & _ & B & _).
    unfold host_parser. now rewrite B.
  - cbn [append host_parser]. change (is_char "[" "[") with true. cbn iota.
    rewrite unsnoc_app. change (is_char "]" "]") with true. cbn iota.
    destruct (ipv6_parser a); [discriminate | congruence].
Qed.

Lemma host_state_form (host tail buffer : string) :
  host_form host ->
  host_state (host ++ tail) false buffer = host_state tail false (buffer ++ host).
Proof.
  intros [H | (a & -> & C & _)].
  - apply host_state_skip. revert H. apply str_all_impl. intros c Hc.
    destruct (host_char_facts c Hc) as (_ & _ & C1 & C2 & C3 & _). now rewrite C1, C2, C3.
  - cbn [append host_state]. change (is_char ":" "[") with false.
    change (is_char "[" "[") with true. cbn [andb].
    rewrite append_assoc, host_state_inside.
    + cbn [append host_state]. change (is_char ":" "]") with false.
      change (is_char "[" "]") with false. change (is_char "]" "]") with true.
      cbn [andb]. now rewrite !append_assoc.
    + revert C. apply str_all_impl. intros c Hc.
      destruct (ipv6_char_facts c Hc) as (_ & C2 & C3 & _). now rewrite C2, C3.
Qed.


(** *** Authorities *)

Lemma split_last_app (d : ascii) (a b : string) :
  str_all (fun c => negb (is_char d c)) b = true ->
  split_last d (a ++ String d b) = Some (a, b).
Proof.
  intros Hb. induction a as [| c a IH].
  - cbn [append split_last]. rewrite (split_last_none d b Hb).
    unfold is_char. now rewrite Ascii.eqb_refl.
  - cbn [append split_last]. now rewrite IH.
Qed.

Lemma port_text_chars (port : option N) :
  (forall n, port = Some n -> (n <= 65535)%N) ->
  let text := match port with Some n => ":" ++ serialize_port n | None => EmptyString end in
  str_all authority_char text = true
  /\ str_all (fun c => negb (is_char "@" c)) text = true.
Proof.
  intros B. destruct port as [n |]; [| split; reflexivity].
  destruct (port_state_again n (B n eq_refl)) as [D _]. cbn [append str_all]. split.
  - rewrite (str_all_impl _ _ _ (fun c Hc => proj1 (digit_facts c Hc)) D). reflexivity.
  - rewrite (str_all_impl isDigit (fun c => negb (is_char "@" c)) _); [reflexivity | | exact D].
    intros c Hc. destruct (digit_facts c Hc) as [_ T]. now rewrite T.
Qed.

Lemma host_and_port_inv (hostport host : string) (port : option N) :
  host_and_port hostport = Some (host, port) ->
  host_form host
  /\ (hostport <> EmptyString -> host <> EmptyString)
  /\ (port <> None -> host <> EmptyString)
  /\ (forall n, port = Some n -> (n <= 65535)%N).
Proof.
  unfold host_and_port.
  destruct (host_state hostport false EmptyString) as [hostText [portText |]] eqn:E.
  - destruct (String.eqb_spec hostText EmptyString) as [| Hne]; [discriminate |].
    destruct (host_parser hostText) as [h |] eqn:HP; [| discriminate].
    destruct (port_state portText) as [p |] eqn:PS; [| discriminate].
    intros H. inversion H. subst h p.
    destruct (host_parser_form hostText host HP) as [F N].
    repeat split; auto. intros n ->. now apply port_state_bound with (s := portText).
  - destruct (host_parser hostText) as [h |] eqn:HP; [| discriminate].
    intros H. inversion H. subst h port.
    destruct (host_parser_form hostText host HP) as [F N].
    apply host_state_none in E. simpl in E. subst hostText.
    repeat split; auto; congruence.
Qed.

Lemma host_and_port_again (host : string) (port : option N) :
  host_form host ->
  (port <> None -> host <> EmptyString) ->
  (forall n, port = Some n -> (n <= 65535)%N) ->
  host_and_port
    (host ++ match port with Some n => ":" ++ serialize_port n | None => EmptyString end)
  <> None.
Proof.
  intros F N B. unfold host_and_port. rewrite (host_state_form host _ _ F).
  pose proof (host_parser_again host F) as P.
  destruct port as [n |].
  - cbn [append host_state]. change (is_char ":" ":") with true. cbn [negb andb].
    destruct (String.eqb_spec host EmptyString) as [E | _].
    + exfalso. apply N; [discriminate | exact E].
    + destruct (host_parser host) as [h |]; [| congruence].
      rewrite (proj2 (port_state_again n (B n eq_refl))). discriminate.
  - cbn [append host_state].
    destruct (host_parser host) as [h |]; [discriminate | congruence].
Qed.

Lemma authority_text_again (username password host : string) (port : option N) :
  str_all userinfo_char username = true -> str_all userinfo_char password = true ->
  host_form host ->
  (port <> None -> host <> EmptyString) ->
  (includes_credentials username password = true -> host <> EmptyString) ->
  (forall n, port = Some n -> (n <= 65535)%N) ->
  str_all authority_char (serialize_authority username password host port) = true
  /\ authority_parts (serialize_authority username password host port) <> None.
Proof.
  intros Hu Hp F N C B.
  destruct (host_form_chars host F) as [Ha Hat].
  destruct (port_text_chars port B) as [Pa Pat].
  pose proof (host_and_port_again host port F N B) as HP.
  set (text := match port with Some n => ":" ++ serialize_port n | None => EmptyString end) in *.
  assert (Ua : forall s, str_all userinfo_char s = true -> str_all authority_char s = true).
  { intros s. apply str_all_impl. intros c Hc. now destruct (userinfo_char_facts c Hc). }
  unfold serialize_authority. fold text.
  destruct (includes_credentials username password) eqn:IC.
  - set (userinfo := username ++ (if nonEmpty password then ":" ++ password else EmptyString)).
    replace ((username ++ (if nonEmpty password then ":" ++ password else EmptyString) ++ "@")
             ++ host ++ text)
      with (userinfo ++ String "@" (host ++ text))
      by (unfold userinfo; now rewrite !append_assoc).
    split.
    + rewrite str_all_app. cbn [str_all]. rewrite str_all_app, Ha, Pa.
      unfold userinfo. rewrite str_all_app, (Ua _ Hu).
      destruct (nonEmpty password); [cbn [append str_all]; rewrite (Ua _ Hp) |]; reflexivity.
    + unfold authority_parts. rewrite split_last_app by (now rewrite str_all_app, Hat, Pat).
      specialize (C eq_refl).
      assert (E : (host ++ text =? EmptyString) = false)
        by (destruct host; [congruence | reflexivity]).
      rewrite E. cbn [andb]. destruct (break_at (is_char ":") userinfo) as [x y].
      destruct (host_and_port (host ++ text)) as [[h p] |]; [discriminate | congruence].
  - cbn [append]. split; [now rewrite str_all_app, Ha, Pa |].
    unfold authority_parts. rewrite split_last_none by (now rewrite str_all_app, Hat, Pat).
    cbn [andb break_at].
    destruct (host_and_port (host ++ text)) as [[h p] |]; [discriminate | congruence].
Qed.

(** The authority the parser accepted is, serialized, accepted again. *)
Lemma authority_parts_again (buffer username password host : string) (port : option N) :
  authority_parts buffer = Some (username, password, host, port) ->
  str_all authority_char (serialize_authority username password host port) = true
  /\ authority_parts (serialize_authority username password host port) <> None.
Proof.
  unfold authority_parts.
  destruct (split_last "@" buffer) as [[userinfo hostport] |] eqn:SL.
  - cbn [andb]. destruct (String.eqb_spec hostport EmptyString) as [| Hne]; [discriminate |].
    destruct (break_at (is_char ":") userinfo) as [x y].
    destruct (host_and_port hostport) as [[h p] |] eqn:HP; [| discriminate].
    intros H. inversion H. subst.
    destruct (host_and_port_inv hostport host port HP) as (F & N1 & N2 & B).
    apply authority_text_again; auto;
      apply percent_encode_chars; exact encoded_userinfo_chars.
  - cbn [andb break_at].
    destruct (host_and_port buffer) as [[h p] |] eqn:HP; [| discriminate].
    intros H. inversion H. subst.
    destruct (host_and_port_inv buffer host port HP) as (F & N1 & N2 & B).
    apply authority_text_again; auto. discriminate.
Qed.


(** *** Parsed URLs are well formed, and are accepted again *)

Lemma Forall_removelast {A : Type} (P : A -> Prop) (l : list A) :
  Forall P l -> Forall P (removelast l).
Proof.
  induction 1 as [| x l Hx Hl IH]; [constructor |].
  destruct l as [| y l]; [constructor |]. simpl. constructor; assumption.
Qed.

Lemma serialize_segments_chars (l : list string) :
  Forall (fun s => str_all path_char s = true) l ->
  str_all path_char (serialize_segments l) = true.
Proof.
  induction 1 as [| s l Hs _ IH]; [reflexivity |].
  cbn [serialize_segments append str_all]. now rewrite str_all_app, Hs, IH.
Qed.

Lemma query_state_frame (u : URL) (s : string) :
  url_scheme (query_state u s) = url_scheme u
  /\ url_username (query_state u s) = url_username u
  /\ url_password (query_state u s) = url_password u
  /\ url_host (query_state u s) = url_host u
  /\ url_port (query_state u s) = url_port u
  /\ url_path (query_state u s) = url_path u.
Proof.
  unfold query_state. destruct (break_at (is_char "#") s) as [q [| c f]]; simpl; auto 6.
Qed.

Lemma query_or_fragment_frame (u : URL) (s : string) :
  url_scheme (query_or_fragment u s) = url_scheme u
  /\ url_username (query_or_fragment u s) = url_username u
  /\ url_password (query_or_fragment u s) = url_password u
  /\ url_host (query_or_fragment u s) = url_host u
  /\ url_port (query_or_fragment u s) = url_port u
  /\ url_path (query_or_fragment u s) = url_path u.
Proof.
  unfold query_or_fragment. destruct s as [| c r]; [auto 6 |].
  destruct (is_char "?" c); [apply query_state_frame |].
  destruct (is_char "#" c); simpl; auto 6.
Qed.

Lemma path_and_rest_frame (u : URL) (path : list string) (s : string) :
  url_scheme (path_and_rest u path s) = url_scheme u
  /\ url_username (path_and_rest u path s) = url_username u
  /\ url_password (path_and_rest u path s) = url_password u
  /\ url_host (path_and_rest u path s) = url_host u
  /\ url_port (path_and_rest u path s) = url_port u
  /\ url_path (path_and_rest u path s) = ListPath (fst (path_state s EmptyString path)).
Proof.
  unfold path_and_rest. destruct (path_state s EmptyString path) as [segments rest].
  destruct (query_or_fragment_frame (with_path u (ListPath segments)) rest)
    as (A & B & C & D & E & F).
  rewrite A, B, C, D, E, F. simpl. auto 6.
Qed.

Lemma path_start_state_frame (u : URL) (s : string) :
  url_path u = ListPath [] ->
  url_scheme (path_start_state u s) = url_scheme u
  /\ url_username (path_start_state u s) = url_username u
  /\ url_password (path_start_state u s) = url_password u
  /\ url_host (path_start_state u s) = url_host u
  /\ url_port (path_start_state u s) = url_port u
  /\ exists segments,
       url_path (path_start_state u s) = ListPath segments
       /\ Forall (fun s => str_all path_char s = true) segments.
Proof.
  intros Hp.
  assert (P : forall r, exists segments,
               ListPath (fst (path_state r EmptyString [])) = ListPath segments
               /\ Forall (fun s => str_all path_char s = true) segments).
  { intros r. eexists. split; [reflexivity |]. apply path_state_chars; [constructor | reflexivity]. }
  unfold path_start_state. destruct s as [| c r].
  - repeat split; auto. exists []. split; [assumption | constructor].
  - destruct (is_char "?" c).
    { destruct (query_state_frame u r) as (A & B & C & D & E & F).
      rewrite A, B, C, D, E, F. repeat split; auto. exists []. split; [assumption | constructor]. }
    destruct (is_char "#" c).
    { simpl. repeat split; auto. exists []. split; [assumption | constructor]. }
    destruct (is_char "/" c).
    + destruct (path_and_rest_frame u [] r) as (A & B & C & D & E & F).
      rewrite A, B, C, D, E, F. repeat split; auto.
    + destruct (path_and_rest_frame u [] (String c r)) as (A & B & C & D & E & F).
      rewrite A, B, C, D, E, F. repeat split; auto.
Qed.

(** What the authority state returns is well formed. *)
Lemma authority_state_well_formed (scheme s : string) (u : URL) :
  authority_state scheme s = Some u ->
  well_formed u /\ url_scheme u = scheme.
Proof.
  unfold authority_state. destruct (break_at isAuthorityEnd s) as [buffer remaining].
  destruct (authority_parts buffer) as [[[[username password] host] port] |] eqn:E;
    [| discriminate].
  intros H. inversion H. clear H.
  destruct (authority_parts_again _ _ _ _ _ E) as [Ca Aa].
  match goal with |- context [path_start_state ?u0 remaining] =>
    destruct (path_start_state_frame u0 remaining eq_refl)
      as (A & B & C & D & F & (segments & P & Ps)) end.
  split; [| exact A].
  exists host, segments. rewrite B, C, D, F, P. simpl. auto.
Qed.


(** The path state on a text that ends in "/users/schema". *)
Lemma path_state_users_schema (t buffer : string) (path : list string) :
  str_all path_char t = true ->
  exists segments,
    path_state (t ++ "/users/schema") buffer path
    = ((segments ++ ["users"; "schema"])%list, EmptyString).
Proof.
  revert buffer path. induction t as [| c t IH]; intros buffer path H.
  - exists (push_segment path buffer true).
    change (EmptyString ++ "/users/schema") with (EmptyString ++ String "/" "users/schema").
    rewrite (path_state_plain_slash EmptyString "users/schema" buffer path eq_refl).
    rewrite append_nil_r.
    change "users/schema" with ("users" ++ String "/" "schema").
    rewrite (path_state_plain_slash "users" "schema" EmptyString _ eq_refl).
    rewrite (path_state_plain_end "schema" EmptyString _ eq_refl).
    cbn [append]. rewrite (push_plain_segment _ "users" true eq_refl).
    rewrite (push_plain_segment _ "schema" false eq_refl). now rewrite <- app_assoc.
  - cbn [str_all] in H. apply andb_prop in H. destruct H as [Hc Ht].
    destruct (path_char_facts c Hc) as (_ & Q & F).
    cbn [append path_state]. rewrite Q, F. cbn [orb].
    destruct (is_char "/" c); now apply IH.
Qed.

Lemma path_state_after_slash (t rest : string) :
  str_all path_char t = true ->
  t ++ "/users/schema" = String "/" rest ->
  exists segments,
    path_state rest EmptyString [] = ((segments ++ ["users"; "schema"])%list, EmptyString).
Proof.
  intros Ht E. destruct t as [| c t].
  - inversion E. exists []. reflexivity.
  - inversion E. cbn [str_all] in Ht. apply andb_prop in Ht. destruct Ht as [_ Ht].
    now apply path_state_users_schema.
Qed.

Lemma href_with_host (u : URL) (host : string) :
  url_host u = Some host ->
  href u
  = url_scheme u ++ "://" ++
    (serialize_authority (url_username u) (url_password u) host (url_port u) ++
     serialize_path (url_path u) ++
     match url_query u with Some q => "?" ++ q | None => EmptyString end ++
     match url_fragment u with Some f => "#" ++ f | None => EmptyString end).
Proof.
  intros H. unfold href. rewrite H. reflexivity.
Qed.

Lemma base_text_known (info : DbInfo) :
  exists scheme rest,
    known_scheme scheme /\ Resources.resourceBaseUrlText info = scheme ++ "://" ++ rest.
Proof.
  unfold Resources.resourceBaseUrlText, known_scheme.
  destruct ((db_type info =? "sqlite") && present (db_path info)).
  - exists "sqlite", (String "/" (text_of (db_path info))). auto.
  - destruct ((db_type info =? "sqlserver") && present (db_server info)
              && present (db_database info)).
    + exists "sqlserver", (text_of (db_server info) ++ "/" ++ text_of (db_database info)). auto.
    + exists "db", "/database". auto.
Qed.

Lemma Forall2_nth_error {A B : Type} (R : A -> B -> Prop) (l : list A) (l' : list B)
  (i : nat) (x : A) (y : B) :
  Forall2 R l l' -> nth_error l i = Some x -> nth_error l' i = Some y -> R x y.
Proof.
  intros H. revert i. induction H as [| a b l l' Hab _ IH]; intros i Hx Hy.
  - destruct i; discriminate.
  - destruct i as [| i]; simpl in *; [congruence | eauto].
Qed.

Section RoundTrip.
Variable platform : UrlPlatform.

(** The URL of the table "users" against a well-formed base is, serialized,
    accepted by the parser, and its path ends in "/users/schema". *)
Lemma users_url_again (u : URL) (segments : list string) :
  well_formed u -> known_scheme (url_scheme u) ->
  url_path u = ListPath segments ->
  exists v before,
    basic_url_parser platform (href (table_url u segments "users")) None = Some v
    /\ pathname v = before ++ "/users/schema".
Proof.
  intros (host & segments' & Hh & Hp' & Ca & Aa & Ps) K Hp.
  rewrite Hp in Hp'. inversion Hp'. subst segments'. clear Hp'.
  set (authority := serialize_authority (url_username u) (url_password u) host (url_port u)) in *.
  assert (Hs : str_all path_char (serialize_segments (shorten segments)) = true)
    by (apply serialize_segments_chars, Forall_removelast, Ps).
  assert (E : href (table_url u segments "users")
              = url_scheme u ++ "://" ++
                (authority ++ serialize_segments (shorten segments) ++ "/users/schema")).
  { rewrite (href_with_host _ host) by exact Hh. unfold table_url. cbn.
    fold authority. rewrite serialize_segments_app. cbn. now rewrite !append_nil_r. }
  rewrite E, (parse_known_scheme platform _ _ K), clean_tail_clean.
  2:{ rewrite !str_all_app.
      rewrite (str_all_impl _ _ _ (fun c Hc => proj1 (authority_char_facts c Hc)) Ca).
      rewrite (str_all_impl _ _ _ (fun c Hc => proj1 (path_char_facts c Hc)) Hs).
      reflexivity. }
  assert (R : exists rest,
             serialize_segments (shorten segments) ++ "/users/schema" = String "/" rest).
  { destruct (shorten segments); eexists; reflexivity. }
  destruct R as [rest R].
  destruct (path_state_after_slash _ rest Hs R) as [found F].
  rewrite R. unfold authority_state. rewrite break_at_app.
  - destruct (authority_parts authority) as [[[[username password] h] port] |];
      [| congruence].
    eexists. exists (serialize_segments found). split; [reflexivity |].
    cbn [path_start_state]. change (is_char "?" "/") with false.
    change (is_char "#" "/") with false. change (is_char "/" "/") with true. cbn iota.
    unfold path_and_rest. rewrite F. unfold pathname. cbn.
    now rewrite serialize_segments_app.
  - revert Ca. apply str_all_impl. intros c Hc.
    now destruct (authority_char_facts c Hc) as (_ & A & _).
  - reflexivity.
Qed.

(** The resource listed for a table named "users" has a URI that [new URL]
    accepts, with a path that ends in "/users/schema". *)
Lemma users_resource_again (info : DbInfo) (base : URL) (row : Row) (r : Resources.Resource) :
  URL_new platform (Resources.resourceBaseUrlText info) None = Returned base ->
  row_name row = "users" ->
  Resources.resourceOfRow platform "schema" base row = Returned r ->
  exists v before,
    URL_new platform (Resources.uri r) None = Returned v
    /\ pathname v = before ++ "/users/schema".
Proof.
  intros Hb Hn Hr.
  destruct (base_text_known info) as (scheme & rest & K & T).
  unfold URL_new in Hb. rewrite T, (parse_known_scheme platform _ _ K) in Hb.
  destruct (authority_state scheme (clean_tail rest)) as [b |] eqn:Eb; [| discriminate].
  inversion Hb. subst b. clear Hb.
  destruct (authority_state_well_formed _ _ _ Eb) as [Wb Sb].
  destruct Wb as (host & segments & Hh & _).
  unfold Resources.resourceOfRow, URL_new in Hr.
  rewrite (href_with_host base host Hh), Sb, (parse_known_scheme platform _ _ K) in Hr.
  match type of Hr with context [authority_state scheme ?t] =>
    destruct (authority_state scheme t) as [parsedBase |] eqn:Ep end;
    [| discriminate].
  destruct (authority_state_well_formed _ _ _ Ep) as [Wp Sp].
  pose proof Wp as (host' & segments' & _ & Hp & _).
  rewrite Hn in Hr.
  rewrite (parse_relative_table platform "users" parsedBase segments' eq_refl) in Hr;
    [| discriminate | exact Hp
     | rewrite Sp; now destruct (known_scheme_facts scheme K) as (_ & S & _)].
  inversion Hr. cbn [Resources.uri].
  destruct (users_url_again parsedBase segments' Wp) as (v & before & Pv & Pn);
    [now rewrite Sp | exact Hp |].
  exists v, before. unfold URL_new. now rewrite Pv.
Qed.

End RoundTrip.

(** C2. When handleListResources returns, the URI it lists for a table named
    "users" is accepted by handleReadResource: the URI parses, the last
    segment of its path is "schema", and the handler goes on to ask for the
    describe query of the table "users". *)
Theorem users_uri_round_trip {W : Type} (db : DbLayer W) (platform : UrlPlatform)
  (JSON_stringify : list Resources.ColumnSummary -> string)
  (dbId query : string) (info : DbInfo) (rows : list Row) (w w1 w2 w3 w' : W)
  (listed : Resources.ListResult) (i : nat) (row : Row) (r : Resources.Resource) :
  ext_getDatabaseMetadata db dbId w = (Returned info, w1) ->
  ext_getListTablesQuery db dbId w1 = (Returned query, w2) ->
  ext_dbAll db dbId query w2 = (Returned rows, w3) ->
  result_of (run (Resources.handleListResources db platform dbId) w) = Returned listed ->
  nth_error rows i = Some row -> row_name row = "users" ->
  nth_error (Resources.resources listed) i = Some r ->
  hd_error (calls_of (run (Resources.handleReadResource db platform JSON_stringify dbId
                             (Resources.uri r)) w'))
  = Some (GetDescribeTableQuery dbId (Some "users")).
Proof.
  intros Hm Hq Hr Hl Hi Hn Hj.
  revert Hl. res_unfold. rewrite Hm. simpl.
  destruct (URL_new platform (Resources.resourceBaseUrlText info) None) as [base | e] eqn:Eb;
    simpl; [| discriminate].
  rewrite Hq. simpl. rewrite Hr. simpl.
  destruct (map_throwing (Resources.resourceOfRow platform "schema" base) rows)
    as [mapped | e] eqn:E; simpl; [| discriminate].
  intros H. inversion H. subst listed. simpl in Hj. clear H.
  apply map_throwing_Forall2 in E.
  pose proof (Forall2_nth_error _ _ _ _ _ _ E Hi Hj) as Hrow.
  destruct (users_resource_again platform info base row r Eb Hn Hrow)
    as (v & before & Hv & Hp).
  destruct (pops_users_schema before) as (rest & rest' & P1 & P2).
  pose proof (handleReadResource_guard db platform JSON_stringify dbId (Resources.uri r) v w' Hv)
    as [_ G].
  rewrite Hp, P1 in G. cbn [fst snd] in G. rewrite P2 in G. cbn [fst] in G.
  unfold calls_of, run in G. apply G. reflexivity.
Qed.

Lemma users_uri_round_trip_witness :
  hd_error (calls_of (run (Resources.handleReadResource loopback_db plain_platform
                             (fun _ => EmptyString) "shop"
                             "sqlserver://sa:secret@[::1]:1433/users/schema") []))
  = Some (GetDescribeTableQuery "shop" (Some "users")).
Proof.
  apply (users_uri_round_trip loopback_db plain_platform (fun _ => EmptyString)
           "shop" list_tables_query (sqlserver_info "sa:secret@[::1]:1433" "shop")
           [table_row "orders"; table_row "users"] [] [] [] [] []
           {| Resources.resources :=
                [ schema_resource "sqlserver://sa:secret@[::1]:1433/" [] "orders";
                  schema_resource "sqlserver://sa:secret@[::1]:1433/" [] "users" ] |}
           1 (table_row "users")
           (schema_resource "sqlserver://sa:secret@[::1]:1433/" [] "users")).
  - reflexivity.
  - reflexivity.
  - reflexivity.
  - reflexivity.
  - reflexivity.
  - reflexivity.
  - reflexivity.
Defined.

(** * Further properties *)

(** ** The schema tools, beyond the guards *)

Section MoreToolProperties.
Context {W Response : Type}.
Variable db : DbLayer W.
Variable formatSuccessResponse : SchemaTools.Payload -> Response.

(** listTables has no precondition: when the listing query and [dbAll]
    return, it returns the names of the rows, in their order and with their
    repetitions, after these two calls and no other. *)
Theorem listTables_names (dbId query : string) (tables : list Row) (w w1 w2 : W) :
  ext_getListTablesQuery db dbId w = (Returned query, w1) ->
  ext_dbAll db dbId query w1 = (Returned tables, w2) ->
  run (SchemaTools.listTables db formatSuccessResponse dbId) w
  = (Returned (formatSuccessResponse (SchemaTools.TableNames (map row_name tables))),
     {| world := w2;
        trace := [event (GetListTablesQuery dbId); event (DbAll dbId query)] |}).
Proof.
  intros Hq Ht. js_unfold. rewrite Hq. simpl. rewrite Ht. reflexivity.
Qed.

(** dropTable, confirmed, on a table of the listing: it executes the
    statement DROP TABLE with the name between double quotes, as it is, and
    when [dbExec] returns it returns the envelope that names the table; the
    calls are the listing query, [dbAll] and [dbExec], in this order. *)
Theorem dropTable_confirmed (dbId tableName query : string) (tables : list Row)
  (w w1 w2 w3 : W) :
  tableName <> EmptyString ->
  ext_getListTablesQuery db dbId w = (Returned query, w1) ->
  ext_dbAll db dbId query w1 = (Returned tables, w2) ->
  In tableName (map row_name tables) ->
  ext_dbExec db dbId ("DROP TABLE " ++ dquote ++ tableName ++ dquote) w2 = (Returned tt, w3) ->
  run (SchemaTools.dropTable db formatSuccessResponse dbId tableName true) w
  = (Returned (formatSuccessResponse
                 (SchemaTools.Status true ("Table '" ++ tableName ++ "' dropped successfully"))),
     {| world := w3;
        trace := [event (GetListTablesQuery dbId); event (DbAll dbId query);
                  event (DbExec dbId ("DROP TABLE " ++ dquote ++ tableName ++ dquote))] |}).
Proof.
  intros Hn Hq Ht Hin He. apply includes_In in Hin.
  js_unfold. rewrite (nonEmpty_true _ Hn). simpl. rewrite Hq. simpl. rewrite Ht. simpl.
  rewrite Hin. simpl. simpl in He. rewrite He. reflexivity.
Qed.

(** dropTable executes nothing but the drop of a listed table: whatever the
    database layer does, a [dbExec] in its trace means that confirm is true,
    that the table name is not empty, that the listing returned and has the
    table name, and that the statement is the DROP TABLE of that name on the
    same database. *)
Theorem dropTable_executes_only_listed
  (dbId tableName : string) (confirm : bool) (w : W) (dbId' statement : string) :
  In (DbExec dbId' statement)
     (calls_of (run (SchemaTools.dropTable db formatSuccessResponse dbId tableName confirm) w)) ->
  confirm = true /\ tableName <> EmptyString /\ dbId' = dbId
  /\ statement = "DROP TABLE " ++ dquote ++ tableName ++ dquote
  /\ exists query tables w1 w2,
       ext_getListTablesQuery db dbId w = (Returned query, w1)
       /\ ext_dbAll db dbId query w1 = (Returned tables, w2)
       /\ In tableName (map row_name tables).
Proof.
  js_unfold. unfold nonEmpty.
  destruct (String.eqb_spec tableName EmptyString) as [| Hn]; simpl; [intros [] |].
  destruct confirm; simpl; [| intros []].
  destruct (ext_getListTablesQuery db dbId w) as [[query | e] w1] eqn:Hq; simpl;
    [| intros [H | []]; discriminate H].
  destruct (ext_dbAll db dbId query w1) as [[tables | e] w2] eqn:Ht; simpl;
    [| intros [H | [H | []]]; discriminate H].
  destruct (includes (map row_name tables) tableName) eqn:Hin; simpl;
    [| intros [H | [H | []]]; discriminate H].
  apply includes_In in Hin.
  intros H.
  assert (E : DbExec dbId ("DROP TABLE " ++ dquote ++ tableName ++ dquote)
              = DbExec dbId' statement).
  { destruct (ext_dbExec db dbId _ w2) as [[[] | e] w3]; simpl in H;
      destruct H as [H | [H | [H | []]]]; try discriminate H; exact H. }
  inversion E. subst. repeat split; auto. exists query, tables, w1, w2. auto.
Qed.

(** describeTable asks for the description of a listed table only: whatever
    the database layer does, a [getDescribeTableQuery] in its trace is for
    the table name it was given, which is not empty and which the listing,
    that returned, has. *)
Theorem describeTable_describes_only_listed
  (dbId tableName : string) (w : W) (dbId' : string) (described : option string) :
  In (GetDescribeTableQuery dbId' described)
     (calls_of (run (SchemaTools.describeTable db formatSuccessResponse dbId tableName) w)) ->
  tableName <> EmptyString /\ dbId' = dbId /\ described = Some tableName
  /\ exists query tables w1 w2,
       ext_getListTablesQuery db dbId w = (Returned query, w1)
       /\ ext_dbAll db dbId query w1 = (Returned tables, w2)
       /\ In tableName (map row_name tables).
Proof.
  js_unfold. unfold nonEmpty.
  destruct (String.eqb_spec tableName EmptyString) as [| Hn]; simpl; [intros [] |].
  destruct (ext_getListTablesQuery db dbId w) as [[query | e] w1] eqn:Hq; simpl;
    [| intros [H | []]; discriminate H].
  destruct (ext_dbAll db dbId query w1) as [[tables | e] w2] eqn:Ht; simpl;
    [| intros [H | [H | []]]; discriminate H].
  destruct (includes (map row_name tables) tableName) eqn:Hin; simpl;
    [| intros [H | [H | []]]; discriminate H].
  apply includes_In in Hin.
  intros H.
  assert (E : GetDescribeTableQuery dbId (Some tableName)
              = GetDescribeTableQuery dbId' described).
  { destruct (ext_getDescribeTableQuery db dbId (Some tableName) w2) as [[q | e] w3];
      simpl in H.
    - destruct (ext_dbAll db dbId q w3) as [[columns | e] w4]; simpl in H;
        destruct H as [H | [H | [H | [H | []]]]]; try discriminate H; exact H.
    - destruct H as [H | [H | [H | []]]]; try discriminate H; exact H. }
  inversion E. subst. repeat split; auto. exists query, tables, w1, w2. auto.
Qed.

End MoreToolProperties.

Lemma listTables_names_witness :
  run (SchemaTools.listTables shop_db (fun p => p) "shop") []
  = (Returned (SchemaTools.TableNames ["users"; "orders"]),
     {| world := [];
        trace := [event (GetListTablesQuery "shop"); event (DbAll "shop" list_tables_query)] |}).
Proof.
  apply (listTables_names shop_db (fun p => p) "shop" list_tables_query
           [table_row "users"; table_row "orders"] [] [] []); reflexivity.
Defined.

Lemma dropTable_confirmed_witness :
  run (SchemaTools.dropTable shop_db (fun p => p) "shop" "orders" true) []
  = (Returned (SchemaTools.Status true "Table 'orders' dropped successfully"),
     {| world := ["DROP TABLE " ++ dquote ++ "orders" ++ dquote];
        trace := [event (GetListTablesQuery "shop"); event (DbAll "shop" list_tables_query);
                  event (DbExec "shop" ("DROP TABLE " ++ dquote ++ "orders" ++ dquote))] |}).
Proof.
  apply (dropTable_confirmed shop_db (fun p => p) "shop" "orders" list_tables_query
           [table_row "users"; table_row "orders"] [] [] []).
  - discriminate.
  - reflexivity.
  - reflexivity.
  - simpl. right. left. reflexivity.
  - reflexivity.
Defined.

Lemma dropTable_executes_only_listed_witness :
  true = true /\ "orders" <> EmptyString /\ "shop" = "shop"
  /\ "DROP TABLE " ++ dquote ++ "orders" ++ dquote
     = "DROP TABLE " ++ dquote ++ "orders" ++ dquote
  /\ exists query tables w1 w2,
       ext_getListTablesQuery shop_db "shop" [] = (Returned query, w1)
       /\ ext_dbAll shop_db "shop" query w1 = (Returned tables, w2)
       /\ In "orders" (map row_name tables).
Proof.
  apply (dropTable_executes_only_listed shop_db (fun p : SchemaTools.Payload => p)
           "shop" "orders" true []).
  simpl. right. right. left. reflexivity.
Defined.

Lemma describeTable_describes_only_listed_witness :
  "users" <> EmptyString /\ "shop" = "shop" /\ Some "users" = Some "users"
  /\ exists query tables w1 w2,
       ext_getListTablesQuery shop_db "shop" [] = (Returned query, w1)
       /\ ext_dbAll shop_db "shop" query w1 = (Returned tables, w2)
       /\ In "users" (map row_name tables).
Proof.
  apply (describeTable_describes_only_listed shop_db (fun p : SchemaTools.Payload => p)
           "shop" "users" []).
  simpl. right. right. left. reflexivity.
Defined.

(** ** What the guards of createTable and alterTable look at *)

Lemma dropEnd_kept (p : ascii -> bool) (a r : string) :
  dropEnd p a = a -> dropEnd p (a ++ r) = a ++ dropEnd p r.
Proof.
  induction a as [| c a IH]; [reflexivity |].
  cbn [dropEnd append]. destruct (dropEnd p a) as [| d x] eqn:E.
  - destruct (p c) eqn:Hc; [discriminate |]. intros H. injection H as <-.
    cbn [append dropEnd]. now destruct (dropEnd p r).
  - intros H. injection H as H. rewrite (IH H). rewrite <- H. reflexivity.
Qed.

Lemma toLowerCase_app (a b : string) :
  toLowerCase (a ++ b) = toLowerCase a ++ toLowerCase b.
Proof.
  induction a as [| c a IH]; simpl; [reflexivity |]. now rewrite IH.
Qed.

Lemma str_all_toLowerCase_space (ws : string) :
  str_all isWhiteSpace (toLowerCase ws) = str_all isWhiteSpace ws.
Proof.
  induction ws as [| c ws IH]; simpl; [reflexivity |].
  now rewrite isWhiteSpace_lowerChar, IH.
Qed.

Lemma startsWith_app (a b : string) : startsWith (a ++ b) a = true.
Proof.
  unfold startsWith. induction a as [| c a IH]; simpl.
  - now destruct b.
  - now rewrite Ascii.eqb_refl || (destruct (ascii_dec c c); [exact IH | congruence]).
Qed.

Lemma head_accepted (c : ascii) (pre ws head rest : string) :
  isWhiteSpace c = false ->
  dropEnd isWhiteSpace (String c pre) = String c pre ->
  str_all isWhiteSpace ws = true ->
  toLowerCase head = String c pre ->
  startsWith (toLowerCase (trim (ws ++ head ++ rest))) (String c pre) = true.
Proof.
  intros Hc He Hws Hh.
  rewrite toLowerCase_trim, !toLowerCase_app, Hh.
  unfold trim. rewrite dropStart_app by now rewrite str_all_toLowerCase_space.
  cbn [append]. rewrite (dropStart_not _ _ _ Hc).
  change (String c (pre ++ toLowerCase rest)) with (String c pre ++ toLowerCase rest).
  rewrite (dropEnd_kept _ _ _ He). apply startsWith_app.
Qed.

Section GuardHeads.
Context {W Response : Type}.
Variable db : DbLayer W.
Variable formatSuccessResponse : SchemaTools.Payload -> Response.

Theorem createTable_alterTable_check_the_head_only (dbId ws head rest : string) (w : W) :
  str_all isWhiteSpace ws = true ->
  (toLowerCase head = "create table" ->
   calls_of (run (SchemaTools.createTable db formatSuccessResponse dbId (ws ++ head ++ rest)) w)
   = [DbExec dbId (ws ++ head ++ rest)])
  /\ (toLowerCase head = "alter table" ->
      calls_of (run (SchemaTools.alterTable db formatSuccessResponse dbId (ws ++ head ++ rest)) w)
      = [DbExec dbId (ws ++ head ++ rest)]).
Proof.
  intros Hws. split; intros Hh.
  - pose proof (head_accepted "c" "reate table" ws head rest eq_refl eq_refl Hws Hh) as A.
    js_unfold. rewrite A. simpl.
    destruct (ext_dbExec db dbId _ w) as [[[] | e] w']; reflexivity.
  - pose proof (head_accepted "a" "lter table" ws head rest eq_refl eq_refl Hws Hh) as A.
    js_unfold. rewrite A. simpl.
    destruct (ext_dbExec db dbId _ w) as [[[] | e] w']; reflexivity.
Qed.
End GuardHeads.

Lemma createTable_alterTable_check_the_head_only_witness :
  calls_of (run (SchemaTools.createTable shop_db (fun p => p) "shop"
                   ("  " ++ "Create Table" ++ " t (id INT); DROP TABLE users")) [])
  = [DbExec "shop" ("  " ++ "Create Table" ++ " t (id INT); DROP TABLE users")]
  /\ calls_of (run (SchemaTools.alterTable shop_db (fun p => p) "shop"
                      (" " ++ "ALTER table" ++ "s; DELETE FROM users")) [])
     = [DbExec "shop" (" " ++ "ALTER table" ++ "s; DELETE FROM users")].
Proof.
  split.
  - apply (createTable_alterTable_check_the_head_only shop_db (fun p => p) "shop"
             "  " "Create Table" " t (id INT); DROP TABLE users" []); reflexivity.
  - apply (createTable_alterTable_check_the_head_only shop_db (fun p => p) "shop"
             " " "ALTER table" "s; DELETE FROM users" []); reflexivity.
Defined.

(** ** What the operations call *)

Section OnlyCalls.
Context {W : Type}.
Variable P : Call -> Prop.

Lemma only_calls_silent {A : Type} (m : M W A) :
  (forall env, snd (m env) = env) -> only_calls P m.
Proof.
  intros H env. exists []. rewrite H, app_nil_r. split; [reflexivity | constructor].
Qed.

Lemma only_calls_ret {A : Type} (a : A) : only_calls P (@ret W A a).
Proof.
  now apply only_calls_silent.
Qed.

Lemma only_calls_throw {A : Type} (e : JsError) : only_calls P (@throw W A e).
Proof.
  now apply only_calls_silent.
Qed.

Lemma only_calls_lift {A : Type} (o : outcome A) : only_calls P (@lift W A o).
Proof.
  now apply only_calls_silent.
Qed.

Lemma only_calls_throw_if (cond : bool) (msg : string) : only_calls P (@throw_if W cond msg).
Proof.
  destruct cond; [apply only_calls_throw | apply only_calls_ret].
Qed.

Lemma only_calls_perform {A : Type} (c : Call) (f : W -> outcome A * W) :
  P c -> only_calls P (perform c f).
Proof.
  intros Hc env. unfold perform. destruct (f (world env)) as [o w].
  exists [ {| ev_call := c; ev_thrown := thrown_of o |} ]. simpl.
  split; [reflexivity | now repeat constructor].
Qed.

Lemma only_calls_bind {A B : Type} (m : M W A) (f : A -> M W B) :
  only_calls P m -> (forall a, only_calls P (f a)) -> only_calls P (bind m f).
Proof.
  intros Hm Hf env. unfold bind.
  destruct (Hm env) as [new1 [T1 F1]].
  destruct (m env) as [[a | e0] env1]; simpl in *.
  - destruct (Hf a env1) as [new2 [T2 F2]].
    exists (new1 ++ new2)%list. split.
    + rewrite T2, T1. now rewrite app_assoc.
    + apply Forall_app. now split.
  - now exists new1.
Qed.

Lemma only_calls_if {A : Type} (cond : bool) (m1 m2 : M W A) :
  only_calls P m1 -> only_calls P m2 -> only_calls P (if cond then m1 else m2).
Proof.
  destruct cond; auto.
Qed.

Lemma only_calls_try_catch {A : Type} (body : M W A) (handler : JsError -> M W A) :
  only_calls P body -> (forall e, only_calls P (handler e)) ->
  only_calls P (try_catch body handler).
Proof.
  intros Hb Hh env. unfold try_catch.
  destruct (Hb env) as [new1 [T1 F1]].
  destruct (body env) as [[a | e0] env1]; simpl in *.
  - now exists new1.
  - destruct (Hh e0 env1) as [new2 [T2 F2]].
    exists (new1 ++ new2)%list. split.
    + rewrite T2, T1. now rewrite app_assoc.
    + apply Forall_app. now split.
Qed.

Lemma only_calls_run {A : Type} (m : M W A) (w : W) :
  only_calls P m -> Forall P (calls_of (run m w)).
Proof.
  intros H. unfold calls_of, run.
  destruct (H {| world := w; trace := [] |}) as [new [T F]].
  rewrite T. simpl. apply Forall_map. exact F.
Qed.

End OnlyCalls.

Ltac only_calls_body :=
  unfold SchemaTools.createTable, SchemaTools.alterTable, SchemaTools.dropTable,
    SchemaTools.listTables, SchemaTools.describeTable,
    Resources.handleListResources, Resources.handleReadResource,
    getDatabaseMetadata, getListTablesQuery, getDescribeTableQuery, dbAll, dbExec;
  repeat (first [ apply only_calls_try_catch; [| intros ? ]
                | apply only_calls_bind; [| intros ? ]
                | apply only_calls_if
                | match goal with |- only_calls _ (let (_, _) := ?p in _) => destruct p end
                | apply only_calls_ret | apply only_calls_throw | apply only_calls_lift
                | apply only_calls_throw_if
                | apply only_calls_perform; simpl; auto ]).

(** The operations that read, listTables, describeTable, handleListResources
    and handleReadResource, never call [dbExec], whatever the database layer
    returns or throws. *)
Theorem readers_never_execute {W Response : Type} (db : DbLayer W)
  (formatSuccessResponse : SchemaTools.Payload -> Response)
  (platform : UrlPlatform) (JSON_stringify : list Resources.ColumnSummary -> string)
  (dbId tableName uri : string) (w : W) :
  Forall (fun c => is_exec c = false)
    (calls_of (run (SchemaTools.listTables db formatSuccessResponse dbId) w))
  /\ Forall (fun c => is_exec c = false)
       (calls_of (run (SchemaTools.describeTable db formatSuccessResponse dbId tableName) w))
  /\ Forall (fun c => is_exec c = false)
       (calls_of (run (Resources.handleListResources db platform dbId) w))
  /\ Forall (fun c => is_exec c = false)
       (calls_of (run (Resources.handleReadResource db platform JSON_stringify dbId uri) w)).
Proof.
  repeat split; apply only_calls_run; only_calls_body.
Qed.

(** Each of the five tools and the two resource handlers addresses no
    database but the one it was given: every call it makes to the database
    layer carries its [dbId]. *)
Theorem calls_address_the_database {W Response : Type} (db : DbLayer W)
  (formatSuccessResponse : SchemaTools.Payload -> Response)
  (platform : UrlPlatform) (JSON_stringify : list Resources.ColumnSummary -> string)
  (dbId query tableName uri : string) (confirm : bool) (w : W) :
  Forall (fun c => call_db c = dbId)
    (calls_of (run (SchemaTools.createTable db formatSuccessResponse dbId query) w))
  /\ Forall (fun c => call_db c = dbId)
       (calls_of (run (SchemaTools.alterTable db formatSuccessResponse dbId query) w))
  /\ Forall (fun c => call_db c = dbId)
       (calls_of (run (SchemaTools.dropTable db formatSuccessResponse dbId tableName confirm) w))
  /\ Forall (fun c => call_db c = dbId)
       (calls_of (run (SchemaTools.listTables db formatSuccessResponse dbId) w))
  /\ Forall (fun c => call_db c = dbId)
       (calls_of (run (SchemaTools.describeTable db formatSuccessResponse dbId tableName) w))
  /\ Forall (fun c => call_db c = dbId)
       (calls_of (run (Resources.handleListResources db platform dbId) w))
  /\ Forall (fun c => call_db c = dbId)
       (calls_of (run (Resources.handleReadResource db platform JSON_stringify dbId uri) w)).
Proof.
  repeat split; apply only_calls_run; only_calls_body.
Qed.

(** ** Failing fast *)

Section Stops.
Context {W : Type}.

Lemma stops_silent {A : Type} (m : M W A) :
  (forall env, snd (m env) = env) -> stops m.
Proof.
  intros H env. exists []. rewrite H, app_nil_r.
  repeat split; try constructor.
Qed.

Lemma stops_throw_if (cond : bool) (msg : string) : stops (@throw_if W cond msg).
Proof.
  apply stops_silent. now destruct cond.
Qed.

Lemma stops_perform {A : Type} (c : Call) (f : W -> outcome A * W) : stops (perform c f).
Proof.
  intros env. unfold perform. destruct (f (world env)) as [o w].
  exists [ {| ev_call := c; ev_thrown := thrown_of o |} ]. simpl.
  repeat split; [constructor |].
  intros a ->. repeat constructor.
Qed.

Lemma stops_bind {A B : Type} (m : M W A) (f : A -> M W B) :
  stops m -> (forall a, stops (f a)) -> stops (bind m f).
Proof.
  intros Hm Hf env. unfold bind.
  destruct (Hm env) as [new1 [T1 [Q1 R1]]].
  destruct (m env) as [[a | e0] env1]; simpl in *.
  - destruct (Hf a env1) as [new2 [T2 [Q2 R2]]].
    specialize (R1 a eq_refl).
    exists (new1 ++ new2)%list. split; [| split].
    + rewrite T2, T1. now rewrite app_assoc.
    + destruct new2 as [| ev new2].
      * rewrite app_nil_r. clear - R1. unfold quiet in *.
        induction R1 as [| x l Hx Hl IH]; [constructor |].
        destruct l; [constructor |]. cbn [removelast]. now constructor.
      * rewrite removelast_app by discriminate. apply Forall_app. now split.
    + intros b Hb. apply Forall_app. split; [exact R1 | now apply (R2 b)].
  - exists new1. repeat split; [exact T1 | exact Q1 | discriminate].
Qed.

Lemma stops_if {A : Type} (cond : bool) (m1 m2 : M W A) :
  stops m1 -> stops m2 -> stops (if cond then m1 else m2).
Proof.
  destruct cond; auto.
Qed.

Lemma stops_try_catch {A : Type} (body : M W A) (rethrown : JsError -> JsError) :
  stops body -> fail_fast (try_catch body (fun error => throw (rethrown error))).
Proof.
  intros Hb w. unfold events_of, run, try_catch.
  destruct (Hb {| world := w; trace := [] |}) as [new [T [Q R]]].
  destruct (body {| world := w; trace := [] |}) as [[a | e0] env1]; simpl in *;
    rewrite T; exact Q.
Qed.

End Stops.

Ltac stops_body :=
  unfold SchemaTools.createTable, SchemaTools.alterTable, SchemaTools.dropTable,
    SchemaTools.listTables, SchemaTools.describeTable,
    Resources.handleListResources, Resources.handleReadResource,
    getDatabaseMetadata, getListTablesQuery, getDescribeTableQuery, dbAll, dbExec;
  apply stops_try_catch;
  repeat (first [ apply stops_bind; [| intros ? ]
                | apply stops_if
                | match goal with |- stops (let (_, _) := ?p in _) => destruct p end
                | apply stops_throw_if
                | apply stops_perform
                | apply stops_silent; reflexivity ]).

(** Each of the five tools and the two resource handlers stops at the first
    call that fails: of the calls it made to the database layer, only the
    last one can have thrown. *)
Theorem operations_fail_fast {W Response : Type} (db : DbLayer W)
  (formatSuccessResponse : SchemaTools.Payload -> Response)
  (platform : UrlPlatform) (JSON_stringify : list Resources.ColumnSummary -> string)
  (dbId query tableName uri : string) (confirm : bool) :
  fail_fast (SchemaTools.createTable db formatSuccessResponse dbId query)
  /\ fail_fast (SchemaTools.alterTable db formatSuccessResponse dbId query)
  /\ fail_fast (SchemaTools.dropTable db formatSuccessResponse dbId tableName confirm)
  /\ fail_fast (SchemaTools.listTables db formatSuccessResponse dbId)
  /\ fail_fast (SchemaTools.describeTable db formatSuccessResponse dbId tableName)
  /\ fail_fast (Resources.handleListResources db platform dbId)
  /\ fail_fast (Resources.handleReadResource db platform JSON_stringify dbId uri).
Proof.
  repeat split; stops_body.
Qed.

(** ** The messages of the errors *)

Lemma prefixed_try_catch {W A : Type} (pre : string) (body : M W A) :
  prefixed pre (try_catch body (fun error => throw (Error (pre ++ message error)))).
Proof.
  intros w e. unfold result_of, run, try_catch.
  destruct (body {| world := w; trace := [] |}) as [[a | e0] env1]; simpl; [discriminate |].
  intros H. inversion H. apply startsWith_app.
Qed.

(** Whatever makes one of the five tools or the two resource handlers fail,
    a refused argument, a URL the platform rejects or a call that throws,
    the message of the error it throws starts with its own prefix. *)
Theorem errors_are_prefixed {W Response : Type} (db : DbLayer W)
  (formatSuccessResponse : SchemaTools.Payload -> Response)
  (platform : UrlPlatform) (JSON_stringify : list Resources.ColumnSummary -> string)
  (dbId query tableName uri : string) (confirm : bool) :
  prefixed "SQL Error: " (SchemaTools.createTable db formatSuccessResponse dbId query)
  /\ prefixed "SQL Error: " (SchemaTools.alterTable db formatSuccessResponse dbId query)
  /\ prefixed "Error dropping table: "
       (SchemaTools.dropTable db formatSuccessResponse dbId tableName confirm)
  /\ prefixed "Error listing tables: " (SchemaTools.listTables db formatSuccessResponse dbId)
  /\ prefixed "Error describing table: "
       (SchemaTools.describeTable db formatSuccessResponse dbId tableName)
  /\ prefixed "Error listing resources: " (Resources.handleListResources db platform dbId)
  /\ prefixed "Error reading resource: "
       (Resources.handleReadResource db platform JSON_stringify dbId uri).
Proof.
  repeat split; apply prefixed_try_catch.
Qed.

Lemma errors_are_prefixed_witness :
  startsWith "Error reading resource: Invalid resource URI" "Error reading resource: " = true.
Proof.
  pose proof (errors_are_prefixed shop_db (fun p : SchemaTools.Payload => p) plain_platform
                (fun _ => EmptyString) "shop" "SELECT 1" "users" "db:///users/columns" true)
    as (_ & _ & _ & _ & _ & _ & H).
  apply (H [] (Error "Error reading resource: Invalid resource URI")).
  reflexivity.
Defined.

(** ** Table names that are not plain *)

Lemma segment_char_facts (c : ascii) :
  segment_char c = true ->
  is_char "/" c = false /\ is_char "?" c = false /\ is_char "#" c = false.
Proof.
  unfold segment_char. intros H.
  apply andb_prop in H. destruct H as [H H3]. apply andb_prop in H. destruct H as [H1 H2].
  apply negb_true_iff in H1, H2, H3. auto.
Qed.

Lemma name_char_facts (c : ascii) :
  name_char c = true ->
  segment_char c = true /\ is_char ":" c = false /\ negb (isTabOrNewline c) = true.
Proof.
  destruct c as [[] [] [] [] [] [] [] []]; intros H; try discriminate H;
    repeat split; reflexivity.
Qed.

Lemma stable_char_facts (c : ascii) :
  stable_char c = true ->
  segment_char c = true /\ path_char c = true
  /\ utf8_percent_encode path_set c = String c EmptyString.
Proof.
  destruct c as [[] [] [] [] [] [] [] []]; intros H; try discriminate H;
    repeat split; reflexivity.
Qed.

(** What percent-encoding leaves of a character that is not [/] is stable. *)
Lemma encoded_stable (c : ascii) :
  is_char "/" c = false -> str_all stable_char (utf8_percent_encode path_set c) = true.
Proof.
  destruct c as [[] [] [] [] [] [] [] []]; intros H; try discriminate H; reflexivity.
Qed.

Lemma percent_encode_stable (t : string) :
  str_all segment_char t = true -> str_all stable_char (percent_encode path_set t) = true.
Proof.
  unfold percent_encode. induction t as [| c t IH]; [reflexivity |].
  cbn [str_all str_flat_map]. intros H. apply andb_prop in H. destruct H as [Hc Ht].
  destruct (segment_char_facts c Hc) as (S & _).
  now rewrite str_all_app, (encoded_stable c S), (IH Ht).
Qed.

Lemma percent_encode_fixed (t : string) :
  str_all stable_char t = true -> percent_encode path_set t = t.
Proof.
  unfold percent_encode. induction t as [| c t IH]; [reflexivity |].
  cbn [str_all str_flat_map]. intros H. apply andb_prop in H. destruct H as [Hc Ht].
  destruct (stable_char_facts c Hc) as (_ & _ & E). now rewrite E, (IH Ht).
Qed.

(** The path state on a segment that a [/] ends, and on the last segment. *)
Lemma path_state_segment_slash (t r buffer : string) (path : list string) :
  str_all segment_char t = true ->
  path_state (t ++ String "/" r) buffer path
  = path_state r EmptyString (push_segment path (buffer ++ percent_encode path_set t) true).
Proof.
  revert buffer. induction t as [| c t IH]; intros buffer H.
  - simpl. now rewrite append_nil_r.
  - cbn [str_all] in H. apply andb_prop in H. destruct H as [Hc Ht].
    destruct (segment_char_facts c Hc) as (S & Q & F).
    cbn [append path_state]. rewrite S, Q, F. cbn [orb]. rewrite (IH _ Ht).
    unfold percent_encode. cbn [str_flat_map]. now rewrite append_assoc.
Qed.

Lemma path_state_segment_end (t buffer : string) (path : list string) :
  str_all segment_char t = true ->
  path_state t buffer path
  = (push_segment path (buffer ++ percent_encode path_set t) false, EmptyString).
Proof.
  revert buffer. induction t as [| c t IH]; intros buffer H.
  - simpl. now rewrite append_nil_r.
  - cbn [str_all] in H. apply andb_prop in H. destruct H as [Hc Ht].
    destruct (segment_char_facts c Hc) as (S & Q & F).
    cbn [append path_state]. rewrite S, Q, F. cbn [orb]. rewrite (IH _ Ht).
    unfold percent_encode. cbn [str_flat_map]. now rewrite append_assoc.
Qed.

Lemma push_segment_kept (path : list string) (s : string) (slash : bool) :
  isSingleDot s = false -> isDoubleDot s = false ->
  push_segment path s slash = (path ++ [s])%list.
Proof.
  unfold push_segment. now intros -> ->.
Qed.

Lemma scheme_state_no_colon (t r buffer : string) :
  str_all name_char t = true -> scheme_state (t ++ String "/" r) buffer = None.
Proof.
  revert buffer. induction t as [| c t IH]; intros buffer H; [reflexivity |].
  cbn [str_all] in H. apply andb_prop in H. destruct H as [Hc Ht].
  destruct (name_char_facts c Hc) as (_ & C & _).
  cbn [append scheme_state]. rewrite C.
  destruct (isAlpha c || isDigit c || is_char "+" c || is_char "-" c || is_char "." c);
    [now apply IH | reflexivity].
Qed.

Lemma scheme_start_state_no_colon (t r : string) :
  str_all name_char t = true -> scheme_start_state (t ++ String "/" r) = None.
Proof.
  destruct t as [| c t]; intros H; [reflexivity |].
  cbn [str_all] in H. apply andb_prop in H. destruct H as [Hc Ht].
  cbn [append scheme_start_state].
  destruct (isAlpha c); [now apply scheme_state_no_colon | reflexivity].
Qed.

Lemma dropEnd_suffix (p : ascii -> bool) (a r : string) :
  r <> EmptyString -> dropEnd p r = r -> dropEnd p (a ++ r) = a ++ r.
Proof.
  intros Hne Hr. induction a as [| c a IH]; [exact Hr |].
  cbn [append dropEnd]. rewrite IH. destruct (a ++ r) eqn:E; [| reflexivity].
  destruct a; [cbn in E; congruence | discriminate].
Qed.

Lemma preprocess_table (t : string) :
  listable t -> preprocess (t ++ "/" ++ "schema") = t ++ "/" ++ "schema".
Proof.
  intros (Hn & (c & r & -> & Hc) & _). unfold preprocess.
  change (String c r ++ "/" ++ "schema") with (String c (r ++ "/schema")).
  rewrite (dropStart_not _ c _ Hc).
  change (String c (r ++ "/schema")) with (String c r ++ "/schema").
  rewrite (dropEnd_suffix _ (String c r) "/schema") by (discriminate || reflexivity).
  apply str_filter_all. rewrite str_all_app.
  rewrite (str_all_impl _ _ _ (fun x Hx => proj2 (proj2 (name_char_facts x Hx))) Hn).
  reflexivity.
Qed.

Section UrlOnNames.
Variable platform : UrlPlatform.

(** A listable table name and "schema" against a base: the last segment of
    the base path is replaced by the name, percent-encoded. *)
Lemma parse_relative_name (table : string) (base : URL) (segments : list string) :
  listable table ->
  url_path base = ListPath segments -> isSpecialScheme (url_scheme base) = false ->
  basic_url_parser platform (table ++ "/" ++ "schema") (Some base)
  = Some (table_url base segments (percent_encode path_set table)).
Proof.
  intros L Hp Hs. unfold basic_url_parser. rewrite (preprocess_table _ L).
  destruct L as (Hn & (c & t & -> & Hc) & D1 & D2).
  assert (Hseg : str_all segment_char (String c t) = true).
  { revert Hn. apply str_all_impl. intros x Hx. now destruct (name_char_facts x Hx). }
  change (String c t ++ "/" ++ "schema") with (String c t ++ String "/" "schema").
  rewrite (scheme_start_state_no_colon _ "schema" Hn).
  unfold no_scheme_state. rewrite Hp, Hs. unfold relative_state.
  assert (Hc' : segment_char c = true) by (cbn [str_all] in Hseg; apply andb_prop in Hseg; tauto).
  destruct (segment_char_facts c Hc') as (S & Q & F).
  cbn [append]. rewrite S, Q, F. unfold path_and_rest.
  change (String c (t ++ String "/" "schema")) with (String c t ++ String "/" "schema").
  rewrite (path_state_segment_slash (String c t) "schema" EmptyString _ Hseg).
  cbn [append]. rewrite (push_segment_kept _ _ true D1 D2).
  rewrite (path_state_segment_end "schema" EmptyString _ eq_refl).
  cbn [append]. change (percent_encode path_set "schema") with "schema".
  rewrite (push_segment_kept _ "schema" false eq_refl eq_refl).
  rewrite <- app_assoc. reflexivity.
Qed.

End UrlOnNames.

Lemma split_none (d : ascii) (s : string) :
  str_all (fun c => negb (is_char d c)) s = true -> split d s = [s].
Proof.
  induction s as [| c s IH]; [reflexivity |].
  cbn [str_all split]. intros H. apply andb_prop in H. destruct H as [Hc Hs].
  apply negb_true_iff in Hc. now rewrite Hc, (IH Hs).
Qed.

(** The two pops of handleReadResource on a path that ends in a segment
    without [/] and "schema". *)
Lemma pops_table_schema (s seg : string) :
  str_all (fun c => negb (is_char "/" c)) seg = true ->
  exists rest rest',
    pop (split "/" (s ++ "/" ++ seg ++ "/schema")) = (Some "schema", rest)
    /\ pop rest = (Some seg, rest').
Proof.
  intros H. exists (split "/" s ++ [seg])%list, (split "/" s).
  change (s ++ "/" ++ seg ++ "/schema") with (s ++ String "/" (seg ++ String "/" "schema")).
  rewrite !split_app, (split_none "/" seg H).
  change (split "/" "schema") with ["schema"]. rewrite app_assoc. now rewrite !pop_last.
Qed.

(** The path state on a text that ends in a stable segment and "schema". *)
Lemma path_state_table_schema (t seg buffer : string) (path : list string) :
  str_all path_char t = true -> str_all stable_char seg = true ->
  isSingleDot seg = false -> isDoubleDot seg = false ->
  exists segments,
    path_state (t ++ "/" ++ seg ++ "/schema") buffer path
    = ((segments ++ [seg; "schema"])%list, EmptyString).
Proof.
  intros Ht Hseg D1 D2.
  assert (Hs : str_all segment_char seg = true).
  { revert Hseg. apply str_all_impl. intros c Hc. now destruct (stable_char_facts c Hc). }
  revert buffer path Ht. induction t as [| c t IH]; intros buffer path H.
  - exists (push_segment path buffer true).
    change (EmptyString ++ "/" ++ seg ++ "/schema") with (String "/" (seg ++ String "/" "schema")).
    cbn [path_state]. change (is_char "/" "/") with true. cbn iota.
    rewrite (path_state_segment_slash seg "schema" EmptyString _ Hs).
    rewrite (path_state_segment_end "schema" EmptyString _ eq_refl).
    cbn [append]. rewrite (percent_encode_fixed _ Hseg).
    change (percent_encode path_set "schema") with "schema".
    rewrite (push_segment_kept _ seg true D1 D2).
    rewrite (push_segment_kept _ "schema" false eq_refl eq_refl). now rewrite <- app_assoc.
  - cbn [str_all] in H. apply andb_prop in H. destruct H as [Hc Ht].
    destruct (path_char_facts c Hc) as (_ & Q & F).
    cbn [append path_state]. rewrite Q, F. cbn [orb].
    destruct (is_char "/" c); now apply IH.
Qed.

Lemma path_state_table_after_slash (t seg rest : string) :
  str_all path_char t = true -> str_all stable_char seg = true ->
  isSingleDot seg = false -> isDoubleDot seg = false ->
  t ++ "/" ++ seg ++ "/schema" = String "/" rest ->
  exists segments,
    path_state rest EmptyString [] = ((segments ++ [seg; "schema"])%list, EmptyString).
Proof.
  intros Ht Hseg D1 D2 E. destruct t as [| c t].
  - inversion E. exists [].
    assert (Hs : str_all segment_char seg = true).
    { revert Hseg. apply str_all_impl. intros c Hc. now destruct (stable_char_facts c Hc). }
    change (seg ++ "/schema") with (seg ++ String "/" "schema").
    rewrite (path_state_segment_slash seg "schema" EmptyString _ Hs).
    rewrite (path_state_segment_end "schema" EmptyString _ eq_refl).
    cbn [append]. rewrite (percent_encode_fixed _ Hseg).
    change (percent_encode path_set "schema") with "schema".
    rewrite (push_segment_kept _ seg true D1 D2).
    rewrite (push_segment_kept _ "schema" false eq_refl eq_refl). reflexivity.
  - inversion E. cbn [str_all] in Ht. apply andb_prop in Ht. destruct Ht as [_ Ht].
    now apply path_state_table_schema.
Qed.

Section RoundTripOfNames.
Variable platform : UrlPlatform.

(** The URL of a table against a well-formed base is, serialized, accepted by
    the parser, and its path ends in the segment of the table and "schema". *)
Lemma table_url_again (u : URL) (segments : list string) (seg : string) :
  well_formed u -> known_scheme (url_scheme u) ->
  url_path u = ListPath segments ->
  str_all stable_char seg = true -> isSingleDot seg = false -> isDoubleDot seg = false ->
  exists v before,
    basic_url_parser platform (href (table_url u segments seg)) None = Some v
    /\ pathname v = before ++ "/" ++ seg ++ "/schema".
Proof.
  intros (host & segments' & Hh & Hp' & Ca & Aa & Ps) K Hp Hseg D1 D2.
  rewrite Hp in Hp'. inversion Hp'. subst segments'. clear Hp'.
  set (authority := serialize_authority (url_username u) (url_password u) host (url_port u)) in *.
  assert (Hs : str_all path_char (serialize_segments (shorten segments)) = true)
    by (apply serialize_segments_chars, Forall_removelast, Ps).
  assert (Hseg' : str_all path_char seg = true).
  { revert Hseg. apply str_all_impl. intros c Hc. now destruct (stable_char_facts c Hc). }
  assert (E : href (table_url u segments seg)
              = url_scheme u ++ "://" ++
                (authority ++ serialize_segments (shorten segments) ++ "/" ++ seg ++ "/schema")).
  { rewrite (href_with_host _ host) by exact Hh. unfold table_url.
    cbn [url_scheme url_username url_password url_port url_path url_query url_fragment
         with_path with_query with_fragment serialize_path].
    fold authority. rewrite serialize_segments_app.
    cbn [serialize_segments]. rewrite !append_nil_r. reflexivity. }
  rewrite E, (parse_known_scheme platform _ _ K), clean_tail_clean.
  2:{ rewrite !str_all_app.
      rewrite (str_all_impl _ _ _ (fun c Hc => proj1 (authority_char_facts c Hc)) Ca).
      rewrite (str_all_impl _ _ _ (fun c Hc => proj1 (path_char_facts c Hc)) Hs).
      rewrite (str_all_impl _ _ _ (fun c Hc => proj1 (path_char_facts c Hc)) Hseg').
      reflexivity. }
  assert (R : exists rest,
             serialize_segments (shorten segments) ++ "/" ++ seg ++ "/schema" = String "/" rest).
  { destruct (shorten segments); eexists; reflexivity. }
  destruct R as [rest R].
  destruct (path_state_table_after_slash _ seg rest Hs Hseg D1 D2 R) as [found F].
  rewrite R. unfold authority_state. rewrite break_at_app.
  - destruct (authority_parts authority) as [[[[username password] h] port] |];
      [| congruence].
    eexists. exists (serialize_segments found). split; [reflexivity |].
    cbn [path_start_state]. change (is_char "?" "/") with false.
    change (is_char "#" "/") with false. change (is_char "/" "/") with true. cbn iota.
    unfold path_and_rest. rewrite F. unfold pathname.
    cbn [query_or_fragment url_path with_path serialize_path].
    rewrite serialize_segments_app. cbn [serialize_segments].
    rewrite !append_nil_r. reflexivity.
  - revert Ca. apply str_all_impl. intros c Hc.
    now destruct (authority_char_facts c Hc) as (_ & A & _).
  - reflexivity.
Qed.

(** The resource listed for a table with a listable name has a URI that
    [new URL] accepts, with a path that ends in the name, percent-encoded,
    and "schema". *)
Lemma listed_resource_again (info : DbInfo) (base : URL) (row : Row) (r : Resources.Resource) :
  URL_new platform (Resources.resourceBaseUrlText info) None = Returned base ->
  listable (row_name row) ->
  Resources.resourceOfRow platform "schema" base row = Returned r ->
  exists v before,
    URL_new platform (Resources.uri r) None = Returned v
    /\ pathname v = before ++ "/" ++ percent_encode path_set (row_name row) ++ "/schema".
Proof.
  intros Hb L Hr.
  destruct (base_text_known info) as (scheme & rest & K & T).
  unfold URL_new in Hb. rewrite T, (parse_known_scheme platform _ _ K) in Hb.
  destruct (authority_state scheme (clean_tail rest)) as [b |] eqn:Eb; [| discriminate].
  inversion Hb. subst b. clear Hb.
  destruct (authority_state_well_formed _ _ _ Eb) as [Wb Sb].
  destruct Wb as (host & segments & Hh & _).
  unfold Resources.resourceOfRow, URL_new in Hr.
  rewrite (href_with_host base host Hh), Sb, (parse_known_scheme platform _ _ K) in Hr.
  match type of Hr with context [authority_state scheme ?t] =>
    destruct (authority_state scheme t) as [parsedBase |] eqn:Ep end;
    [| discriminate].
  destruct (authority_state_well_formed _ _ _ Ep) as [Wp Sp].
  pose proof Wp as (host' & segments' & _ & Hp & _).
  rewrite (parse_relative_name platform (row_name row) parsedBase segments' L) in Hr;
    [| exact Hp
     | rewrite Sp; now destruct (known_scheme_facts scheme K) as (_ & S & _)].
  inversion Hr. cbn [Resources.uri].
  pose proof L as (Hn & _ & D1 & D2).
  assert (Hseg : str_all stable_char (percent_encode path_set (row_name row)) = true).
  { apply percent_encode_stable. revert Hn. apply str_all_impl.
    intros c Hc. now destruct (name_char_facts c Hc). }
  destruct (table_url_again parsedBase segments' (percent_encode path_set (row_name row)) Wp)
    as (v & before & Pv & Pn);
    [now rewrite Sp | exact Hp | exact Hseg | exact D1 | exact D2 |].
  exists v, before. unfold URL_new. now rewrite Pv.
Qed.

End RoundTripOfNames.

(** When handleListResources returns, the URI it lists for a table is read
    back by handleReadResource as the name of the table percent-encoded, not
    as the name: for a name without [/], [?], [#], [:], tab and newline,
    that does not start with a space or a control and is not a dot segment,
    handleReadResource accepts the URI and asks for the describe query of
    the name with the space, the double quote, [<], [>], the backquote, the
    braces, the controls and what is above U+007E replaced by their
    escapes.  A name without such a character is read back as it is.  The
    name has no caret, which not every platform escapes. *)
Theorem listed_uri_reads_encoded_name {W : Type} (db : DbLayer W) (platform : UrlPlatform)
  (JSON_stringify : list Resources.ColumnSummary -> string)
  (dbId query : string) (info : DbInfo) (rows : list Row) (w w1 w2 w3 w' : W)
  (listed : Resources.ListResult) (i : nat) (row : Row) (r : Resources.Resource) :
  ext_getDatabaseMetadata db dbId w = (Returned info, w1) ->
  ext_getListTablesQuery db dbId w1 = (Returned query, w2) ->
  ext_dbAll db dbId query w2 = (Returned rows, w3) ->
  result_of (run (Resources.handleListResources db platform dbId) w) = Returned listed ->
  nth_error rows i = Some row -> listable (row_name row) ->
  caret_free (row_name row) = true ->
  nth_error (Resources.resources listed) i = Some r ->
  hd_error (calls_of (run (Resources.handleReadResource db platform JSON_stringify dbId
                             (Resources.uri r)) w'))
  = Some (GetDescribeTableQuery dbId (Some (percent_encode path_set (row_name row))))
  /\ (str_all stable_char (row_name row) = true ->
      percent_encode path_set (row_name row) = row_name row).
Proof.
  intros Hm Hq Hr Hl Hi L _ Hj. split; [| apply percent_encode_fixed].
  revert Hl. res_unfold. rewrite Hm. simpl.
  destruct (URL_new platform (Resources.resourceBaseUrlText info) None) as [base | e] eqn:Eb;
    simpl; [| discriminate].
  rewrite Hq. simpl. rewrite Hr. simpl.
  destruct (map_throwing (Resources.resourceOfRow platform "schema" base) rows)
    as [mapped | e] eqn:E; simpl; [| discriminate].
  intros H. inversion H. subst listed. simpl in Hj. clear H.
  apply map_throwing_Forall2 in E.
  pose proof (Forall2_nth_error _ _ _ _ _ _ E Hi Hj) as Hrow.
  destruct (listed_resource_again platform info base row r Eb L Hrow)
    as (v & before & Hv & Hp).
  assert (Hs : str_all (fun c => negb (is_char "/" c))
                 (percent_encode path_set (row_name row)) = true).
  { destruct L as (Hn & _).
    assert (S : str_all segment_char (row_name row) = true).
    { revert Hn. apply str_all_impl. intros c Hc. now destruct (name_char_facts c Hc). }
    generalize (percent_encode_stable _ S). apply str_all_impl.
    intros c Hc. destruct (stable_char_facts c Hc) as (G & _).
    destruct (segment_char_facts c G) as (N & _). now rewrite N. }
  destruct (pops_table_schema before _ Hs) as (rest & rest' & P1 & P2).
  pose proof (handleReadResource_guard db platform JSON_stringify dbId (Resources.uri r) v w' Hv)
    as [_ G].
  rewrite Hp, P1 in G. cbn [fst snd] in G. rewrite P2 in G. cbn [fst] in G.
  unfold calls_of, run in G. apply G. reflexivity.
Qed.

Lemma listed_uri_reads_encoded_name_witness :
  hd_error (calls_of (run (Resources.handleReadResource notes_db plain_platform
                             (fun _ => EmptyString) "notes"
                             "sqlite:///meeting%20notes/schema") []))
  = Some (GetDescribeTableQuery "notes" (Some "meeting%20notes"))
  /\ percent_encode path_set "users" = "users".
Proof.
  split.
  - apply (listed_uri_reads_encoded_name notes_db plain_platform (fun _ => EmptyString)
             "notes" list_tables_query (sqlite_info "notes.db")
             [table_row "users"; table_row "meeting notes"] [] [] [] [] []
             {| Resources.resources :=
                  [ schema_resource "sqlite:///" [] "users";
                    {| Resources.uri := "sqlite:///meeting%20notes/schema";
                       Resources.mimeType := "application/json";
                       Resources.name := dquote ++ "meeting notes" ++ dquote
                                         ++ " database schema" |} ] |}
             1 (table_row "meeting notes")
             {| Resources.uri := "sqlite:///meeting%20notes/schema";
                Resources.mimeType := "application/json";
                Resources.name := dquote ++ "meeting notes" ++ dquote ++ " database schema" |}).
    + reflexivity.
    + reflexivity.
    + reflexivity.
    + reflexivity.
    + reflexivity.
    + repeat split; try reflexivity. exists "m"%char, "eeting notes". split; reflexivity.
    + reflexivity.
    + reflexivity.
  - apply (listed_uri_reads_encoded_name notes_db plain_platform (fun _ => EmptyString)
             "notes" list_tables_query (sqlite_info "notes.db")
             [table_row "users"; table_row "meeting notes"] [] [] [] [] []
             {| Resources.resources :=
                  [ schema_resource "sqlite:///" [] "users";
                    {| Resources.uri := "sqlite:///meeting%20notes/schema";
                       Resources.mimeType := "application/json";
                       Resources.name := dquote ++ "meeting notes" ++ dquote
                                         ++ " database schema" |} ] |}
             0 (table_row "users") (schema_resource "sqlite:///" [] "users")).
    + reflexivity.
    + reflexivity.
    + reflexivity.
    + reflexivity.
    + reflexivity.
    + repeat split; try reflexivity. exists "u"%char, "sers". split; reflexivity.
    + reflexivity.
    + reflexivity.
    + reflexivity.
Defined.

(** ** Reading a resource *)

Lemma str_all_dropStart (q p : ascii -> bool) (s : string) :
  str_all q s = true -> str_all q (dropStart p s) = true.
Proof.
  induction s as [| c s IH]; [reflexivity |].
  cbn [dropStart]. destruct (p c); [| easy].
  cbn [str_all]. intros H. apply andb_prop in H. now apply IH.
Qed.

Lemma str_all_dropEnd (q p : ascii -> bool) (s : string) :
  str_all q s = true -> str_all q (dropEnd p s) = true.
Proof.
  induction s as [| c s IH]; [reflexivity |].
  cbn [str_all dropEnd]. intros H. apply andb_prop in H. destruct H as [Hc Hs].
  specialize (IH Hs). destruct (dropEnd p s) as [| d r].
  - destruct (p c); [reflexivity |]. cbn [str_all]. now rewrite Hc.
  - cbn [str_all] in *. now rewrite Hc.
Qed.

Lemma str_all_filter (q p : ascii -> bool) (s : string) :
  str_all q s = true -> str_all q (str_filter p s) = true.
Proof.
  induction s as [| c s IH]; [reflexivity |].
  cbn [str_all str_filter]. intros H. apply andb_prop in H. destruct H as [Hc Hs].
  destruct (p c); [cbn [str_all]; now rewrite Hc, IH | now apply IH].
Qed.

Lemma scheme_state_without_colon (s buffer : string) :
  str_all (fun c => negb (is_char ":" c)) s = true -> scheme_state s buffer = None.
Proof.
  revert buffer. induction s as [| c s IH]; intros buffer H; [reflexivity |].
  cbn [str_all] in H. apply andb_prop in H. destruct H as [Hc Hs].
  apply negb_true_iff in Hc. cbn [scheme_state]. rewrite Hc.
  destruct (isAlpha c || isDigit c || is_char "+" c || is_char "-" c || is_char "." c);
    [now apply IH | reflexivity].
Qed.

(** [new URL] on a text without a colon, and no base. *)
Lemma URL_new_without_colon (platform : UrlPlatform) (input : string) :
  str_all (fun c => negb (is_char ":" c)) input = true ->
  URL_new platform input None = Thrown (Error "Invalid URL").
Proof.
  intros H. unfold URL_new, basic_url_parser.
  assert (P : str_all (fun c => negb (is_char ":" c)) (preprocess input) = true)
    by now apply str_all_filter, str_all_dropEnd, str_all_dropStart.
  destruct (preprocess input) as [| c r]; [reflexivity |].
  cbn [scheme_start_state]. cbn [str_all] in P. apply andb_prop in P. destruct P as [_ P].
  destruct (isAlpha c); [| reflexivity].
  now rewrite (scheme_state_without_colon _ _ P).
Qed.

Section ReadingResources.
Context {W : Type}.
Variable db : DbLayer W.
Variable platform : UrlPlatform.
Variable JSON_stringify : list Resources.ColumnSummary -> string.

(** handleReadResource on a URI without a colon, a path or a bare table
    name, throws "Error reading resource: Invalid URL" and makes no call. *)
Theorem handleReadResource_without_scheme (dbId uri : string) (w : W) :
  str_all (fun c => negb (is_char ":" c)) uri = true ->
  run (Resources.handleReadResource db platform JSON_stringify dbId uri) w
  = (Thrown (Error "Error reading resource: Invalid URL"), {| world := w; trace := [] |}).
Proof.
  intros H. res_unfold. now rewrite (URL_new_without_colon platform uri H).
Qed.

(** handleReadResource on a URI that parses to a path ending in a segment
    and "schema": whatever the scheme, the authority, the query, the
    fragment and the segments before, it asks for the describe query of the
    segment, runs it, and returns one content with the URI as it was given,
    the type "application/json" and as text the JSON of the rows, each
    reduced to its name as [column_name] and its type as [data_type], in
    the order of the rows. *)
Theorem handleReadResource_contents
  (dbId uri before table descQuery : string) (u : URL) (columns : list Row) (w w1 w2 : W) :
  URL_new platform uri None = Returned u ->
  pathname u = before ++ "/" ++ table ++ "/schema" ->
  str_all (fun c => negb (is_char "/" c)) table = true ->
  ext_getDescribeTableQuery db dbId (Some table) w = (Returned descQuery, w1) ->
  ext_dbAll db dbId descQuery w1 = (Returned columns, w2) ->
  run (Resources.handleReadResource db platform JSON_stringify dbId uri) w
  = (Returned {| Resources.contents :=
                   [ {| Resources.content_uri := uri;
                        Resources.content_mimeType := "application/json";
                        Resources.text :=
                          JSON_stringify
                            (map (fun column =>
                                    {| Resources.column_name := row_name column;
                                       Resources.data_type := row_type column |}) columns) |} ] |},
     {| world := w2;
        trace := [event (GetDescribeTableQuery dbId (Some table));
                  event (DbAll dbId descQuery)] |}).
Proof.
  intros Hu Hp Ht Hq Hc.
  destruct (pops_table_schema before table Ht) as (rest & rest' & P1 & P2).
  res_unfold. rewrite Hu. simpl. rewrite Hp, P1, P2. simpl.
  rewrite Hq. simpl. rewrite Hc. reflexivity.
Qed.

(** The calls of the resource handlers, whatever the database layer does:
    handleListResources asks for the metadata, then for the listing query,
    then runs it, and stops where one of them or [new URL] throws;
    handleReadResource asks for a describe query, then runs it.  Neither
    makes another call: handleReadResource does not look the table up in
    the listing. *)
Theorem resource_handlers_calls (dbId uri : string) (w : W) :
  (exists query k,
     calls_of (run (Resources.handleListResources db platform dbId) w)
     = firstn k [GetDatabaseMetadata dbId; GetListTablesQuery dbId; DbAll dbId query])
  /\ (exists tableName query k,
        calls_of (run (Resources.handleReadResource db platform JSON_stringify dbId uri) w)
        = firstn k [GetDescribeTableQuery dbId tableName; DbAll dbId query]).
Proof.
  split.
  - res_unfold.
    destruct (ext_getDatabaseMetadata db dbId w) as [[info | e] w1]; simpl;
      [| now exists EmptyString, 1%nat].
    destruct (URL_new platform (Resources.resourceBaseUrlText info) None) as [base | e]; simpl;
      [| now exists EmptyString, 1%nat].
    destruct (ext_getListTablesQuery db dbId w1) as [[query | e] w2]; simpl;
      [| now exists EmptyString, 2%nat].
    exists query, 3%nat.
    destruct (ext_dbAll db dbId query w2) as [[rows | e] w3]; simpl; [| reflexivity].
    destruct (map_throwing (Resources.resourceOfRow platform "schema" base) rows);
      reflexivity.
  - res_unfold.
    destruct (URL_new platform uri None) as [u | e]; simpl;
      [| now exists None, EmptyString, 0%nat].
    destruct (pop (split "/" (pathname u))) as [schema rest].
    destruct (pop rest) as [tableName rest']. exists tableName.
    destruct (Resources.differs schema "schema"); simpl;
      [now exists EmptyString, 0%nat |].
    destruct (ext_getDescribeTableQuery db dbId tableName w) as [[query | e] w1]; simpl;
      [| now exists EmptyString, 1%nat].
    exists query, 2%nat.
    destruct (ext_dbAll db dbId query w1) as [[rows | e] w2]; reflexivity.
Qed.

End ReadingResources.

Lemma handleReadResource_without_scheme_witness :
  run (Resources.handleReadResource shop_db plain_platform (fun _ => EmptyString)
         "shop" "users/schema") []
  = (Thrown (Error "Error reading resource: Invalid URL"), {| world := []; trace := [] |}).
Proof.
  apply (handleReadResource_without_scheme shop_db plain_platform (fun _ => EmptyString)
           "shop" "users/schema" []).
  reflexivity.
Defined.

Lemma handleReadResource_contents_witness :
  run (Resources.handleReadResource shop_db plain_platform
         (fun summaries => concat "," (map Resources.column_name summaries))
         "shop" "other://host:8080/a/b/users/schema?x=1#top") []
  = (Returned {| Resources.contents :=
                   [ {| Resources.content_uri := "other://host:8080/a/b/users/schema?x=1#top";
                        Resources.content_mimeType := "application/json";
                        Resources.text := "id,email" |} ] |},
     {| world := [];
        trace := [event (GetDescribeTableQuery "shop" (Some "users"));
                  event (DbAll "shop" "PRAGMA table_info(users)")] |}).
Proof.
  apply (handleReadResource_contents shop_db plain_platform
           (fun summaries => concat "," (map Resources.column_name summaries))
           "shop" "other://host:8080/a/b/users/schema?x=1#top" "/a/b" "users"
           "PRAGMA table_info(users)"
           {| url_scheme := "other"; url_username := EmptyString; url_password := EmptyString;
              url_host := Some "host"; url_port := Some 8080%N;
              url_path := ListPath ["a"; "b"; "users"; "schema"];
              url_query := Some "x=1"; url_fragment := Some "top" |}
           [id_column; email_column] [] [] []).
  - reflexivity.
  - reflexivity.
  - reflexivity.
  - reflexivity.
  - reflexivity.
Defined.

(** ** When the listing returns *)

Lemma clean_tail_prefix (a s : string) :
  str_all (fun c => negb (isC0ControlOrSpace c)) a = true ->
  clean_tail (a ++ s) = a ++ clean_tail s.
Proof.
  intros H. unfold clean_tail. rewrite (dropEnd_prefix _ _ _ H), str_filter_app.
  rewrite (str_filter_all _ a); [reflexivity |].
  revert H. apply str_all_impl. exact not_tab_newline.
Qed.

Lemma clean_tail_end (c : ascii) (r : string) :
  isAuthorityEnd c = true -> clean_tail (String c r) = String c (clean_tail r).
Proof.
  intros H.
  assert (F : isC0ControlOrSpace c = false /\ isTabOrNewline c = false)
    by (destruct c as [[] [] [] [] [] [] [] []]; try discriminate H; split; reflexivity).
  destruct F as [F1 F2]. unfold clean_tail.
  rewrite (dropEnd_cons _ c r F1). cbn [str_filter]. now rewrite F2.
Qed.

Lemma break_at_all (p : ascii -> bool) (a : string) :
  str_all (fun c => negb (p c)) a = true -> break_at p a = (a, EmptyString).
Proof.
  induction a as [| x a IH]; [reflexivity |].
  cbn [str_all break_at]. intros H. apply andb_prop in H. destruct H as [Hx Ha].
  apply negb_true_iff in Hx. now rewrite Hx, (IH Ha).
Qed.

(** What follows the authority in a serialized URL is empty or starts with
    [/], [?] or [#]. *)
Lemma after_authority (segments : list string) (query fragment : option string) :
  let rest := serialize_segments segments ++
              match query with Some q => "?" ++ q | None => EmptyString end ++
              match fragment with Some f => "#" ++ f | None => EmptyString end in
  rest = EmptyString \/ exists c r, rest = String c r /\ isAuthorityEnd c = true.
Proof.
  destruct segments as [| s l]; [| right; eexists _, _; split; reflexivity].
  destruct query as [q |]; [right; eexists _, _; split; reflexivity |].
  destruct fragment as [f |]; [right; eexists _, _; split; reflexivity |].
  now left.
Qed.

Section ListingReturns.
Variable platform : UrlPlatform.

(** A well-formed URL, serialized, is accepted by the parser. *)
Lemma href_parses (u : URL) :
  well_formed u -> known_scheme (url_scheme u) ->
  exists v, basic_url_parser platform (href u) None = Some v
            /\ well_formed v /\ url_scheme v = url_scheme u.
Proof.
  intros (host & segments & Hh & Hp & Ca & Aa & Ps) K.
  rewrite (href_with_host u host Hh), Hp, (parse_known_scheme platform _ _ K).
  set (authority := serialize_authority (url_username u) (url_password u) host (url_port u)) in *.
  cbn [serialize_path].
  assert (Cl : str_all (fun c => negb (isC0ControlOrSpace c)) authority = true).
  { revert Ca. apply str_all_impl. intros c Hc. now destruct (authority_char_facts c Hc). }
  assert (Ce : str_all (fun c => negb (isAuthorityEnd c)) authority = true).
  { revert Ca. apply str_all_impl. intros c Hc.
    now destruct (authority_char_facts c Hc) as (_ & A & _). }
  rewrite (clean_tail_prefix _ _ Cl).
  assert (B : exists remaining,
             break_at isAuthorityEnd
               (authority ++
                clean_tail (serialize_segments segments ++
                            match url_query u with Some q => "?" ++ q | None => EmptyString end ++
                            match url_fragment u with Some f => "#" ++ f | None => EmptyString end))
             = (authority, remaining)).
  { destruct (after_authority segments (url_query u) (url_fragment u)) as [E | (c & r & E & Hc)];
      rewrite E.
    - exists EmptyString. change (clean_tail EmptyString) with EmptyString.
      rewrite append_nil_r. now apply break_at_all.
    - exists (String c (clean_tail r)). rewrite (clean_tail_end c r Hc).
      now apply break_at_app. }
  destruct B as [remaining B].
  destruct (authority_state (url_scheme u) _) as [v |] eqn:E.
  - exists v. split; [reflexivity |]. now apply authority_state_well_formed in E.
  - exfalso. unfold authority_state in E. rewrite B in E.
    destruct (authority_parts authority) as [[[[username password] h] port] |];
      [discriminate | congruence].
Qed.

(** The parsed base text of [handleListResources] is well formed. *)
Lemma base_well_formed (info : DbInfo) (base : URL) :
  URL_new platform (Resources.resourceBaseUrlText info) None = Returned base ->
  well_formed base /\ known_scheme (url_scheme base).
Proof.
  intros Hb. destruct (base_text_known info) as (scheme & rest & K & T).
  unfold URL_new in Hb. rewrite T, (parse_known_scheme platform _ _ K) in Hb.
  destruct (authority_state scheme (clean_tail rest)) as [b |] eqn:Eb; [| discriminate].
  inversion Hb. subst b. destruct (authority_state_well_formed _ _ _ Eb) as [Wb Sb].
  split; [exact Wb | now rewrite Sb].
Qed.

(** The resource of a table with a listable name, against a base that the
    parser accepts again as [parsedBase]. *)
Lemma resourceOfRow_listable (base parsedBase : URL) (segments : list string) (row : Row) :
  basic_url_parser platform (href base) None = Some parsedBase ->
  url_path parsedBase = ListPath segments ->
  isSpecialScheme (url_scheme parsedBase) = false ->
  listable (row_name row) ->
  Resources.resourceOfRow platform "schema" base row
  = Returned {| Resources.uri :=
                  href (table_url parsedBase segments (percent_encode path_set (row_name row)));
                Resources.mimeType := "application/json";
                Resources.name := dquote ++ row_name row ++ dquote ++ " database schema" |}.
Proof.
  intros Hb Hp Hs L. unfold Resources.resourceOfRow, URL_new. rewrite Hb.
  now rewrite (parse_relative_name platform (row_name row) parsedBase segments L Hp Hs).
Qed.

End ListingReturns.

Section ListingReturnsRun.
Context {W : Type}.
Variable db : DbLayer W.
Variable platform : UrlPlatform.

(** The run of handleListResources on listable names. *)
Lemma listing_of_listable_names
  (dbId query : string) (info : DbInfo) (base : URL) (rows : list Row) (w w1 w2 w3 : W) :
  ext_getDatabaseMetadata db dbId w = (Returned info, w1) ->
  ext_getListTablesQuery db dbId w1 = (Returned query, w2) ->
  ext_dbAll db dbId query w2 = (Returned rows, w3) ->
  URL_new platform (Resources.resourceBaseUrlText info) None = Returned base ->
  Forall (fun row => listable (row_name row)) rows ->
  exists parsedBase segments,
    URL_new platform (href base) None = Returned parsedBase
    /\ url_path parsedBase = ListPath segments
    /\ run (Resources.handleListResources db platform dbId) w
       = (Returned
            {| Resources.resources :=
                 map (fun row =>
                        {| Resources.uri :=
                             href (table_url parsedBase segments
                                     (percent_encode path_set (row_name row)));
                           Resources.mimeType := "application/json";
                           Resources.name := dquote ++ row_name row ++ dquote
                                             ++ " database schema" |}) rows |},
          {| world := w3;
             trace := [event (GetDatabaseMetadata dbId); event (GetListTablesQuery dbId);
                       event (DbAll dbId query)] |}).
Proof.
  intros Hm Hq Hr Hb Hrows.
  destruct (base_well_formed platform info base Hb) as [Wb K].
  destruct (href_parses platform base Wb K) as (parsedBase & Hp & Wp & Sp).
  pose proof Wp as (host & segments & _ & Hsegs & _).
  assert (Hs : isSpecialScheme (url_scheme parsedBase) = false).
  { rewrite Sp. now destruct (known_scheme_facts _ K) as (_ & S & _). }
  exists parsedBase, segments. split; [unfold URL_new; now rewrite Hp |].
  split; [exact Hsegs |].
  res_unfold. rewrite Hm. simpl. rewrite Hb. simpl. rewrite Hq. simpl. rewrite Hr. simpl.
  rewrite (map_throwing_map _
             (fun row =>
                {| Resources.uri :=
                     href (table_url parsedBase segments (percent_encode path_set (row_name row)));
                   Resources.mimeType := "application/json";
                   Resources.name := dquote ++ row_name row ++ dquote ++ " database schema" |})).
  - reflexivity.
  - revert Hrows. apply Forall_impl. intros row L.
    now apply resourceOfRow_listable.
Qed.


(** handleListResources returns when the three calls return, [new URL]
    accepts the base text, and every table name is listable: it fails on no
    such name.  [new URL] accepts the base again, as [parsedBase], and the
    URI of each table is [parsedBase] with the last segment of its path
    replaced by the name, percent-encoded, and "schema", without query and
    fragment; the resources are in the order of the rows.  The base text
    and the names have no caret, which not every platform escapes. *)
Theorem handleListResources_returns
  (dbId query : string) (info : DbInfo) (base : URL) (rows : list Row) (w w1 w2 w3 : W) :
  ext_getDatabaseMetadata db dbId w = (Returned info, w1) ->
  ext_getListTablesQuery db dbId w1 = (Returned query, w2) ->
  ext_dbAll db dbId query w2 = (Returned rows, w3) ->
  URL_new platform (Resources.resourceBaseUrlText info) None = Returned base ->
  caret_free (Resources.resourceBaseUrlText info) = true ->
  Forall (fun row => listable (row_name row) /\ caret_free (row_name row) = true) rows ->
  exists parsedBase segments,
    URL_new platform (href base) None = Returned parsedBase
    /\ url_path parsedBase = ListPath segments
    /\ run (Resources.handleListResources db platform dbId) w
       = (Returned
            {| Resources.resources :=
                 map (fun row =>
                        {| Resources.uri :=
                             href (table_url parsedBase segments
                                     (percent_encode path_set (row_name row)));
                           Resources.mimeType := "application/json";
                           Resources.name := dquote ++ row_name row ++ dquote
                                             ++ " database schema" |}) rows |},
          {| world := w3;
             trace := [event (GetDatabaseMetadata dbId); event (GetListTablesQuery dbId);
                       event (DbAll dbId query)] |}).
Proof.
  intros Hm Hq Hr Hb _ Hrows.
  apply (listing_of_listable_names dbId query info base rows w w1 w2 w3 Hm Hq Hr Hb).
  revert Hrows. apply Forall_impl. now intros row [L _].
Qed.

(** The base text of a file-based database is accepted by [new URL]
    whatever the path, with an empty host. *)
Lemma file_based_base (info : DbInfo) :
  fileBased info = true ->
  exists base, URL_new platform (Resources.resourceBaseUrlText info) None = Returned base
               /\ url_scheme base = "sqlite" /\ url_host base = Some EmptyString.
Proof.
  intros F. unfold Resources.resourceBaseUrlText. unfold fileBased in F. rewrite F.
  unfold URL_new.
  change ("sqlite:///" ++ text_of (db_path info))
    with ("sqlite" ++ "://" ++ String "/" (text_of (db_path info))).
  rewrite (parse_known_scheme platform "sqlite" _ (or_introl eq_refl)).
  rewrite (clean_tail_end "/" _ eq_refl).
  unfold authority_state. cbn [break_at]. change (isAuthorityEnd "/") with true. cbn iota.
  change (authority_parts EmptyString)
    with (Some (EmptyString, EmptyString, EmptyString, @None N)).
  cbn iota. eexists. split; [reflexivity |].
  match goal with |- context [path_start_state ?u0 ?r] =>
    destruct (path_start_state_frame u0 r eq_refl) as (A & _ & _ & D & _) end.
  now rewrite A, D.
Qed.

(** A SQLite database with a path, whatever the path: [new URL] never
    rejects the base, so handleListResources returns whenever the three calls
    return and every table name is listable, with one resource for each row,
    named after it, in the order of the rows. *)
Theorem file_based_listing_returns
  (dbId query : string) (info : DbInfo) (rows : list Row) (w w1 w2 w3 : W) :
  ext_getDatabaseMetadata db dbId w = (Returned info, w1) ->
  ext_getListTablesQuery db dbId w1 = (Returned query, w2) ->
  ext_dbAll db dbId query w2 = (Returned rows, w3) ->
  db_type info = "sqlite" -> present (db_path info) = true ->
  Forall (fun row => listable (row_name row)) rows ->
  exists listed,
    result_of (run (Resources.handleListResources db platform dbId) w) = Returned listed
    /\ map Resources.name (Resources.resources listed)
       = map (fun row => dquote ++ row_name row ++ dquote ++ " database schema") rows.
Proof.
  intros Hm Hq Hr Ht Hp Hrows.
  assert (F : fileBased info = true) by (unfold fileBased; now rewrite Ht, Hp).
  destruct (file_based_base info F) as (base & Hb & _).
  destruct (listing_of_listable_names dbId query info base rows w w1 w2 w3 Hm Hq Hr Hb Hrows)
    as (parsedBase & segments & _ & _ & R).
  eexists. unfold result_of. rewrite R. split; [reflexivity |].
  cbn [Resources.resources]. rewrite map_map. reflexivity.
Qed.

End ListingReturnsRun.

Lemma handleListResources_returns_witness :
  exists parsedBase segments,
    URL_new plain_platform "sqlite:///notes.db" None = Returned parsedBase
    /\ url_path parsedBase = ListPath segments
    /\ run (Resources.handleListResources notes_db plain_platform "notes") []
       = (Returned
            {| Resources.resources :=
                 map (fun row =>
                        {| Resources.uri :=
                             href (table_url parsedBase segments
                                     (percent_encode path_set (row_name row)));
                           Resources.mimeType := "application/json";
                           Resources.name := dquote ++ row_name row ++ dquote
                                             ++ " database schema" |})
                   [table_row "users"; table_row "meeting notes"] |},
          {| world := [];
             trace := [event (GetDatabaseMetadata "notes"); event (GetListTablesQuery "notes");
                       event (DbAll "notes" list_tables_query)] |}).
Proof.
  apply (handleListResources_returns notes_db plain_platform "notes" list_tables_query
           (sqlite_info "notes.db")
           (host_url "sqlite" EmptyString ["notes.db"])
           [table_row "users"; table_row "meeting notes"] [] [] [] []).
  - reflexivity.
  - reflexivity.
  - reflexivity.
  - reflexivity.
  - reflexivity.
  - repeat constructor; try reflexivity.
    + exists "u"%char, "sers". split; reflexivity.
    + exists "m"%char, "eeting notes". split; reflexivity.
Defined.

Lemma file_based_listing_returns_witness :
  exists listed,
    result_of (run (Resources.handleListResources
                      (double (sqlite_info "C:\data files\notes.db?mode=ro")
                         [table_row "meeting notes"] [] None)
                      plain_platform "notes") [])
    = Returned listed
    /\ map Resources.name (Resources.resources listed)
       = map (fun row => dquote ++ row_name row ++ dquote ++ " database schema")
           [table_row "meeting notes"].
Proof.
  apply (file_based_listing_returns
           (double (sqlite_info "C:\data files\notes.db?mode=ro")
              [table_row "meeting notes"] [] None)
           plain_platform "notes" list_tables_query
           (sqlite_info "C:\data files\notes.db?mode=ro")
           [table_row "meeting notes"] [] [] [] []).
  - reflexivity.
  - reflexivity.
  - reflexivity.
  - reflexivity.
  - reflexivity.
  - repeat constructor; try reflexivity.
    exists "m"%char, "eeting notes". split; reflexivity.
Defined.

(** ** Server names that are not host names *)

Lemma server_char_facts (c : ascii) :
  plain_char c || unusable_in_host c = true ->
  negb (isAuthorityEnd c) = true /\ negb (is_char "@" c) = true
  /\ negb (is_char ":" c) && negb (is_char "[" c) && negb (is_char "]" c) = true
  /\ negb (isTabOrNewline c) = true.
Proof.
  destruct c as [[] [] [] [] [] [] [] []]; intros H; try discriminate H;
    repeat split; reflexivity.
Qed.

Lemma unusable_forbidden (c : ascii) :
  unusable_in_host c = true -> isForbiddenHost c = true.
Proof.
  destruct c as [[] [] [] [] [] [] [] []]; intros H; try discriminate H; reflexivity.
Qed.

Lemma str_any_impl (p q : ascii -> bool) (s : string) :
  (forall c, p c = true -> q c = true) -> str_any p s = true -> str_any q s = true.
Proof.
  intros Hpq. unfold str_any. induction s as [| c s IH]; [easy |].
  cbn [str_all]. destruct (p c) eqn:Hp.
  - now rewrite (Hpq c Hp).
  - cbn [negb andb]. intros H. specialize (IH H).
    destruct (q c); [reflexivity | exact IH].
Qed.

Lemma dropEnd_app_kept (p : ascii -> bool) (a r : string) :
  dropEnd p r <> EmptyString -> dropEnd p (a ++ r) = a ++ dropEnd p r.
Proof.
  intros Hne. induction a as [| c a IH]; [reflexivity |].
  cbn [append dropEnd]. rewrite IH. destruct (a ++ dropEnd p r) eqn:E; [| reflexivity].
  destruct a; [cbn in E; congruence | discriminate].
Qed.

Lemma clean_tail_server (server rest : string) :
  str_all (fun c => plain_char c || unusable_in_host c) server = true ->
  clean_tail (server ++ String "/" rest) = server ++ String "/" (clean_tail rest).
Proof.
  intros H. unfold clean_tail.
  rewrite dropEnd_app_kept by (rewrite (dropEnd_cons _ "/" rest eq_refl); discriminate).
  rewrite (dropEnd_cons _ "/" rest eq_refl), str_filter_app.
  rewrite (str_filter_all _ server); [reflexivity |].
  revert H. apply str_all_impl. intros c Hc.
  now destruct (server_char_facts c Hc) as (_ & _ & _ & T).
Qed.

Lemma authority_parts_unusable (server : string) :
  str_all (fun c => plain_char c || unusable_in_host c) server = true ->
  str_any unusable_in_host server = true ->
  authority_parts server = None.
Proof.
  intros H B. unfold authority_parts.
  rewrite split_last_none.
  2:{ revert H. apply str_all_impl. intros c Hc.
      now destruct (server_char_facts c Hc) as (_ & A & _). }
  cbn [andb break_at]. unfold host_and_port.
  rewrite host_state_no_colon.
  2:{ revert H. apply str_all_impl. intros c Hc.
      now destruct (server_char_facts c Hc) as (_ & _ & C & _). }
  cbn [append].
  assert (O : opaque_host_parser server = None).
  { unfold opaque_host_parser.
    now rewrite (str_any_impl _ _ _ unusable_forbidden B). }
  assert (P : host_parser server = None).
  { destruct server as [| c r]; [exact O |].
    cbn [str_all] in H. apply andb_prop in H. destruct H as [Hc _].
    destruct (server_char_facts c Hc) as (_ & _ & C & _).
    apply andb_prop in C. destruct C as [C _]. apply andb_prop in C. destruct C as [_ C].
    apply negb_true_iff in C. unfold host_parser. rewrite C. exact O. }
  now rewrite P.
Qed.

Section UnusableServers.
Context {W : Type}.
Variable db : DbLayer W.
Variable platform : UrlPlatform.

(** A SQL Server database whose server name has a space (or NUL, [<], [>],
    a backslash, [^] or [|]) among plain characters: [new URL] rejects the
    base, and handleListResources throws "Error listing resources: Invalid
    URL" after the call for the metadata, without listing the tables. *)
Theorem client_server_listing_rejects_server
  (dbId server database : string) (info : DbInfo) (w w1 : W) :
  ext_getDatabaseMetadata db dbId w = (Returned info, w1) ->
  db_type info = "sqlserver" ->
  db_server info = Some server -> db_database info = Some database ->
  database <> EmptyString ->
  str_all (fun c => plain_char c || unusable_in_host c) server = true ->
  str_any unusable_in_host server = true ->
  run (Resources.handleListResources db platform dbId) w
  = (Thrown (Error "Error listing resources: Invalid URL"),
     {| world := w1; trace := [event (GetDatabaseMetadata dbId)] |}).
Proof.
  intros Hm Ht Hs Hd Hne Hc Hb.
  assert (Sne : server <> EmptyString) by (intros ->; discriminate Hb).
  assert (T : Resources.resourceBaseUrlText info
              = "sqlserver" ++ "://" ++ (server ++ String "/" database)).
  { unfold Resources.resourceBaseUrlText. rewrite Ht, Hs, Hd. cbn [String.eqb Ascii.eqb Bool.eqb andb].
    unfold present. rewrite (nonEmpty_true _ Sne), (nonEmpty_true _ Hne).
    cbn [andb text_of]. reflexivity. }
  assert (U : URL_new platform (Resources.resourceBaseUrlText info) None
              = Thrown (Error "Invalid URL")).
  { unfold URL_new. rewrite T.
    rewrite (parse_known_scheme platform "sqlserver" _ (or_intror (or_introl eq_refl))).
    rewrite (clean_tail_server _ _ Hc). unfold authority_state.
    rewrite break_at_app.
    - now rewrite (authority_parts_unusable server Hc Hb).
    - revert Hc. apply str_all_impl. intros c H.
      now destruct (server_char_facts c H) as (A & _).
    - reflexivity. }
  res_unfold. rewrite Hm. simpl. rewrite U. reflexivity.
Qed.

End UnusableServers.

Lemma client_server_listing_rejects_server_witness :
  run (Resources.handleListResources
         (double (sqlserver_info "my server" "shop") [table_row "users"] [] None)
         plain_platform "shop") []
  = (Thrown (Error "Error listing resources: Invalid URL"),
     {| world := []; trace := [event (GetDatabaseMetadata "shop")] |}).
Proof.
  apply (client_server_listing_rejects_server
           (double (sqlserver_info "my server" "shop") [table_row "users"] [] None)
           plain_platform "shop" "my server" "shop" (sqlserver_info "my server" "shop") [] []).
  - reflexivity.
  - reflexivity.
  - reflexivity.
  - reflexivity.
  - discriminate.
  - reflexivity.
  - reflexivity.
Defined.

(** ** What createTable and alterTable refuse *)

Lemma startsWith_split (s pre : string) :
  startsWith s pre = true -> exists rest, s = pre ++ rest.
Proof.
  unfold startsWith. revert s. induction pre as [| c pre IH]; intros s H.
  - now exists s.
  - destruct s as [| d s]; [discriminate |]. cbn [prefix] in H.
    destruct (ascii_dec c d) as [-> |]; [| discriminate].
    destruct (IH s H) as [rest ->]. now exists rest.
Qed.

Lemma toLowerCase_split (s a b : string) :
  toLowerCase s = a ++ b ->
  exists sa sb, s = sa ++ sb /\ toLowerCase sa = a /\ toLowerCase sb = b.
Proof.
  revert s. induction a as [| c a IH]; intros s H.
  - now exists EmptyString, s.
  - destruct s as [| d s]; [discriminate |]. cbn [toLowerCase append] in H.
    inversion H as [[Hc Hs]]. destruct (IH s Hs) as (sa & sb & -> & Ha & Hb).
    exists (String d sa), sb. cbn [toLowerCase append]. now rewrite Ha, Hb.
Qed.

Lemma dropStart_split (p : ascii -> bool) (s : string) :
  exists ws, s = ws ++ dropStart p s /\ str_all p ws = true.
Proof.
  induction s as [| c s (ws & E & Hws)]; [now exists EmptyString |].
  cbn [dropStart]. destruct (p c) eqn:Hc.
  - exists (String c ws). cbn [append str_all]. rewrite Hc, Hws, <- E. split; reflexivity.
  - now exists EmptyString.
Qed.

Lemma dropEnd_split (p : ascii -> bool) (s : string) :
  exists ws, s = dropEnd p s ++ ws /\ str_all p ws = true.
Proof.
  induction s as [| c s (ws & E & Hws)]; [now exists EmptyString |].
  cbn [dropEnd]. destruct (dropEnd p s) as [| d r].
  - destruct (p c) eqn:Hc.
    + exists (String c ws). cbn [append str_all]. cbn [append] in E.
      subst s. rewrite Hc, Hws. split; reflexivity.
    + exists ws. cbn [append] in *. subst s. split; [reflexivity | exact Hws].
  - exists ws. cbn [append] in *. rewrite <- E. split; [reflexivity | exact Hws].
Qed.

(** The queries that pass the guard on [pre]. *)
Lemma guard_passed (pre query : string) :
  startsWith (toLowerCase (trim query)) pre = true ->
  exists ws head rest,
    query = ws ++ head ++ rest /\ str_all isWhiteSpace ws = true /\ toLowerCase head = pre.
Proof.
  intros H. apply startsWith_split in H. destruct H as [lowered H].
  apply toLowerCase_split in H. destruct H as (head & r & H & Hh & _).
  unfold trim in H.
  destruct (dropStart_split isWhiteSpace query) as (ws & E1 & Hws).
  destruct (dropEnd_split isWhiteSpace (dropStart isWhiteSpace query)) as (ws' & E2 & _).
  exists ws, head, (r ++ ws'). repeat split; [| exact Hws | exact Hh].
  rewrite E1 at 1. rewrite E2 at 1. rewrite H. now rewrite append_assoc.
Qed.

Section RefusedQueries.
Context {W Response : Type}.
Variable db : DbLayer W.
Variable formatSuccessResponse : SchemaTools.Payload -> Response.

(** createTable (alterTable) calls the database layer for no other query
    than white space, then CREATE TABLE (ALTER TABLE) in some mix of cases,
    the two words one space apart, then the rest: a query it makes a call
    for has this shape. *)
Theorem createTable_alterTable_execute_only_heads (dbId query : string) (w : W) :
  (calls_of (run (SchemaTools.createTable db formatSuccessResponse dbId query) w) <> [] ->
   exists ws head rest,
     query = ws ++ head ++ rest /\ str_all isWhiteSpace ws = true
     /\ toLowerCase head = "create table")
  /\ (calls_of (run (SchemaTools.alterTable db formatSuccessResponse dbId query) w) <> [] ->
      exists ws head rest,
        query = ws ++ head ++ rest /\ str_all isWhiteSpace ws = true
        /\ toLowerCase head = "alter table").
Proof.
  split; intros H; apply guard_passed;
    match goal with |- ?g = true => destruct g eqn:G; [reflexivity |] end;
    exfalso; apply H; js_unfold; rewrite G; reflexivity.
Qed.

End RefusedQueries.

Lemma createTable_alterTable_execute_only_heads_witness :
  (exists ws head rest,
     "  Create Table t (id INT)" = ws ++ head ++ rest /\ str_all isWhiteSpace ws = true
     /\ toLowerCase head = "create table")
  /\ (exists ws head rest,
        "ALTER TABLE t ADD c INT" = ws ++ head ++ rest /\ str_all isWhiteSpace ws = true
        /\ toLowerCase head = "alter table").
Proof.
  split.
  - apply (createTable_alterTable_execute_only_heads shop_db (fun p : SchemaTools.Payload => p)
             "shop" "  Create Table t (id INT)" []).
    discriminate.
  - apply (createTable_alterTable_execute_only_heads shop_db (fun p : SchemaTools.Payload => p)
             "shop" "ALTER TABLE t ADD c INT" []).
    discriminate.
Defined.

(** ** Paths that handleReadResource refuses *)

Lemma pop_split_last (before last : string) :
  str_all (fun c => negb (is_char "/" c)) last = true ->
  pop (split "/" (before ++ String "/" last)) = (Some last, split "/" before).
Proof.
  intros H. now rewrite split_app, (split_none "/" last H), pop_last.
Qed.

Section RefusedPaths.
Context {W : Type}.
Variable db : DbLayer W.
Variable platform : UrlPlatform.
Variable JSON_stringify : list Resources.ColumnSummary -> string.

(** handleReadResource on a URI that parses to a path whose last segment is
    not exactly "schema" (another word, another case, or nothing, as after
    a final [/]) throws "Error reading resource: Invalid resource URI" and
    makes no call. *)
Theorem handleReadResource_rejects_other_paths
  (dbId uri before last : string) (u : URL) (w : W) :
  URL_new platform uri None = Returned u ->
  pathname u = before ++ "/" ++ last ->
  str_all (fun c => negb (is_char "/" c)) last = true ->
  last <> "schema" ->
  run (Resources.handleReadResource db platform JSON_stringify dbId uri) w
  = (Thrown (Error "Error reading resource: Invalid resource URI"),
     {| world := w; trace := [] |}).
Proof.
  intros Hu Hp Hl Hne.
  apply (proj1 (handleReadResource_guard db platform JSON_stringify dbId uri u w Hu)).
  rewrite Hp. change (before ++ "/" ++ last) with (before ++ String "/" last).
  rewrite (pop_split_last before last Hl). cbn [fst Resources.differs].
  apply negb_true_iff. now apply String.eqb_neq.
Qed.

End RefusedPaths.

Lemma handleReadResource_rejects_other_paths_witness :
  run (Resources.handleReadResource shop_db plain_platform (fun _ => EmptyString)
         "shop" "sqlite:///users/schema/") []
  = (Thrown (Error "Error reading resource: Invalid resource URI"),
     {| world := []; trace := [] |}).
Proof.
  apply (handleReadResource_rejects_other_paths shop_db plain_platform (fun _ => EmptyString)
           "shop" "sqlite:///users/schema/" "/users/schema" EmptyString
           (host_url "sqlite" EmptyString ["users"; "schema"; EmptyString]) []).
  - reflexivity.
  - reflexivity.
  - reflexivity.
  - discriminate.
Defined.

(** ** The base of the listing *)


Section ListingBases.
Context {W : Type}.
Variable db : DbLayer W.
Variable platform : UrlPlatform.





End ListingBases.


